(** * imgtowebp: batch and upload conversion of images to WebP

    A shallow embedding of the repository's Python sources

      - [src/imgtowebp/core.py]     (module [Core] below)
      - [src/imgtowebp/cli.py]      (module [Cli])
      - [src/imgtowebp/web/app.py]  (module [Web])
      - [convert_to_webp.py]        (module [LegacyCli])
      - [webp_uploader/app.py]      (module [LegacyWeb])

    together with the part of [str], [int] and [pathlib] (POSIX flavour,
    CPython 3.11) that these files call.  Strings are sequences of ASCII
    characters; filesystem state, standard error and the mutable local
    variables of a run are threaded explicitly through a state-and-exception
    monad.  A filesystem call raises where the kernel refuses the path (a
    directory that may not be searched, a name that is too long), also
    where the sources call it outside any [try].  Output on standard output
    and the rendering of templates carry no state and are not part of the
    embedding. *)

From Stdlib Require Import ZArith Ascii String List Lia Bool DecimalString.
From Stdlib.Strings Require Import Byte.
From stdpp Require Import base option list strings gmap.

Local Open Scope Z_scope.

Global Instance byte_eq_dec : EqDecision byte := Byte.byte_eq_dec.

(** ** Python [str] *)

Module PyStr.

Definition len (s : string) : Z := Z.of_nat (String.length s).

(** [s.split(sep)] for a one-character separator. *)
Fixpoint split (sep : ascii) (s : string) : list string :=
  match s with
  | EmptyString => [""]
  | String a s' =>
      if Ascii.eqb a sep then "" :: split sep s'
      else match split sep s' with
           | [] => [String a ""]
           | w :: ws => String a w :: ws
           end
  end.

(** [sep.join(l)]. *)
Fixpoint join (sep : string) (l : list string) : string :=
  match l with
  | [] => ""
  | [x] => x
  | x :: rest => x +:+ sep +:+ join sep rest
  end.

(** [s.lstrip(c)] for a single character [c]. *)
Fixpoint lstrip_char (c : ascii) (s : string) : string :=
  match s with
  | EmptyString => ""
  | String a s' => if Ascii.eqb a c then lstrip_char c s' else s
  end.

(** Whitespace of [str.strip()] on ASCII text: TAB, LF, VT, FF, CR, the
    separators FS, GS, RS, US, and space. *)
Definition isspace (a : ascii) : bool :=
  let n := N_of_ascii a in
  ((9 <=? n) && (n <=? 13) || (28 <=? n) && (n <=? 32))%N.

Fixpoint lstrip (s : string) : string :=
  match s with
  | EmptyString => ""
  | String a s' => if isspace a then lstrip s' else s
  end.

Fixpoint rstrip (s : string) : string :=
  match s with
  | EmptyString => ""
  | String a s' =>
      match rstrip s' with
      | EmptyString => if isspace a then "" else String a ""
      | r => String a r
      end
  end.

Definition strip (s : string) : string := rstrip (lstrip s).

Definition lower_char (a : ascii) : ascii :=
  let n := N_of_ascii a in
  if ((65 <=? n) && (n <=? 90))%N then ascii_of_N (n + 32) else a.

Fixpoint lower (s : string) : string :=
  match s with
  | EmptyString => ""
  | String a s' => String (lower_char a) (lower s')
  end.

Fixpoint startswith (p s : string) : bool :=
  match p, s with
  | EmptyString, _ => true
  | String a p', String b s' => Ascii.eqb a b && startswith p' s'
  | String _ _, EmptyString => false
  end.

(** [sub in s]. *)
Fixpoint contains (sub s : string) : bool :=
  startswith sub s ||
  match s with
  | EmptyString => false
  | String _ s' => contains sub s'
  end.

(** [s.rfind(c)], with [None] for Python's [-1]. *)
Fixpoint rfind (c : ascii) (s : string) : option nat :=
  match s with
  | EmptyString => None
  | String a s' =>
      match rfind c s' with
      | Some i => Some (S i)
      | None => if Ascii.eqb a c then Some 0%nat else None
      end
  end.

(** [s[:n]] and [s[n:]] for [0 <= n]. *)
Fixpoint take (n : nat) (s : string) : string :=
  match n, s with
  | S n', String a s' => String a (take n' s')
  | _, _ => ""
  end.

Fixpoint drop (n : nat) (s : string) : string :=
  match n, s with
  | S n', String _ s' => drop n' s'
  | _, _ => s
  end.

(** [c in s] for a single character [c]. *)
Fixpoint has_char (c : ascii) (s : string) : bool :=
  match s with
  | EmptyString => false
  | String a s' => Ascii.eqb a c || has_char c s'
  end.

(** Truthiness of a string. *)
Definition nonempty (s : string) : bool :=
  match s with EmptyString => false | _ => true end.

Definition eqb (a b : string) : bool := bool_decide (a = b).

End PyStr.

(** ** [pathlib.PurePosixPath] *)

(** A parsed path: the root ([""], ["/"] or ["//"]) and the segments after
    it.  [Path(".")] and [Path("")] are the path with no root and no
    segment. *)
Record PurePath := MkPath { root : string; segs : list string }.

Global Instance PurePath_eq_dec : EqDecision PurePath.
Proof. solve_decision. Defined.

Global Instance PurePath_countable : Countable PurePath.
Proof.
  refine (inj_countable' (λ p, (root p, segs p)) (λ t, MkPath t.1 t.2) _).
  by intros [].
Defined.

Module PathLib.

Definition sep : ascii := "/"%char.

(** [_PosixFlavour.splitroot]: exactly two leading slashes are kept as the
    root ["//"], any other positive number is the root ["/"]. *)
Definition splitroot (part : string) : string * string :=
  match part with
  | String a _ =>
      if Ascii.eqb a sep then
        let stripped := PyStr.lstrip_char sep part in
        if (String.length part - String.length stripped =? 2)%nat
        then ("//", stripped) else ("/", stripped)
      else ("", part)
  | EmptyString => ("", part)
  end.

Definition keep_seg (x : string) : bool :=
  PyStr.nonempty x && negb (PyStr.eqb x ".").

Definition rel_segs (rel : string) : list string :=
  filter (λ x, keep_seg x = true) (PyStr.split sep rel).

(** [_Flavour.parse_parts]: the arguments are read from the last one
    backwards, and reading stops at the first argument that has a root. *)
Fixpoint parse_parts (args : list string) : PurePath :=
  match args with
  | [] => MkPath "" []
  | a :: rest =>
      let later := parse_parts rest in
      if PyStr.nonempty (root later) then later
      else if negb (PyStr.nonempty a) then later
      else let '(r, rel) := splitroot a in
           MkPath r (rel_segs rel ++ segs later)
  end.

(** [Path(s)], and [Path] applied to several arguments. *)
Definition Path (s : string) : PurePath := parse_parts [s].
Definition Path_of (parts : list string) : PurePath := parse_parts parts.

Definition is_absolute (p : PurePath) : bool := PyStr.nonempty (root p).

(** [p.parts]: the root, when there is one, comes first. *)
Definition parts (p : PurePath) : list string :=
  if PyStr.nonempty (root p) then root p :: segs p else segs p.

(** [str(p)] and [p.as_posix()]. *)
Definition as_posix (p : PurePath) : string :=
  match root p, segs p with
  | EmptyString, [] => "."
  | r, l => r +:+ PyStr.join "/" l
  end.

(** [p.name]. *)
Definition name (p : PurePath) : string := List.last (segs p) "".

Definition suffix_start (nm : string) : option nat :=
  match PyStr.rfind "."%char nm with
  | Some i =>
      if ((0 <? i) && (i <? String.length nm - 1))%nat then Some i else None
  | None => None
  end.

(** [p.suffix] and [p.stem]. *)
Definition suffix (p : PurePath) : string :=
  match suffix_start (name p) with
  | Some i => PyStr.drop i (name p)
  | None => ""
  end.

Definition stem (p : PurePath) : string :=
  match suffix_start (name p) with
  | Some i => PyStr.take i (name p)
  | None => name p
  end.

(** [p.with_suffix(sfx)]; [None] stands for the [ValueError] raised when
    the name is empty.  Every call site passes the literal [".webp"],
    which is a valid suffix. *)
Definition with_suffix (p : PurePath) (sfx : string) : option PurePath :=
  if negb (PyStr.nonempty (name p)) then None
  else Some (MkPath (root p) (removelast (segs p) ++ [stem p +:+ sfx])).

(** [a / b]. *)
Definition joinpath (a b : PurePath) : PurePath :=
  if is_absolute b then b else MkPath (root a) (segs a ++ segs b).

(** [p.parent] and [p.parents] (nearest first). *)
Definition parent (p : PurePath) : PurePath :=
  MkPath (root p) (removelast (segs p)).

Fixpoint ancestors (r : string) (rev_segs : list string) : list PurePath :=
  match rev_segs with
  | [] => []
  | _ :: up => MkPath r (rev up) :: ancestors r up
  end.

Definition parents (p : PurePath) : list PurePath :=
  ancestors (root p) (rev (segs p)).

Fixpoint strip_prefix (pre l : list string) : option (list string) :=
  match pre, l with
  | [], _ => Some l
  | x :: pre', y :: l' =>
      if bool_decide (x = y) then strip_prefix pre' l' else None
  | _ :: _, [] => None
  end.

(** [p.relative_to(other)]; [None] stands for the [ValueError]. *)
Definition relative_to (p other : PurePath) : option PurePath :=
  if bool_decide (root p = root other) then
    MkPath "" <$> strip_prefix (segs other) (segs p)
  else None.

End PathLib.

(** ** Python [int(str)] *)

Module PyInt.

(** [Py_ISSPACE]: the whitespace [int()] skips around an ASCII literal. *)
Definition c_isspace (a : ascii) : bool :=
  let n := N_of_ascii a in
  ((9 <=? n) && (n <=? 13) || (n =? 32))%N.

Definition digit_value (a : ascii) : option Z :=
  let n := N_of_ascii a in
  if ((48 <=? n) && (n <=? 57))%N then Some (Z.of_N (n - 48)) else None.

Fixpoint skip_space (s : string) : string :=
  match s with
  | EmptyString => ""
  | String a s' => if c_isspace a then skip_space s' else s
  end.

(** The digit loop of [long_from_string_base]: digits, with single
    underscores between them.  Returns the value, the number of digits
    and the unread rest; [None] on a doubled or trailing underscore. *)
Fixpoint scan_digits (s : string) (acc : Z) (n : nat) (prev_us : bool)
  : option (Z * nat * string) :=
  match s with
  | EmptyString => if prev_us then None else Some (acc, n, "")
  | String a s' =>
      match digit_value a with
      | Some d => scan_digits s' (10 * acc + d) (S n) false
      | None =>
          if Ascii.eqb a "_" then
            if prev_us then None else scan_digits s' acc n true
          else if prev_us then None else Some (acc, n, s)
      end
  end.

(** [sys.int_info.default_max_str_digits]. *)
Definition max_str_digits : nat := 4300.

Definition split_sign (s : string) : bool * string :=
  match s with
  | String "-" s' => (true, s')
  | String "+" s' => (false, s')
  | _ => (false, s)
  end.

(** [int(s)] in base ten; [None] stands for the [ValueError]. *)
Definition int (s : string) : option Z :=
  let '(neg, body) := split_sign (skip_space s) in
  if PyStr.startswith "_" body then None
  else match scan_digits body 0 0 false with
       | Some (v, n, rest) =>
           if (n =? 0)%nat then None
           else if (max_str_digits <? n)%nat then None
           else if PyStr.nonempty (skip_space rest) then None
           else Some (if neg then - v else v)
       | None => None
       end.

End PyInt.

(** ** Exceptions, state and the process *)

(** An exception that derives from [Exception]: its class name and the text
    [str(e)] gives. *)
Record PyExn := MkExn { exn_class : string; exn_str : string }.

Inductive exit_arg := ExitCode (n : Z) | ExitMsg (s : string).

(** What a [raise] can carry: [SystemExit] derives from [BaseException]
    only, so [except Exception] does not catch it. *)
Inductive BaseExn := SystemExit (a : exit_arg) | Exc (e : PyExn).

Inductive outcome (A : Type) := Return (a : A) | Raise (e : BaseExn).
Arguments Return {A} a.
Arguments Raise {A} e.

(** A file holds bytes; a directory holds nothing of its own: its entries
    are the paths below it. *)
Inductive node := File (data : list byte) | Dir.

(** The filesystem calls a run makes, in program order. *)
Inductive fs_op :=
| OpExists (p : PurePath)
| OpIsFile (p : PurePath)
| OpStat (p : PurePath)
| OpScandir (p : PurePath)
| OpOpenRead (p : PurePath)
| OpOpenWrite (p : PurePath)
| OpUnlink (p : PurePath)
| OpMkdir (p : PurePath)
| OpResolve (p : PurePath)
| OpReadUpload (filename : string).

(** The world outside the interpreter.  Paths are looked up as the program
    presents them.  [readonly] holds the directories in which the process
    may neither create nor remove an entry (mode [r-x]), [sealed] the
    directories it may list but not search (mode [r--]): no call reaches
    an entry of one of them. *)
Record World := MkWorld {
  nodes : gmap PurePath node;
  readonly : gset PurePath;
  sealed : gset PurePath;
  stderr : list string;
  trace : list fs_op
}.

(** A run: the world and the mutable local variables of the running
    function.  A raised exception leaves both as they are at the raise. *)
Record Run (L : Type) := MkRun { world : World; locals : L }.
Arguments MkRun {L} world locals.
Arguments world {L} r.
Arguments locals {L} r.

Definition M (L A : Type) : Type := Run L → outcome A * Run L.

Definition ret {L A} (a : A) : M L A := λ s, (Return a, s).

Definition bind {L A B} (m : M L A) (f : A → M L B) : M L B :=
  λ s, match m s with
       | (Return a, s') => f a s'
       | (Raise e, s') => (Raise e, s')
       end.

Declare Scope run_scope.
Delimit Scope run_scope with run.
Bind Scope run_scope with M.
Notation "x ← y ; z" := (bind y (λ x, z))
  (at level 20, y at level 100, z at level 200) : run_scope.
Notation "' x ← y ; z" := (bind y (λ x, z))
  (at level 20, x pattern, y at level 100, z at level 200) : run_scope.
Notation "y ;; z" := (bind y (λ _, z))
  (at level 100, z at level 200, right associativity) : run_scope.
Local Open Scope run_scope.

Definition raise {L A} (e : BaseExn) : M L A := λ s, (Raise e, s).

Definition raise_exn {L A} (e : PyExn) : M L A := raise (Exc e).

(** [try: body except Exception as e: handler e]. *)
Definition try_except {L A} (body : M L A) (handler : PyExn → M L A) : M L A :=
  λ s, match body s with
       | (Raise (Exc e), s') => handler e s'
       | r => r
       end.

(** [for x in l: body x]. *)
Fixpoint for_each {L A} (l : list A) (body : A → M L unit) : M L unit :=
  match l with
  | [] => ret tt
  | x :: rest => body x ;; for_each rest body
  end.

Definition get_locals {L} : M L L := λ s, (Return (locals s), s).

Definition modify {L} (f : L → L) : M L unit :=
  λ s, (Return tt, MkRun (world s) (f (locals s))).

(** A step that reads or changes the world only. *)
Definition world_op {L A} (f : World → outcome A * World) : M L A :=
  λ s, let '(r, w) := f (world s) in (r, MkRun w (locals s)).

(** A library call that returns or raises without touching the world. *)
Definition lift_exn {L A} (r : PyExn + A) : M L A :=
  match r with
  | inl e => raise_exn e
  | inr a => ret a
  end.

(** [o] when it is a value, the given [ValueError] when it is not. *)
Definition or_value_error {L A} (o : option A) (text : string) : M L A :=
  match o with
  | Some a => ret a
  | None => raise_exn (MkExn "ValueError" text)
  end.

(** One more line on standard error. *)
Definition print_err (line : string) (w : World) : World :=
  MkWorld (nodes w) (readonly w) (sealed w) (stderr w ++ [line]) (trace w).

(** How the interpreter ends a process whose main function ran as [m]:
    exit status and final state.  An integer [SystemExit] is the status; a
    string one is printed on standard error with status 1; any other
    uncaught exception prints its traceback line with status 1. *)
Definition run_process {L} (m : M L unit) (s : Run L) : Z * Run L :=
  match m s with
  | (Return _, s') => (0, s')
  | (Raise (SystemExit (ExitCode n)), s') => (n, s')
  | (Raise (SystemExit (ExitMsg msg)), s') =>
      (1, MkRun (print_err msg (world s')) (locals s'))
  | (Raise (Exc e), s') =>
      (1, MkRun (print_err (exn_class e +:+ ": " +:+ exn_str e) (world s'))
                (locals s'))
  end.

(** ** The filesystem *)

Module Fs.

Definition log (o : fs_op) (w : World) : World :=
  MkWorld (nodes w) (readonly w) (sealed w) (stderr w) (trace w ++ [o]).

Definition set_nodes (m : gmap PurePath node) (w : World) : World :=
  MkWorld m (readonly w) (sealed w) (stderr w) (trace w).

Definition quoted (p : PurePath) : string :=
  "'" +:+ PathLib.as_posix p +:+ "'".

Definition ENOENT (p : PurePath) : PyExn :=
  MkExn "FileNotFoundError"
        ("[Errno 2] No such file or directory: " +:+ quoted p).
Definition EACCES (p : PurePath) : PyExn :=
  MkExn "PermissionError" ("[Errno 13] Permission denied: " +:+ quoted p).
Definition EISDIR (p : PurePath) : PyExn :=
  MkExn "IsADirectoryError" ("[Errno 21] Is a directory: " +:+ quoted p).
Definition ENOTDIR (p : PurePath) : PyExn :=
  MkExn "NotADirectoryError" ("[Errno 20] Not a directory: " +:+ quoted p).
Definition EEXIST (p : PurePath) : PyExn :=
  MkExn "FileExistsError" ("[Errno 17] File exists: " +:+ quoted p).
Definition ENAMETOOLONG (p : PurePath) : PyExn :=
  MkExn "OSError" ("[Errno 36] File name too long: " +:+ quoted p).

Definition dir_size : Z := 4096.

(** The longest name a directory holds ([NAME_MAX]). *)
Definition NAME_MAX : nat := 255.

(** The walk to [path], segment by segment from its root: in a directory
    that is there, the kernel refuses the next name with EACCES when the
    process may not search the directory, and with ENAMETOOLONG when the
    name is longer than [NAME_MAX].  Where a directory on the way is
    missing the walk ends without either: that case is the lookup's. *)
Fixpoint refused_from (w : World) (path : PurePath) (r : string)
    (done_rev todo : list string) : option PyExn :=
  match todo with
  | [] => None
  | x :: rest =>
      let dir := MkPath r (rev done_rev) in
      match nodes w !! dir with
      | Some Dir =>
          if bool_decide (dir ∈ sealed w) then Some (EACCES path)
          else if (NAME_MAX <? String.length x)%nat
               then Some (ENAMETOOLONG path)
          else refused_from w path r (x :: done_rev) rest
      | _ => None
      end
  end.

(** The [OSError] with which every call on [p] fails, if any.  It is none
    of the errors that [exists], [is_file] and [is_dir] take for a missing
    path (ENOENT, ENOTDIR, EBADF, ELOOP), so these raise it too. *)
Definition refused (w : World) (p : PurePath) : option PyExn :=
  refused_from w p (root p) [] (segs p).

(** Whether [stat] finds an entry at the path. *)
Definition exists_at (w : World) (p : PurePath) : bool :=
  match refused w p with
  | Some _ => false
  | None => bool_decide (is_Some (nodes w !! p))
  end.

Section Ops.
Context {L : Type}.

(** [p.exists()]: a boolean, or the error that refuses the path. *)
Definition path_exists (p : PurePath) : M L bool :=
  world_op (λ w,
    (match refused w p with
     | Some e => Raise (Exc e)
     | None => Return (exists_at w p)
     end, log (OpExists p) w)).

(** [p.is_file()]. *)
Definition is_file (p : PurePath) : M L bool :=
  world_op (λ w,
    (match refused w p with
     | Some e => Raise (Exc e)
     | None =>
         Return (match nodes w !! p with Some (File _) => true | _ => false end)
     end, log (OpIsFile p) w)).

(** [p.stat().st_size]. *)
Definition stat_size (p : PurePath) : M L Z :=
  world_op (λ w,
    (match refused w p with
     | Some e => Raise (Exc e)
     | None =>
         match nodes w !! p with
         | Some (File d) => Return (Z.of_nat (length d))
         | Some Dir => Return dir_size
         | None => Raise (Exc (ENOENT p))
         end
     end, log (OpStat p) w)).

(** [p.unlink()]. *)
Definition unlink (p : PurePath) : M L unit :=
  world_op (λ w,
    let w' := log (OpUnlink p) w in
    match refused w p with
    | Some e => (Raise (Exc e), w')
    | None =>
        match nodes w !! p with
        | None => (Raise (Exc (ENOENT p)), w')
        | Some Dir => (Raise (Exc (EISDIR p)), w')
        | Some (File _) =>
            if bool_decide (PathLib.parent p ∈ readonly w)
            then (Raise (Exc (EACCES p)), w')
            else (Return tt, set_nodes (delete p (nodes w)) w')
        end
    end).

(** [open(p, "rb").read()]. *)
Definition read_bytes (p : PurePath) : M L (list byte) :=
  world_op (λ w,
    (match refused w p with
     | Some e => Raise (Exc e)
     | None =>
         match nodes w !! p with
         | Some (File d) => Return d
         | Some Dir => Raise (Exc (EISDIR p))
         | None => Raise (Exc (ENOENT p))
         end
     end, log (OpOpenRead p) w)).

(** [open(p, "w+b")]: the file is created, or emptied when it is there
    already.  Returns whether this call created it. *)
Definition open_write (p : PurePath) : M L bool :=
  world_op (λ w,
    let w' := log (OpOpenWrite p) w in
    match refused w p with
    | Some e => (Raise (Exc e), w')
    | None =>
        match nodes w !! p with
        | Some Dir => (Raise (Exc (EISDIR p)), w')
        | Some (File _) =>
            (Return false, set_nodes (<[p := File []]> (nodes w)) w')
        | None =>
            match nodes w !! PathLib.parent p with
            | Some Dir =>
                if bool_decide (PathLib.parent p ∈ readonly w)
                then (Raise (Exc (EACCES p)), w')
                else (Return true, set_nodes (<[p := File []]> (nodes w)) w')
            | Some (File _) => (Raise (Exc (ENOTDIR p)), w')
            | None => (Raise (Exc (ENOENT p)), w')
            end
        end
    end).

(** Writing through a handle that [open_write] returned. *)
Definition write_bytes (p : PurePath) (data : list byte) : M L unit :=
  world_op (λ w, (Return tt, set_nodes (<[p := File data]> (nodes w)) w)).

(** [os.remove(p)] with [PermissionError] suppressed, as the imaging
    library calls it when it cleans up after a failed save. *)
Definition remove_quietly (p : PurePath) : M L unit :=
  try_except (unlink p)
    (λ e, if bool_decide (exn_class e = "PermissionError") then ret tt
          else raise_exn e).

End Ops.

End Fs.

(** *** Directories *)

Module FsDir.
Import Fs.

Definition paths_of (m : gmap PurePath node) : list PurePath :=
  (map_to_list m).*1.

Definition is_dir_in (m : gmap PurePath node) (d : PurePath) : bool :=
  match m !! d with Some Dir => true | _ => false end.

(** The entries of directory [d]. *)
Definition children (m : gmap PurePath node) (d : PurePath) : list PurePath :=
  filter (λ p, PathLib.parent p = d ∧ segs p ≠ []) (paths_of m).

(** Everything below directory [d], at any depth. *)
Definition descendants (m : gmap PurePath node) (d : PurePath)
  : list PurePath :=
  filter (λ p, d ∈ PathLib.parents p) (paths_of m).

Definition is_oserror (e : PyExn) : bool :=
  bool_decide (exn_class e ∈
    ["OSError"; "FileNotFoundError"; "PermissionError"; "IsADirectoryError";
     "NotADirectoryError"; "FileExistsError"]).

Section Ops.
Context {L : Type}.

(** [list(d.iterdir())]: raises when [d] is not a directory. *)
Definition iterdir (d : PurePath) : M L (list PurePath) :=
  world_op (λ w,
    (match refused w d with
     | Some e => Raise (Exc e)
     | None =>
         match nodes w !! d with
         | Some Dir => Return (children (nodes w) d)
         | Some (File _) => Raise (Exc (ENOTDIR d))
         | None => Raise (Exc (ENOENT d))
         end
     end, log (OpScandir d) w)).

(** [d.glob("*")]: the entries of [d], none when [d] is not a
    directory.  The selector starts with [d.is_dir()], which raises where
    the path is refused. *)
Definition glob_star (d : PurePath) : M L (list PurePath) :=
  world_op (λ w,
    (match refused w d with
     | Some e => Raise (Exc e)
     | None =>
         Return (if is_dir_in (nodes w) d then children (nodes w) d else [])
     end, log (OpScandir d) w)).

(** [d.rglob("*")]: every entry below [d] whose directory the walk can
    list; the [PermissionError] of a directory it cannot enter is dropped
    by the walk.  Each directory is listed as a whole when the walk
    reaches it; the runs below only change the directory of the file they
    are visiting, which has been listed by then, so the walk sees what a
    listing at the start sees. *)
Definition rglob_star (d : PurePath) : M L (list PurePath) :=
  world_op (λ w,
    (match refused w d with
     | Some e => Raise (Exc e)
     | None =>
         Return (if is_dir_in (nodes w) d
                 then filter (λ p, refused w (PathLib.parent p) = None)
                        (descendants (nodes w) d)
                 else [])
     end, log (OpScandir d) w)).

(** [os.mkdir(p)]. *)
Definition os_mkdir (p : PurePath) : M L unit :=
  world_op (λ w,
    let w' := log (OpMkdir p) w in
    match refused w p with
    | Some e => (Raise (Exc e), w')
    | None =>
        match nodes w !! p with
        | Some _ => (Raise (Exc (EEXIST p)), w')
        | None =>
            match segs p, nodes w !! PathLib.parent p with
            | [], _ => (Raise (Exc (ENOENT p)), w')
            | _, None => (Raise (Exc (ENOENT p)), w')
            | _, Some (File _) => (Raise (Exc (ENOTDIR p)), w')
            | _, Some Dir =>
                if bool_decide (PathLib.parent p ∈ readonly w)
                then (Raise (Exc (EACCES p)), w')
                else (Return tt, set_nodes (<[p := Dir]> (nodes w)) w')
            end
        end
    end).

(** [p.is_dir()]. *)
Definition is_dir (p : PurePath) : M L bool :=
  world_op (λ w,
    (match refused w p with
     | Some e => Raise (Exc e)
     | None => Return (is_dir_in (nodes w) p)
     end, log (OpStat p) w)).

(** The [except OSError] arm of [Path.mkdir] with [exist_ok=True]: the
    error is dropped when the path is a directory, raised again when it is
    not. *)
Definition exist_ok_arm (p : PurePath) (e : PyExn) : M L unit :=
  if is_oserror e then
    d ← is_dir p; if d then ret tt else raise_exn e
  else raise_exn e.

Definition is_not_found (e : PyExn) : bool :=
  bool_decide (exn_class e = "FileNotFoundError").

(** [p.mkdir(parents=False, exist_ok=True)]. *)
Definition mkdir_exist_ok (p : PurePath) : M L unit :=
  try_except (os_mkdir p)
    (λ e, if is_not_found e then raise_exn e else exist_ok_arm p e).

(** [p.mkdir(parents=True, exist_ok=True)], by recursion on the segments
    of [p] read from the last one: when a parent is missing, the parent is
    made first and [mkdir] is called again without [parents].  A path
    without segments is its own parent. *)
Fixpoint mkdir_parents_from (r : string) (rev_segs : list string)
  : M L unit :=
  let p := MkPath r (rev rev_segs) in
  try_except (os_mkdir p)
    (λ e, if is_not_found e then
            match rev_segs with
            | [] => raise_exn e
            | _ :: up => mkdir_parents_from r up ;; mkdir_exist_ok p
            end
          else exist_ok_arm p e).

Definition mkdir_parents (p : PurePath) : M L unit :=
  mkdir_parents_from (root p) (rev (segs p)).

End Ops.

End FsDir.

(** ** The imaging library *)

(** What the sources use of the imaging library.  An image shows its mode
    and its bands; opening, loading, converting and encoding either return
    or raise.  [Image.open] reads the header only and names the file in its
    error; the pixels are decoded by [load], which [convert] and [save]
    call, so a damaged file may be opened and fail later. *)
Class Codec := {
  Image : Type;
  img_mode : Image → string;
  img_getbands : Image → list string;
  (** [img.convert(mode)] *)
  img_convert : Image → string → PyExn + Image;
  (** [Image.open] on the bytes of the file at a path, or of a buffer *)
  image_open : option PurePath → list byte → PyExn + Image;
  (** [img.load()] *)
  img_load : Image → PyExn + Image;
  (** the WEBP encoder at a quality, with [method=6] *)
  webp_encode : Image → Z → PyExn + list byte
}.

Module Pil.
Section Ops.
Context `{Codec} {L : Type}.

(** [Image.open(path)]. *)
Definition open_path (p : PurePath) : M L Image :=
  data ← Fs.read_bytes p; lift_exn (image_open (Some p) data).

(** [Image.open(io.BytesIO(data))]. *)
Definition open_bytes (data : list byte) : M L Image :=
  lift_exn (image_open None data).

(** [img.save(path, "WEBP", quality=q, method=6)]: the library loads
    the image, opens the file for writing, runs the encoder, and when the
    encoder raises removes the file if this call created it, then raises
    again. *)
Definition save (img : Image) (p : PurePath) (q : Z) : M L unit :=
  img ← lift_exn (img_load img);
  created ← Fs.open_write p;
  match webp_encode img q with
  | inr data => Fs.write_bytes p data
  | inl e =>
      (if created : bool then Fs.remove_quietly p else ret tt) ;;
      raise_exn e
  end.
End Ops.
End Pil.

(** ** [src/imgtowebp/core.py] *)

Module Core.

Definition SUPPORTED_EXTENSIONS : gset string := {[ ".jpg"; ".jpeg"; ".png" ]}.
Definition DEFAULT_QUALITY : Z := 80.

Record ConversionResult := MkResult {
  success : bool;
  message : string;
  input_size : Z;
  output_size : Z;
  saved_bytes : Z
}.

(** The [bytes | Path] argument of [convert_image]. *)
Inductive input_data := InPath (p : PurePath) | InBytes (data : list byte).

Section WithCodec.
Context `{Codec}.

Definition ensure_webp_compatible_mode (img : Image) : PyExn + Image :=
  if bool_decide (img_mode img ∈ ["RGB"; "RGBA"]) then inr img
  else if bool_decide ("A" ∈ img_getbands img) then img_convert img "RGBA"
  else img_convert img "RGB".

(** The [try] block of [convert_image]. *)
Definition convert_attempt {L} (input : input_data) (output_path : PurePath)
    (quality : Z) : M L ConversionResult :=
  '(input_size, img) ←
    match input with
    | InPath p =>
        sz ← Fs.stat_size p;
        img ← Pil.open_path p;
        ret (sz, img)
    | InBytes data =>
        img ← Pil.open_bytes data;
        ret (Z.of_nat (length data), img)
    end;
  img ← lift_exn (ensure_webp_compatible_mode img);
  Pil.save img output_path quality ;;
  output_size ← Fs.stat_size output_path;
  ret (MkResult true "Successfully converted" input_size output_size
                (input_size - output_size)).

Definition convert_image {L} (input : input_data) (output_path : PurePath)
    (quality : Z) (overwrite : bool) : M L ConversionResult :=
  ex ← Fs.path_exists output_path;
  if ex && negb overwrite then
    ret (MkResult false
           "Output file already exists and overwrite is disabled." 0 0 0)
  else
    try_except (convert_attempt input output_path quality)
      (λ e, ret (MkResult false
                   ("Error during conversion: " +:+ exn_str e) 0 0 0)).
End WithCodec.

End Core.

(** ** Batch statistics *)

(** [ConversionStats], declared alike in [convert_to_webp.py] and in
    [src/imgtowebp/cli.py]. *)
Record ConversionStats := MkStats {
  scanned : Z;
  eligible : Z;
  converted : Z;
  skipped_existing : Z;
  deleted_originals : Z;
  failed : Z;
  total_input_bytes : Z;
  total_output_bytes : Z;
  total_deleted_bytes : Z
}.

Module Stats.
(** [ConversionStats()]. *)
Definition fresh : ConversionStats := MkStats 0 0 0 0 0 0 0 0 0.

Definition set_scanned (n : Z) (s : ConversionStats) :=
  MkStats n (eligible s) (converted s) (skipped_existing s)
    (deleted_originals s) (failed s) (total_input_bytes s)
    (total_output_bytes s) (total_deleted_bytes s).
Definition add_scanned (n : Z) (s : ConversionStats) :=
  set_scanned (scanned s + n) s.
Definition add_eligible (n : Z) (s : ConversionStats) :=
  MkStats (scanned s) (eligible s + n) (converted s) (skipped_existing s)
    (deleted_originals s) (failed s) (total_input_bytes s)
    (total_output_bytes s) (total_deleted_bytes s).
Definition add_converted (n : Z) (s : ConversionStats) :=
  MkStats (scanned s) (eligible s) (converted s + n) (skipped_existing s)
    (deleted_originals s) (failed s) (total_input_bytes s)
    (total_output_bytes s) (total_deleted_bytes s).
Definition add_skipped_existing (n : Z) (s : ConversionStats) :=
  MkStats (scanned s) (eligible s) (converted s) (skipped_existing s + n)
    (deleted_originals s) (failed s) (total_input_bytes s)
    (total_output_bytes s) (total_deleted_bytes s).
Definition add_deleted_originals (n : Z) (s : ConversionStats) :=
  MkStats (scanned s) (eligible s) (converted s) (skipped_existing s)
    (deleted_originals s + n) (failed s) (total_input_bytes s)
    (total_output_bytes s) (total_deleted_bytes s).
Definition add_failed (n : Z) (s : ConversionStats) :=
  MkStats (scanned s) (eligible s) (converted s) (skipped_existing s)
    (deleted_originals s) (failed s + n) (total_input_bytes s)
    (total_output_bytes s) (total_deleted_bytes s).
Definition add_total_input_bytes (n : Z) (s : ConversionStats) :=
  MkStats (scanned s) (eligible s) (converted s) (skipped_existing s)
    (deleted_originals s) (failed s) (total_input_bytes s + n)
    (total_output_bytes s) (total_deleted_bytes s).
Definition add_total_output_bytes (n : Z) (s : ConversionStats) :=
  MkStats (scanned s) (eligible s) (converted s) (skipped_existing s)
    (deleted_originals s) (failed s) (total_input_bytes s)
    (total_output_bytes s + n) (total_deleted_bytes s).
Definition add_total_deleted_bytes (n : Z) (s : ConversionStats) :=
  MkStats (scanned s) (eligible s) (converted s) (skipped_existing s)
    (deleted_originals s) (failed s) (total_input_bytes s)
    (total_output_bytes s) (total_deleted_bytes s + n).
End Stats.

(** How a path resolves: the working directory and the symbolic links of
    the machine decide, so [os.path.realpath] is given from outside.  It
    refuses a path that holds a NUL ([ValueError]) or runs into a loop of
    links ([RuntimeError]); the other errors of the lookups it makes are
    dropped by [Path.resolve].  No program here makes or removes a link or
    changes the working directory, so a path resolves alike throughout a
    run. *)
Class PathEnv := { realpath : PurePath → PyExn + PurePath }.

(** [p.resolve()]. *)
Definition resolve `{PathEnv} {L} (p : PurePath) : M L PurePath :=
  world_op (λ w,
    (match realpath p with
     | inl e => Raise (Exc e)
     | inr q => Return q
     end, Fs.log (OpResolve p) w)).

(** The parsed command line of both batch programs. *)
Record Args := MkArgs {
  arg_dir : string;
  arg_quality : Z;
  arg_no_recursive : bool;
  arg_overwrite : bool;
  arg_replace : bool
}.

(** ** [convert_to_webp.py] *)

Module LegacyCli.
Import Stats.

Definition SUPPORTED_EXTENSIONS : gset string := {[ ".jpg"; ".jpeg"; ".png" ]}.
Definition DEFAULT_QUALITY : Z := 80.

Definition should_convert (path : PurePath) : bool :=
  bool_decide (PyStr.lower (PathLib.suffix path) ∈ SUPPORTED_EXTENSIONS).

Section WithCodec.
Context `{Codec}.

Definition ensure_webp_compatible_mode (img : Image) : PyExn + Image :=
  if bool_decide (img_mode img ∈ ["RGB"; "RGBA"]) then inr img
  else if bool_decide ("A" ∈ img_getbands img) then img_convert img "RGBA"
  else img_convert img "RGB".

Definition to_webp_path {L} (src_path : PurePath) : M L PurePath :=
  or_value_error (PathLib.with_suffix src_path ".webp")
    (Fs.quoted src_path +:+ " has an empty name").

(** The generator [iter_images] together with the [for] loop that
    consumes it: [body] runs at each [yield]. *)
Definition iter_images {L} (directory : PurePath) (recursive : bool)
    (body : PurePath → M L unit) : M L unit :=
  entries ← (if recursive then FsDir.rglob_star directory
             else FsDir.glob_star directory);
  for_each entries (λ path,
    f ← Fs.is_file path;
    if negb f then ret tt else body path).

Definition convert_one (src_path : PurePath) (quality : Z)
    (overwrite replace : bool) : M ConversionStats unit :=
  modify (add_scanned 1) ;;
  if negb (should_convert src_path) then ret tt
  else
    modify (add_eligible 1) ;;
    dst_path ← to_webp_path src_path;
    ex ← Fs.path_exists dst_path;
    if ex && negb overwrite then
      modify (add_skipped_existing 1) ;;
      if replace then
        try_except
          (dst_size ← Fs.stat_size dst_path;
           if 0 <? dst_size then
             src_size ← Fs.stat_size src_path;
             Fs.unlink src_path ;;
             modify (add_deleted_originals 1) ;;
             modify (add_total_deleted_bytes src_size)
           else ret tt)
          (λ exc, modify (add_failed 1))
      else ret tt
    else
      try_except
        (src_size ← Fs.stat_size src_path;
         img ← Pil.open_path src_path;
         img ← lift_exn (ensure_webp_compatible_mode img);
         Pil.save img dst_path quality ;;
         dst_size ← Fs.stat_size dst_path;
         modify (add_total_input_bytes src_size) ;;
         modify (add_total_output_bytes dst_size) ;;
         modify (add_converted 1) ;;
         if replace then
           try_except
             (Fs.unlink src_path ;;
              modify (add_deleted_originals 1) ;;
              modify (add_total_deleted_bytes src_size))
             (λ exc, modify (add_failed 1))
         else ret tt)
        (λ exc, modify (add_failed 1)).

Definition convert_to_webp (directory : PurePath) (quality : Z)
    (recursive overwrite replace : bool) : M ConversionStats ConversionStats :=
  modify (λ _, fresh) ;;
  iter_images directory recursive (λ path,
    convert_one path quality overwrite replace) ;;
  get_locals.

Definition main `{PathEnv} (args : Args) : M ConversionStats unit :=
  directory ← resolve (PathLib.Path (arg_dir args));
  let quality := arg_quality args in
  if (quality <? 0) || (100 <? quality) then
    raise (SystemExit (ExitMsg "--quality must be within 0..100"))
  else
    convert_to_webp directory quality (negb (arg_no_recursive args))
      (arg_overwrite args) (arg_replace args) ;;
    ret tt.
End WithCodec.

End LegacyCli.

(** ** [src/imgtowebp/cli.py] *)

Module Cli.
Import Stats Core.

Section WithCodec.
Context `{Codec}.

(** The generator [iter_images] with the loop that consumes it. *)
Definition iter_images {L} (directory : PurePath) (recursive : bool)
    (body : PurePath → M L unit) : M L unit :=
  entries ← (if recursive then FsDir.rglob_star directory
             else FsDir.glob_star directory);
  for_each entries (λ path,
    f ← Fs.is_file path;
    if f && bool_decide (PyStr.lower (PathLib.suffix path)
                           ∈ SUPPORTED_EXTENSIONS)
    then body path else ret tt).

(** [len([f for f in directory.iterdir() if f.is_file()])]. *)
Fixpoint count_files {L} (l : list PurePath) : M L Z :=
  match l with
  | [] => ret 0
  | f :: rest =>
      b ← Fs.is_file f;
      n ← count_files rest;
      ret (if b : bool then 1 + n else n)
  end.

(** The deletion block that follows a conversion and the one that
    follows a skip are the same statements. *)
Definition delete_original (src_path : PurePath) : M ConversionStats unit :=
  try_except
    (src_size ← Fs.stat_size src_path;
     Fs.unlink src_path ;;
     modify (add_deleted_originals 1) ;;
     modify (add_total_deleted_bytes src_size))
    (λ e, ret tt).

Definition process (args : Args) (src_path : PurePath)
  : M ConversionStats unit :=
  modify (add_eligible 1) ;;
  dst_path ← or_value_error (PathLib.with_suffix src_path ".webp")
               (Fs.quoted src_path +:+ " has an empty name");
  res ← convert_image (InPath src_path) dst_path (arg_quality args)
          (arg_overwrite args);
  if success res then
    modify (add_converted 1) ;;
    modify (add_total_input_bytes (input_size res)) ;;
    modify (add_total_output_bytes (output_size res)) ;;
    if arg_replace args then delete_original src_path else ret tt
  else if PyStr.contains "exists" (message res) then
    modify (add_skipped_existing 1) ;;
    if arg_replace args then delete_original src_path else ret tt
  else
    modify (add_failed 1).

Definition print_stderr {L} (line : string) : M L unit :=
  world_op (λ w, (Return tt, print_err line w)).

Definition run_cli `{PathEnv} (args : Args) : M ConversionStats unit :=
  directory ← resolve (PathLib.Path (arg_dir args));
  if negb ((0 <=? arg_quality args) && (arg_quality args <=? 100)) then
    print_stderr "Error: --quality must be between 0 and 100" ;;
    raise (SystemExit (ExitCode 1))
  else
    modify (λ _, fresh) ;;
    top ← FsDir.iterdir directory;
    n ← count_files top;
    modify (set_scanned n) ;;
    iter_images directory (negb (arg_no_recursive args)) (process args).
End WithCodec.

End Cli.

(** ** The upload handlers *)

(** [werkzeug.utils.secure_filename]. *)
Class Werkzeug := { secure_filename : string → string }.

(** Data both upload handlers declare alike. *)
Module Upload.

Record UploadItemResult := MkItem {
  original_name : string;
  status : string;
  message : string;
  output_relpath : option string;
  input_bytes : Z;
  output_bytes : Z
}.

(** An uploaded part: the client's file name, which may be missing, and
    the bytes of its stream. *)
Record FileStorage := MkFile {
  filename : option string;
  content : list byte
}.

(** [not f or not f.filename]: a [FileStorage] is false when its file
    name is. *)
Definition unnamed (f : FileStorage) : bool :=
  match filename f with
  | None => true
  | Some n => negb (PyStr.nonempty n)
  end.

Record Request := MkRequest {
  files : list FileStorage;
  form : gmap string string
}.

(** The local variables the handler updates while it loops. *)
Record Locals := MkLocals {
  results : list UploadItemResult;
  total_in : Z;
  total_out : Z;
  converted : Z;
  skipped : Z;
  failed : Z
}.

Definition fresh : Locals := MkLocals [] 0 0 0 0 0.

Definition append (r : UploadItemResult) (l : Locals) : Locals :=
  MkLocals (results l ++ [r]) (total_in l) (total_out l) (converted l)
    (skipped l) (failed l).
Definition add_total_in (n : Z) (l : Locals) : Locals :=
  MkLocals (results l) (total_in l + n) (total_out l) (converted l)
    (skipped l) (failed l).
Definition add_total_out (n : Z) (l : Locals) : Locals :=
  MkLocals (results l) (total_in l) (total_out l + n) (converted l)
    (skipped l) (failed l).
Definition add_converted (n : Z) (l : Locals) : Locals :=
  MkLocals (results l) (total_in l) (total_out l) (converted l + n)
    (skipped l) (failed l).
Definition add_skipped (n : Z) (l : Locals) : Locals :=
  MkLocals (results l) (total_in l) (total_out l) (converted l)
    (skipped l + n) (failed l).
Definition add_failed (n : Z) (l : Locals) : Locals :=
  MkLocals (results l) (total_in l) (total_out l) (converted l)
    (skipped l) (failed l + n).

(** The [summary] dictionary.  Byte totals are kept as numbers; their
    rendering as text and the percentage are left to the template. *)
Record Summary := MkSummary {
  files_received : Z;
  sum_converted : Z;
  sum_skipped : Z;
  sum_failed : Z;
  sum_total_input : Z;
  sum_total_output : Z;
  sum_saved : Z;
  sum_output_dir : string;
  sum_subdir : string;
  sum_overwrite : bool;
  sum_quality : Z
}.

(** What the handler passes to the template. *)
Record Response := MkResponse {
  resp_results : list UploadItemResult;
  resp_summary : Summary
}.

(** [f.read()]. *)
Definition read {L} (f : FileStorage) : M L (list byte) :=
  world_op (λ w,
    (Return (content f),
     Fs.log (OpReadUpload (default "" (filename f))) w)).

(** [str(n)] for an integer. *)
Definition str_of_int (n : Z) : string :=
  DecimalString.NilZero.string_of_int (Z.to_int n).

(** [str(out_path.relative_to(output_dir))]. *)
Definition relpath_str {L} (out_path output_dir : PurePath) : M L string :=
  rel ← or_value_error (PathLib.relative_to out_path output_dir)
          (Fs.quoted out_path +:+ " is not in the subpath of "
           +:+ Fs.quoted output_dir);
  ret (PathLib.as_posix rel).

End Upload.

(** ** [src/imgtowebp/web/app.py] *)

Module Web.
Import Upload.

Definition safe_subdir (subdir : string) : PurePath :=
  let subdir := PyStr.strip subdir in
  if negb (PyStr.nonempty subdir) then PathLib.Path "."
  else
    let candidate := PathLib.Path subdir in
    if PathLib.is_absolute candidate then PathLib.Path "."
    else
      let cleaned_parts :=
        filter (λ part, part ∉ [""; "."; ".."]) (PathLib.parts candidate) in
      match cleaned_parts with
      | [] => PathLib.Path "."
      | _ => PathLib.Path_of cleaned_parts
      end.

(** The quality the handler works with, from the form field. *)
Definition effective_quality (quality_raw : string) : Z :=
  let quality :=
    match PyInt.int quality_raw with
    | Some q => q
    | None => Core.DEFAULT_QUALITY
    end in
  Z.max 0 (Z.min 100 quality).

Section Handler.
Context `{Codec} `{PathEnv} `{Werkzeug}.

(** The directory the handler writes into: the requested one, or the
    output directory when the request resolves to a place outside it.  The
    second test of the guard is made only when the first holds. *)
Definition target_dir_of (output_dir subdir : PurePath)
  : M Locals PurePath :=
  target_dir ← resolve (PathLib.joinpath output_dir subdir);
  base ← resolve output_dir;
  outside ←
    (if negb (bool_decide (base ∈ PathLib.parents target_dir)) then
       base ← resolve output_dir;
       ret (negb (bool_decide (target_dir = base)))
     else ret false);
  if outside : bool then resolve output_dir else ret target_dir.

(** The body of [for f in files]. *)
Definition handle_file (output_dir target_dir : PurePath) (quality : Z)
    (overwrite : bool) (f : FileStorage) : M Locals unit :=
  if unnamed f then ret tt
  else
    let original_name := default "" (filename f) in
    let safe_name := secure_filename original_name in
    let ext := PyStr.lower (PathLib.suffix (PathLib.Path safe_name)) in
    if negb (bool_decide (ext ∈ Core.SUPPORTED_EXTENSIONS)) then
      modify (add_skipped 1) ;;
      modify (append (MkItem original_name "skipped"
                        "Unsupported file type." None 0 0))
    else
      let stem := PathLib.stem (PathLib.Path safe_name) in
      let out_path :=
        PathLib.joinpath target_dir (PathLib.Path (stem +:+ ".webp")) in
      data ← read f;
      if bool_decide (data = []) then
        modify (add_skipped 1) ;;
        modify (append (MkItem original_name "skipped" "Empty file."
                          None 0 0))
      else
        res ← Core.convert_image (Core.InBytes data) out_path quality
                overwrite;
        if Core.success res then
          modify (add_total_in (Core.input_size res)) ;;
          modify (add_total_out (Core.output_size res)) ;;
          modify (add_converted 1) ;;
          rel ← relpath_str out_path output_dir;
          modify (append (MkItem original_name "converted" "Saved."
                            (Some rel) (Core.input_size res)
                            (Core.output_size res)))
        else if PyStr.contains "exists" (Core.message res) then
          modify (add_skipped 1) ;;
          rel ← relpath_str out_path output_dir;
          modify (append (MkItem original_name "skipped"
                            (Core.message res) (Some rel) 0 0))
        else
          modify (add_failed 1) ;;
          modify (append (MkItem original_name "failed"
                            (Core.message res) None 0 0)).

Definition upload (output_dir : PurePath) (req : Request)
  : M Locals Response :=
  let quality_raw :=
    default (str_of_int Core.DEFAULT_QUALITY) (form req !! "quality") in
  let overwrite := bool_decide (form req !! "overwrite" = Some "on") in
  let subdir := safe_subdir (default "" (form req !! "subdir")) in
  let quality := effective_quality quality_raw in
  modify (λ _, fresh) ;;
  target_dir ← target_dir_of output_dir subdir;
  FsDir.mkdir_parents target_dir ;;
  for_each (files req) (handle_file output_dir target_dir quality overwrite) ;;
  l ← get_locals;
  ret (MkResponse (results l)
         (MkSummary (Z.of_nat (length (files req))) (converted l)
            (skipped l) (failed l) (total_in l) (total_out l)
            (total_in l - total_out l) (PathLib.as_posix output_dir)
            (PathLib.as_posix subdir) overwrite quality)).
End Handler.

End Web.

(** ** [webp_uploader/app.py] *)

Module LegacyWeb.
Import Upload.

Definition SUPPORTED_EXTENSIONS : gset string := {[ ".jpg"; ".jpeg"; ".png" ]}.
Definition DEFAULT_QUALITY : Z := 80.

Definition safe_subdir (subdir : string) : PurePath :=
  let subdir := PyStr.strip subdir in
  if negb (PyStr.nonempty subdir) then PathLib.Path "."
  else
    let candidate := PathLib.Path subdir in
    if PathLib.is_absolute candidate then PathLib.Path "."
    else
      let cleaned_parts :=
        filter (λ part, part ∉ [""; "."; ".."]) (PathLib.parts candidate) in
      match cleaned_parts with
      | [] => PathLib.Path "."
      | _ => PathLib.Path_of cleaned_parts
      end.

Definition effective_quality (quality_raw : string) : Z :=
  let quality :=
    match PyInt.int quality_raw with
    | Some q => q
    | None => DEFAULT_QUALITY
    end in
  let quality := if quality <? 0 then 0 else quality in
  if 100 <? quality then 100 else quality.

Section Handler.
Context `{Codec} `{PathEnv} `{Werkzeug}.

Definition ensure_webp_compatible_mode (img : Image) : PyExn + Image :=
  if bool_decide (img_mode img ∈ ["RGB"; "RGBA"]) then inr img
  else if bool_decide ("A" ∈ img_getbands img) then img_convert img "RGBA"
  else img_convert img "RGB".

Definition target_dir_of (output_dir subdir : PurePath)
  : M Locals PurePath :=
  target_dir ← resolve (PathLib.joinpath output_dir subdir);
  base ← resolve output_dir;
  outside ←
    (if negb (bool_decide (base ∈ PathLib.parents target_dir)) then
       base ← resolve output_dir;
       ret (negb (bool_decide (target_dir = base)))
     else ret false);
  if outside : bool then resolve output_dir else ret target_dir.

(** The body of [for f in files]. *)
Definition handle_file (output_dir target_dir : PurePath) (quality : Z)
    (overwrite : bool) (f : FileStorage) : M Locals unit :=
  if unnamed f then ret tt
  else
    let original_name := default "" (filename f) in
    let safe_name := secure_filename original_name in
    let ext := PyStr.lower (PathLib.suffix (PathLib.Path safe_name)) in
    if negb (bool_decide (ext ∈ SUPPORTED_EXTENSIONS)) then
      modify (add_skipped 1) ;;
      modify (append (MkItem original_name "skipped"
                "Unsupported file type (only .jpg/.jpeg/.png)." None 0 0))
    else
      let stem := PathLib.stem (PathLib.Path safe_name) in
      let out_path :=
        PathLib.joinpath target_dir (PathLib.Path (stem +:+ ".webp")) in
      ex ← Fs.path_exists out_path;
      if ex && negb overwrite then
        modify (add_skipped 1) ;;
        rel ← relpath_str out_path output_dir;
        modify (append (MkItem original_name "skipped"
                  "Output exists and overwrite is disabled." (Some rel) 0 0))
      else
        try_except
          (data ← read f;
           if bool_decide (data = []) then
             modify (add_skipped 1) ;;
             modify (append (MkItem original_name "skipped" "Empty file."
                               None 0 0))
           else
             modify (add_total_in (Z.of_nat (length data))) ;;
             img ← Pil.open_bytes data;
             img ← lift_exn (ensure_webp_compatible_mode img);
             Pil.save img out_path quality ;;
             out_size ← Fs.stat_size out_path;
             modify (add_total_out out_size) ;;
             modify (add_converted 1) ;;
             rel ← relpath_str out_path output_dir;
             modify (append (MkItem original_name "converted" "Saved."
                               (Some rel) (Z.of_nat (length data)) out_size)))
          (λ exc,
             modify (add_failed 1) ;;
             modify (append (MkItem original_name "failed" (exn_str exc)
                               None 0 0))).

Definition upload (output_dir : PurePath) (req : Request)
  : M Locals Response :=
  let quality_raw :=
    default (str_of_int DEFAULT_QUALITY) (form req !! "quality") in
  let overwrite := bool_decide (form req !! "overwrite" = Some "on") in
  let subdir := safe_subdir (default "" (form req !! "subdir")) in
  let quality := effective_quality quality_raw in
  modify (λ _, fresh) ;;
  target_dir ← target_dir_of output_dir subdir;
  FsDir.mkdir_parents target_dir ;;
  for_each (files req) (handle_file output_dir target_dir quality overwrite) ;;
  l ← get_locals;
  ret (MkResponse (results l)
         (MkSummary (Z.of_nat (length (files req))) (converted l)
            (skipped l) (failed l) (total_in l) (total_out l)
            (total_in l - total_out l) (PathLib.as_posix output_dir)
            (PathLib.as_posix subdir) overwrite quality)).
End Handler.

End LegacyWeb.

(** ** A machine to run the programs on *)

(** A small imaging library, a machine without symbolic links, and file
    names that need no cleaning: enough to evaluate the programs on
    concrete directories and requests. *)
Module Sample.

Record image := MkImage {
  sample_mode : string;
  sample_bands : list string;
  sample_pixels : list byte
}.

(** The bands of the library's modes ([ImageMode.getmode]): the
    premultiplied modes name their alpha band [a], and the third band of
    [LAB] is a colour axis named [B], its second one named [A]. *)
Definition bands_of (mode : string) : list string :=
  if bool_decide (mode = "RGBA") then ["R"; "G"; "B"; "A"]
  else if bool_decide (mode = "RGB") then ["R"; "G"; "B"]
  else if bool_decide (mode = "LA") then ["L"; "A"]
  else if bool_decide (mode = "LAB") then ["L"; "A"; "B"]
  else if bool_decide (mode = "RGBa") then ["R"; "G"; "B"; "a"]
  else if bool_decide (mode = "La") then ["L"; "a"]
  else [mode].

(** How the library names what it could not identify. *)
Definition shown_name (name : option PurePath) : string :=
  match name with
  | Some p => Fs.quoted p
  | None => "<_io.BytesIO object>"
  end.

(** A file is an image when it starts with one of the letters R (RGB),
    A (RGBA), L (grey), M (grey with alpha), P (palette) or B (LAB); the
    pixels follow.  A pixel [xfe] cannot be decoded, a pixel [xff] cannot
    be encoded. *)
Definition sample_open (name : option PurePath) (data : list byte)
  : PyExn + image :=
  match data with
  | "R"%byte :: px => inr (MkImage "RGB" (bands_of "RGB") px)
  | "A"%byte :: px => inr (MkImage "RGBA" (bands_of "RGBA") px)
  | "L"%byte :: px => inr (MkImage "L" (bands_of "L") px)
  | "M"%byte :: px => inr (MkImage "LA" (bands_of "LA") px)
  | "P"%byte :: px => inr (MkImage "P" (bands_of "P") px)
  | "B"%byte :: px => inr (MkImage "LAB" (bands_of "LAB") px)
  | _ => inl (MkExn "UnidentifiedImageError"
                ("cannot identify image file " +:+ shown_name name))
  end.

Definition sample_load (img : image) : PyExn + image :=
  if bool_decide (xfe ∈ sample_pixels img)
  then inl (MkExn "OSError" "image file is truncated")
  else inr img.

Definition sample_encode (img : image) (q : Z) : PyExn + list byte :=
  if bool_decide (xff ∈ sample_pixels img)
  then inl (MkExn "OSError" "cannot write mode data as WEBP")
  else inr ("W"%byte :: sample_pixels img).

Global Instance codec : Codec := {|
  Image := image;
  img_mode := sample_mode;
  img_getbands := sample_bands;
  img_convert := λ img mode,
    match sample_load img with
    | inl e => inl e
    | inr img => inr (MkImage mode (bands_of mode) (sample_pixels img))
    end;
  image_open := sample_open;
  img_load := sample_load;
  webp_encode := sample_encode
|}.

(** [Path.resolve()] where no symbolic link exists: a relative path is
    read from the working directory [cwd], and each [".."] drops the
    segment before it. *)
Fixpoint collapse (done_rev todo : list string) : list string :=
  match todo with
  | [] => rev done_rev
  | x :: rest =>
      if bool_decide (x = "..") then collapse (tail done_rev) rest
      else collapse (x :: done_rev) rest
  end.

Definition resolve_lexical (cwd p : PurePath) : PurePath :=
  let q := PathLib.joinpath cwd p in
  MkPath (root q) (collapse [] (segs q)).

(** A NUL in a name is refused before the path is looked at. *)
Definition has_nul (x : string) : bool :=
  bool_decide ("000"%char ∈ list_ascii_of_string x).

Definition realpath_lexical (cwd p : PurePath) : PyExn + PurePath :=
  if existsb has_nul (segs p)
  then inl (MkExn "ValueError" "embedded null byte")
  else inr (resolve_lexical cwd p).

Definition lexical_env (cwd : PurePath) : PathEnv :=
  {| realpath := realpath_lexical cwd |}.

Definition cwd : PurePath := MkPath "/" ["home"; "user"].

Global Instance path_env : PathEnv := lexical_env cwd.

Global Instance plain_names : Werkzeug := {| secure_filename := λ s, s |}.

Definition world_of (l : list (PurePath * node)) (ro : list PurePath) : World :=
  MkWorld (list_to_map l) (list_to_set ro) ∅ [] [].

(** The same world with some directories closed to search. *)
Definition seal (ds : list PurePath) (w : World) : World :=
  MkWorld (nodes w) (readonly w) (list_to_set ds) (stderr w) (trace w).

(** The files and directories of a world, and what is at a path. *)
Definition listing (w : World) : list (PurePath * node) :=
  map_to_list (nodes w).
Definition at_path (w : World) (p : PurePath) : option node :=
  nodes w !! p.

End Sample.

(** * Properties *)

(** ** Paths *)

Module PathFacts.
Import PathLib.

(** The model against CPython 3.11 on sample inputs. *)
Example parse_samples :
  Path "../../etc" = MkPath "" [".."; ".."; "etc"] ∧
  Path "a//b/./c/" = MkPath "" ["a"; "b"; "c"] ∧
  Path "/x" = MkPath "/" ["x"] ∧
  Path "//x" = MkPath "//" ["x"] ∧
  Path "///x" = MkPath "/" ["x"] ∧
  Path "" = Path "." ∧
  Path_of ["a"; "/b"; "c"] = MkPath "/" ["b"; "c"] ∧
  as_posix <$> parents (Path "/a/b/c") = ["/a/b"; "/a"; "/"] ∧
  as_posix <$> parents (Path "a/b") = ["a"; "."].
Proof. by vm_compute. Qed.

Example suffix_samples :
  suffix <$> [Path "a.tar.gz"; Path "a."; Path "a.JPG"; Path ".hidden";
              Path "x/.jpg"; Path "..jpg"]
    = [".gz"; ""; ".JPG"; ""; ""; ".jpg"] ∧
  (λ p, with_suffix p ".webp") <$> [Path "d/a.jpg"; Path "a"; Path "a.b.c";
                                    Path "."]
    = [Some (Path "d/a.webp"); Some (Path "a.webp"); Some (Path "a.b.webp");
       None].
Proof. by vm_compute. Qed.

Example int_samples :
  PyInt.int <$> ["150"; "-5"; " 12 "; "+7"; "1_0"; "00012"]
    = [Some 150; Some (-5); Some 12; Some 7; Some 10; Some 12] ∧
  PyInt.int <$> ["abc"; ""; "_1"; "1__0"; "1_"; "-"; "+-1"; "0x10"; "12.0";
                 "- 5"]
    = [None; None; None; None; None; None; None; None; None; None].
Proof. by vm_compute. Qed.

(** A segment as parsing leaves it: not empty, not ["."], no separator
    inside. *)
Definition clean (x : string) : Prop :=
  keep_seg x = true ∧ PyStr.has_char sep x = false.

Lemma split_has_char c s x :
  x ∈ PyStr.split c s → PyStr.has_char c x = false.
Proof.
  revert x. induction s as [|a s IH]; intros x; simpl.
  - intros ->%list_elem_of_singleton. reflexivity.
  - destruct (Ascii.eqb a c) eqn:Hac.
    + intros [-> | Hx]%elem_of_cons; [reflexivity | auto].
    + destruct (PyStr.split c s) as [|w ws] eqn:Hsp.
      * intros ->%list_elem_of_singleton. simpl. by rewrite Hac.
      * intros [-> | Hx]%elem_of_cons.
        -- simpl. rewrite Hac. simpl. apply IH. left.
        -- apply IH. by right.
Qed.

Lemma split_without_sep c s :
  PyStr.has_char c s = false → PyStr.split c s = [s].
Proof.
  induction s as [|a s IH]; simpl; [done|].
  intros [Hac Hs]%orb_false_iff. rewrite Hac, (IH Hs). reflexivity.
Qed.

Lemma rel_segs_clean rel x : x ∈ rel_segs rel → clean x.
Proof.
  unfold rel_segs. intros [Hk Hx]%list_elem_of_filter.
  split; [done | by eapply split_has_char].
Qed.

Lemma rel_segs_of_clean x : clean x → rel_segs x = [x].
Proof.
  intros [Hk Hs]. unfold rel_segs. rewrite (split_without_sep _ _ Hs).
  by rewrite filter_cons_True.
Qed.

Lemma splitroot_of_clean x : clean x → splitroot x = ("", x).
Proof.
  intros [Hk Hs]. destruct x as [|a x]; [done|].
  simpl in *. apply orb_false_iff in Hs as [-> _]. reflexivity.
Qed.

(** Every segment of a parsed string is clean. *)
Lemma Path_segs_clean s x : x ∈ segs (Path s) → clean x.
Proof.
  unfold Path. simpl. destruct (PyStr.nonempty s); simpl.
  - destruct (splitroot s) as [r rel]. simpl.
    rewrite app_nil_r. apply rel_segs_clean.
  - by intros ?%elem_of_nil.
Qed.

(** Clean segments pass through [Path] unchanged. *)
Lemma parse_parts_of_clean l :
  Forall clean l → parse_parts l = MkPath "" l.
Proof.
  induction 1 as [|a l Ha Hl IH]; [done|].
  simpl. rewrite IH. simpl.
  assert (PyStr.nonempty a = true) as ->.
  { destruct Ha as [Hk _]. unfold keep_seg in Hk.
    by apply andb_true_iff in Hk as [? _]. }
  simpl. rewrite (splitroot_of_clean _ Ha), (rel_segs_of_clean _ Ha).
  reflexivity.
Qed.

(** [q in p.parents] says that [q] is a proper ancestor of [p]. *)
Lemma elem_of_ancestors r rl q :
  q ∈ ancestors r rl ↔
  root q = r ∧ ∃ rest, rest ≠ [] ∧ rev rl = segs q ++ rest.
Proof.
  revert q. induction rl as [|x up IH]; intros q; simpl.
  - rewrite elem_of_nil. split; [done|].
    intros [_ (rest & Hne & Heq)]. symmetry in Heq.
    apply app_eq_nil in Heq as [_ ?]. done.
  - rewrite elem_of_cons, IH. split.
    + intros [-> | [Hr (rest & Hne & Heq)]]; simpl.
      * split; [done|]. exists [x]. done.
      * split; [done|]. exists (rest ++ [x]). split.
        -- by destruct rest.
        -- rewrite Heq. by rewrite app_assoc.
    + intros [Hr (rest & Hne & Heq)].
      destruct (decide (rest = [x])) as [-> | Hne'].
      * left. apply app_inj_tail in Heq as [Heq _].
        destruct q as [qr qs]. simpl in *. by subst.
      * right. split; [done|].
        destruct rest as [|y rest' _] using rev_ind; [done|].
        rewrite app_assoc in Heq. apply app_inj_tail in Heq as [Heq ->].
        exists rest'. split; [|done]. by intros ->.
Qed.

Lemma elem_of_parents q p :
  q ∈ parents p ↔
  root q = root p ∧ ∃ rest, rest ≠ [] ∧ segs p = segs q ++ rest.
Proof.
  unfold parents. rewrite elem_of_ancestors, rev_involutive. done.
Qed.

(** [t] is the directory [base] or lies below it. *)
Definition within (base t : PurePath) : Prop :=
  root t = root base ∧ ∃ rest, segs t = segs base ++ rest.

Lemma within_refl p : within p p.
Proof. split; [done|]. exists []. by rewrite app_nil_r. Qed.

Lemma within_parents base t : base ∈ parents t → within base t.
Proof.
  intros [Hr (rest & _ & Heq)]%elem_of_parents. split; [done | eauto].
Qed.

End PathFacts.

(** ** Subdirectory sanitation *)

Module SubdirFacts.
Import PathLib PathFacts.

(** The two upload handlers sanitise alike. *)
Lemma safe_subdir_legacy s : LegacyWeb.safe_subdir s = Web.safe_subdir s.
Proof. reflexivity. Qed.

Definition dotless (x : string) : Prop := x ∉ [""; "."; ".."].

(** What [safe_subdir] computes, in one line: nothing for an absolute
    request, the segments other than [".."] for a relative one. *)
Lemma safe_subdir_closed_form s :
  Web.safe_subdir s =
    let candidate := Path (PyStr.strip s) in
    if is_absolute candidate then MkPath "" []
    else MkPath "" (filter dotless (segs candidate)).
Proof.
  unfold Web.safe_subdir.
  destruct (PyStr.nonempty (PyStr.strip s)) eqn:Hne; simpl.
  - destruct (is_absolute (Path (PyStr.strip s))) eqn:Habs; [done|].
    unfold parts. unfold is_absolute in Habs. rewrite Habs.
    fold dotless.
    assert (Forall clean (filter dotless (segs (Path (PyStr.strip s)))))
      as Hclean.
    { apply Forall_forall. intros x [_ Hx]%list_elem_of_filter.
      by eapply Path_segs_clean. }
    destruct (filter dotless (segs (Path (PyStr.strip s)))) as [|a l] eqn:Hf;
      [done|].
    unfold Path_of. by apply parse_parts_of_clean.
  - destruct (PyStr.strip s); [done | discriminate].
Qed.

Lemma safe_subdir_relative s : root (Web.safe_subdir s) = "".
Proof. rewrite safe_subdir_closed_form. simpl. by case_match. Qed.

Lemma safe_subdir_segs s x :
  x ∈ segs (Web.safe_subdir s) →
  x ≠ "" ∧ x ≠ "." ∧ x ≠ ".." ∧ PyStr.has_char sep x = false.
Proof.
  rewrite safe_subdir_closed_form. simpl. case_match; simpl.
  - by intros ?%elem_of_nil.
  - intros [Hd Hx]%list_elem_of_filter.
    apply Path_segs_clean in Hx as [_ Hs]. unfold dotless in Hd.
    repeat split; try done; intros ->; apply Hd; set_solver.
Qed.

End SubdirFacts.

Module SubdirClaims.
Import PathLib PathFacts SubdirFacts.

(** C10.  For every input string, [safe_subdir] (in both upload
    handlers) returns a relative path none of whose parts is ["."] or
    [".."]; when the request is absolute, or no part is left after the
    cleaning, the path returned is the current directory ["."].  So it is
    for an absolute path, for the empty string and for a string of
    separators and dots. *)
Theorem C10_safe_subdir_is_clean_relative (s : string) :
  let p := Web.safe_subdir s in
  let candidate := Path (PyStr.strip s) in
  LegacyWeb.safe_subdir s = p ∧
  is_absolute p = false ∧
  ("." ∉ parts p) ∧ (".." ∉ parts p) ∧
  (is_absolute candidate = true ∨ filter dotless (parts candidate) = [] →
   p = Path "." ∧ as_posix p = ".") ∧
  Web.safe_subdir "/etc/passwd" = Path "." ∧
  Web.safe_subdir "" = Path "." ∧
  Web.safe_subdir " ./..//../. " = Path ".".
Proof.
  simpl. split; [reflexivity|].
  assert (root (Web.safe_subdir s) = "") as Hroot
    by apply safe_subdir_relative.
  split; [by unfold is_absolute; rewrite Hroot|].
  assert (∀ x, x ∈ parts (Web.safe_subdir s) → x ≠ "." ∧ x ≠ "..") as Hparts.
  { unfold parts. rewrite Hroot. simpl. intros x Hx.
    apply safe_subdir_segs in Hx. tauto. }
  split; [intros Hin; by destruct (Hparts _ Hin)|].
  split; [intros Hin; by destruct (Hparts _ Hin)|].
  split; [|by vm_compute].
  rewrite safe_subdir_closed_form. simpl.
  intros [Habs | Hempty].
  - by rewrite Habs.
  - destruct (is_absolute (Path (PyStr.strip s))) eqn:Habs; [done|].
    unfold parts in Hempty. unfold is_absolute in Habs.
    rewrite Habs in Hempty. by rewrite Hempty.
Qed.

(** What a library call that returns or raises leaves as outcome. *)
Definition outcome_of {A} (r : PyExn + A) : outcome A :=
  match r with
  | inl e => Raise (Exc e)
  | inr a => Return a
  end.

(** Two worlds that differ at most in the trace of calls. *)
Definition same_but_trace (w w' : World) : Prop :=
  nodes w' = nodes w ∧ readonly w' = readonly w ∧
  sealed w' = sealed w ∧ stderr w' = stderr w.

(** The guard of [upload] on the two resolved paths. *)
Definition guarded (base target : PurePath) : PurePath :=
  if negb (bool_decide (base ∈ parents target))
     && negb (bool_decide (target = base))
  then base else target.

Lemma guarded_within base target : within base (guarded base target).
Proof.
  unfold guarded.
  destruct (bool_decide (base ∈ parents target)) eqn:Hp; simpl.
  - apply bool_decide_eq_true in Hp. by apply within_parents.
  - destruct (bool_decide (target = base)) eqn:He; simpl.
    + apply bool_decide_eq_true in He. rewrite He. apply within_refl.
    + apply within_refl.
Qed.

Section AnyMachine.
Context `{PathEnv}.

(** The directory [upload] settles on, or the error of the first
    resolution that fails. *)
Definition resolved_target (output_dir subdir : PurePath)
  : PyExn + PurePath :=
  match realpath (joinpath output_dir subdir) with
  | inl e => inl e
  | inr target =>
      match realpath output_dir with
      | inl e => inl e
      | inr base => inr (guarded base target)
      end
  end.

(** [target_dir_of] computes [resolved_target] and only looks. *)
Lemma target_dir_of_run output_dir subdir (s : Run Upload.Locals) :
  ∃ w', same_but_trace (world s) w' ∧
        Web.target_dir_of output_dir subdir s
        = (outcome_of (resolved_target output_dir subdir),
           MkRun w' (locals s)).
Proof.
  unfold Web.target_dir_of, resolved_target, guarded, resolve, bind,
    world_op, ret.
  cbn [world locals].
  destruct (realpath (joinpath output_dir subdir)) as [e|target];
    cbn [outcome_of world locals];
    [eexists; split; [|reflexivity]; by repeat split|].
  destruct (realpath output_dir) as [e|base]; cbn [outcome_of world locals];
    [eexists; split; [|reflexivity]; by repeat split|].
  destruct (bool_decide (base ∈ parents target));
    cbn [negb andb world locals];
    [eexists; split; [|reflexivity]; by repeat split|].
  destruct (bool_decide (target = base)); cbn [negb world locals];
    (eexists; split; [|reflexivity]; by repeat split).
Qed.

Lemma target_dir_legacy output_dir subdir :
  LegacyWeb.target_dir_of output_dir subdir
  = Web.target_dir_of output_dir subdir.
Proof. reflexivity. Qed.

Lemma resolved_target_within output_dir subdir t :
  resolved_target output_dir subdir = inr t →
  ∃ base, realpath output_dir = inr base ∧ within base t.
Proof.
  unfold resolved_target.
  destruct (realpath (joinpath output_dir subdir)) as [e|target]; [done|].
  destruct (realpath output_dir) as [e|base]; [done|].
  intros [= <-]. exists base. split; [done | apply guarded_within].
Qed.

Lemma resolved_target_error output_dir subdir e :
  resolved_target output_dir subdir = inl e →
  realpath (joinpath output_dir subdir) = inl e ∨ realpath output_dir = inl e.
Proof.
  unfold resolved_target.
  destruct (realpath (joinpath output_dir subdir)) as [e'|target].
  - intros [= ->]. by left.
  - destruct (realpath output_dir) as [e'|base]; [|done].
    intros [= ->]. by right.
Qed.

(** The directory a run of [target_dir_of] returns is the resolved
    output root or lies below it; a run that raises has failed to resolve
    one of the two paths. *)
Lemma target_dir_within output_dir subdir (s : Run Upload.Locals) :
  match (Web.target_dir_of output_dir subdir s).1 with
  | Return t => ∃ base, realpath output_dir = inr base ∧ within base t
  | Raise e =>
      ∃ x, e = Exc x ∧
           (realpath (joinpath output_dir subdir) = inl x ∨
            realpath output_dir = inl x)
  end.
Proof.
  destruct (target_dir_of_run output_dir subdir s) as (w' & _ & ->).
  cbn [fst].
  destruct (resolved_target output_dir subdir) as [e|t] eqn:Ht;
    cbn [outcome_of].
  - exists e. split; [done|]. by apply resolved_target_error.
  - by eapply resolved_target_within.
Qed.
End AnyMachine.

Lemma collapse_snoc acc l x :
  x ≠ ".." →
  ∃ acc', Sample.collapse acc l = rev acc' ∧
          Sample.collapse acc (l ++ [x]) = rev acc' ++ [x].
Proof.
  intros Hx. revert acc. induction l as [|y l IH]; intros acc; simpl.
  - exists acc. by rewrite bool_decide_eq_false_2.
  - case_bool_decide; apply IH.
Qed.

(** Without symbolic links, the request ["../../etc"] ends in the
    directory [etc] directly below the resolved output root. *)
Lemma traversal_request_lexical cwd output_dir :
  existsb Sample.has_nul (segs output_dir) = false →
  let r := Sample.resolve_lexical cwd output_dir in
  @resolved_target (Sample.lexical_env cwd) output_dir
     (Web.safe_subdir "../../etc")
  = inr (MkPath (root r) (segs r ++ ["etc"])).
Proof.
  intros Hnul r.
  assert (Web.safe_subdir "../../etc" = MkPath "" ["etc"]) as ->
    by (by vm_compute).
  unfold resolved_target. cbn [realpath Sample.lexical_env].
  unfold Sample.realpath_lexical. rewrite Hnul.
  assert (existsb Sample.has_nul
            (segs (joinpath output_dir (MkPath "" ["etc"]))) = false) as ->.
  { unfold joinpath. cbn [is_absolute root PyStr.nonempty segs].
    rewrite existsb_app, Hnul. by vm_compute. }
  fold r.
  assert (Sample.resolve_lexical cwd (joinpath output_dir (MkPath "" ["etc"]))
          = MkPath (root r) (segs r ++ ["etc"])) as ->.
  { unfold r, Sample.resolve_lexical, joinpath. simpl.
    destruct (is_absolute output_dir) eqn:Habs; unfold is_absolute in *;
      simpl; rewrite Habs; simpl.
    - destruct (collapse_snoc [] (segs output_dir) "etc") as (a & -> & ->);
        done.
    - rewrite app_assoc.
      destruct (collapse_snoc [] (segs cwd ++ segs output_dir) "etc")
        as (a & -> & ->); done. }
  unfold guarded. rewrite bool_decide_eq_true_2; [done|].
  apply elem_of_parents. simpl. split; [done|]. by exists ["etc"].
Qed.

(** C2, as the code has it.  The request ["../../etc"] is sanitised to
    the relative path [etc] and, on a machine without symbolic links (and
    with an output directory whose names hold no NUL), the handler settles
    on the directory [etc] directly below the resolved output root, not on
    the root itself; and whatever the machine and the request, the
    directory a run of the handler's guard returns is the resolved output
    root or lies below it, and a run that raises has failed to resolve the
    requested path or the output directory. *)
Theorem C2_target_dir_stays_below_root :
  Web.safe_subdir "../../etc" = MkPath "" ["etc"] ∧
  (∀ cwd output_dir (s : Run Upload.Locals),
     existsb Sample.has_nul (segs output_dir) = false →
     let r := Sample.resolve_lexical cwd output_dir in
     (@Web.target_dir_of (Sample.lexical_env cwd) output_dir
        (Web.safe_subdir "../../etc") s).1
     = Return (MkPath (root r) (segs r ++ ["etc"]))) ∧
  (∀ (E : PathEnv) (output_dir : PurePath) (requested : string)
     (s : Run Upload.Locals),
     let subdir := Web.safe_subdir requested in
     match (Web.target_dir_of output_dir subdir s).1 with
     | Return t => ∃ base, realpath output_dir = inr base ∧ within base t
     | Raise e =>
         ∃ x, e = Exc x ∧
              (realpath (joinpath output_dir subdir) = inl x ∨
               realpath output_dir = inl x)
     end ∧
     (LegacyWeb.target_dir_of output_dir (LegacyWeb.safe_subdir requested) s).1
     = (Web.target_dir_of output_dir subdir s).1).
Proof.
  split; [by vm_compute|]. split.
  - intros cwd output_dir s Hnul r.
    destruct (@target_dir_of_run (Sample.lexical_env cwd) output_dir
                (Web.safe_subdir "../../etc") s) as (w' & _ & ->).
    cbn [fst]. by rewrite (traversal_request_lexical cwd output_dir Hnul).
  - intros E output_dir requested s subdir. split; [|reflexivity].
    apply target_dir_within.
Qed.

(** C2 as stated fails: with the output root [/srv/webp_output] the
    request ["../../etc"] resolves to [/srv/webp_output/etc], which is
    not the output root. *)
Lemma C2_traversal_request_is_not_the_root :
  let output_dir := Path "/srv/webp_output" in
  let s := MkRun (Sample.world_of [(MkPath "/" [], Dir)] []) Upload.fresh in
  let target := Path "/srv/webp_output/etc" in
  (Web.target_dir_of output_dir (Web.safe_subdir "../../etc") s).1
    = Return target ∧
  (LegacyWeb.target_dir_of output_dir (LegacyWeb.safe_subdir "../../etc") s).1
    = Return target ∧
  realpath output_dir = inr output_dir ∧
  target ≠ output_dir.
Proof. vm_compute. repeat split; congruence. Qed.

End SubdirClaims.

(** ** Quality of an upload *)

Module QualityClaims.

Lemma clamp_legacy q :
  (let quality := if q <? 0 then 0 else q in
   if 100 <? quality then 100 else quality) = Z.max 0 (Z.min 100 q).
Proof. simpl. repeat case_match; lia. Qed.

(** The two upload handlers clamp alike. *)
Lemma effective_quality_legacy raw :
  LegacyWeb.effective_quality raw = Web.effective_quality raw.
Proof.
  unfold LegacyWeb.effective_quality, Web.effective_quality.
  apply clamp_legacy.
Qed.

Lemma effective_quality_range raw : 0 ≤ Web.effective_quality raw ≤ 100.
Proof. unfold Web.effective_quality. lia. Qed.

(** The quality field as [upload] reads it from the form. *)
Definition quality_field (form : gmap string string) : string :=
  default (Upload.str_of_int Core.DEFAULT_QUALITY) (form !! "quality").

Section Handlers.
Context `{Codec} `{PathEnv} `{Werkzeug}.

Lemma web_upload_quality output_dir req s r :
  (Web.upload output_dir req s).1 = Return r →
  Upload.sum_quality (Upload.resp_summary r)
  = Web.effective_quality (quality_field (Upload.form req)).
Proof.
  unfold Web.upload, bind, modify, get_locals, ret, quality_field.
  repeat (case_match; simpl in *; try congruence).
  by intros [= <-].
Qed.

Lemma legacy_upload_quality output_dir req s r :
  (LegacyWeb.upload output_dir req s).1 = Return r →
  Upload.sum_quality (Upload.resp_summary r)
  = Web.effective_quality (quality_field (Upload.form req)).
Proof.
  unfold LegacyWeb.upload, bind, modify, get_locals, ret, quality_field.
  rewrite effective_quality_legacy.
  repeat (case_match; simpl in *; try congruence).
  by intros [= <-].
Qed.
End Handlers.

(** C5.  In both upload handlers the quality ["150"] becomes 100 and
    ["-5"] becomes 0; a field that [int] rejects, such as ["abc"], gives
    the default 80, and so does a missing field; for every text of the
    field the quality lies between 0 and 100, in the summary of a
    response too. *)
Theorem C5_upload_quality_is_clamped :
  Web.effective_quality "150" = 100 ∧
  Web.effective_quality "-5" = 0 ∧
  Web.effective_quality "abc" = 80 ∧
  Web.effective_quality (quality_field ∅) = 80 ∧
  (∀ raw, PyInt.int raw = None → Web.effective_quality raw = 80) ∧
  (∀ raw, 0 ≤ Web.effective_quality raw ≤ 100) ∧
  (∀ raw, LegacyWeb.effective_quality raw = Web.effective_quality raw) ∧
  (∀ (C : Codec) (E : PathEnv) (W : Werkzeug) output_dir req s,
     match (Web.upload output_dir req s).1,
           (LegacyWeb.upload output_dir req s).1 with
     | Return r, Return r' =>
         Upload.sum_quality (Upload.resp_summary r)
           = Web.effective_quality (quality_field (Upload.form req)) ∧
         Upload.sum_quality (Upload.resp_summary r')
           = Web.effective_quality (quality_field (Upload.form req))
     | _, _ => True
     end).
Proof.
  split; [by vm_compute|]. split; [by vm_compute|].
  split; [by vm_compute|]. split; [by vm_compute|].
  split. { intros raw Hraw. unfold Web.effective_quality. by rewrite Hraw. }
  split; [apply effective_quality_range|].
  split; [apply effective_quality_legacy|].
  intros C E W output_dir req s.
  destruct (Web.upload output_dir req s).1 as [r|] eqn:Hweb; [|done].
  destruct (LegacyWeb.upload output_dir req s).1 as [r'|] eqn:Hleg; [|done].
  split; [by eapply web_upload_quality | by eapply legacy_upload_quality].
Qed.

End QualityClaims.

(** ** Colour modes *)

Module ModeClaims.
Section WithCodec.
Context `{Codec}.

(** The three sources normalise alike. *)
Lemma ensure_legacy img :
  LegacyCli.ensure_webp_compatible_mode img
    = Core.ensure_webp_compatible_mode img ∧
  LegacyWeb.ensure_webp_compatible_mode img
    = Core.ensure_webp_compatible_mode img.
Proof. split; reflexivity. Qed.

(** The modes of the imaging library that carry an alpha band. *)
Definition alpha_modes : list string := ["LA"; "La"; "PA"; "RGBA"; "RGBa"].

(** The normalisation as the specification words it: an image that is
    neither RGB nor RGBA becomes RGBA when it has an alpha band and RGB
    when it has none. *)
Definition normalise_by_alpha (img : Image) : PyExn + Image :=
  if bool_decide (img_mode img ∈ ["RGB"; "RGBA"]) then inr img
  else if bool_decide (img_mode img ∈ alpha_modes)
       then img_convert img "RGBA"
  else img_convert img "RGB".

(** C3, as the code has it.  An image whose mode is RGB or RGBA is
    returned as it is; any other image is converted to RGBA when a band
    named ["A"] is among its bands and to RGB when none is.  That is the
    normalisation by alpha band for the images whose bands hold an ["A"]
    exactly when their mode carries alpha. *)
Theorem C3_mode_normalisation (img : Image) :
  (img_mode img = "RGB" ∨ img_mode img = "RGBA" →
   Core.ensure_webp_compatible_mode img = inr img) ∧
  (img_mode img ≠ "RGB" ∧ img_mode img ≠ "RGBA" →
   ("A" ∈ img_getbands img →
    Core.ensure_webp_compatible_mode img = img_convert img "RGBA") ∧
   ("A" ∉ img_getbands img →
    Core.ensure_webp_compatible_mode img = img_convert img "RGB")) ∧
  (("A" ∈ img_getbands img ↔ img_mode img ∈ alpha_modes) →
   Core.ensure_webp_compatible_mode img = normalise_by_alpha img).
Proof.
  unfold Core.ensure_webp_compatible_mode, normalise_by_alpha.
  split; [|split].
  - intros Hmode. rewrite bool_decide_eq_true_2; [done|].
    rewrite !elem_of_cons. tauto.
  - intros [Hrgb Hrgba].
    assert (img_mode img ∉ ["RGB"; "RGBA"]) as Hnot.
    { rewrite !elem_of_cons, elem_of_nil. tauto. }
    rewrite (bool_decide_eq_false_2 _ Hnot).
    split; intros Hband.
    + by rewrite bool_decide_eq_true_2.
    + by rewrite bool_decide_eq_false_2.
  - intros Hiff. destruct (bool_decide (img_mode img ∈ ["RGB"; "RGBA"]));
      [done|].
    by rewrite (bool_decide_ext _ _ Hiff).
Qed.
End WithCodec.

(** The mode after normalisation, on the sample library. *)
Definition normalised_mode (data : list byte) : option string :=
  match Sample.sample_open None data with
  | inr img =>
      match Core.ensure_webp_compatible_mode img with
      | inr img' => Some (Sample.sample_mode img')
      | inl _ => None
      end
  | inl _ => None
  end.

(** A palette image becomes RGB, a grey image with alpha becomes RGBA,
    an RGBA image stays RGBA. *)
Example normalise_samples :
  normalised_mode ["P"%byte; x01] = Some "RGB" ∧
  normalised_mode ["M"%byte; x01] = Some "RGBA" ∧
  normalised_mode ["A"%byte; x01] = Some "RGBA".
Proof. by vm_compute. Qed.

Definition lab_image : Sample.image :=
  Sample.MkImage "LAB" (Sample.bands_of "LAB") [x01].
Definition premultiplied_image : Sample.image :=
  Sample.MkImage "La" (Sample.bands_of "La") [x01].

(** C3 as stated fails.  A LAB image, as the library opens it, has the
    bands L, A and B and no alpha band: the code finds the band named
    ["A"] and converts it to RGBA, not to RGB.  And an image in the
    premultiplied mode La has an alpha band, named ["a"]: the code
    converts it to RGB, not to RGBA. *)
Lemma C3_band_named_A_is_not_alpha :
  Sample.sample_open None ["B"%byte; x01] = inr lab_image ∧
  img_getbands lab_image = ["L"; "A"; "B"] ∧
  (img_mode lab_image ∉ alpha_modes) ∧
  Core.ensure_webp_compatible_mode lab_image = img_convert lab_image "RGBA" ∧
  normalise_by_alpha lab_image = img_convert lab_image "RGB" ∧
  Core.ensure_webp_compatible_mode lab_image ≠ normalise_by_alpha lab_image ∧
  img_mode premultiplied_image ∈ alpha_modes ∧
  Core.ensure_webp_compatible_mode premultiplied_image
    = img_convert premultiplied_image "RGB" ∧
  Core.ensure_webp_compatible_mode premultiplied_image
    ≠ normalise_by_alpha premultiplied_image.
Proof.
  split; [reflexivity|]. split; [reflexivity|].
  split; [by apply (bool_decide_unpack _)|].
  split; [reflexivity|]. split; [reflexivity|].
  split; [by vm_compute|].
  split; [by apply (bool_decide_unpack _)|].
  split; [reflexivity|]. by vm_compute.
Qed.

End ModeClaims.

(** ** Reasoning about runs *)

(** [post m s Q]: running [m] from [s] ends in an outcome and a state that
    [Q] accepts. *)
Definition post {L A} (m : M L A) (s : Run L)
    (Q : outcome A → Run L → Prop) : Prop :=
  Q (m s).1 (m s).2.

(** What a step that only works on the world, and only raises exceptions
    below [Exception], can end in. *)
Inductive tame_result {L A} (s : Run L) : outcome A * Run L → Prop :=
| tame_return a w : tame_result s (Return a, MkRun w (locals s))
| tame_raise x w : tame_result s (Raise (Exc x), MkRun w (locals s)).

Class Tame {L A} (m : M L A) : Prop :=
  tame : ∀ s, tame_result s (m s).

Global Hint Mode Tame + + ! : typeclass_instances.

(** A step that always returns, and only works on the world. *)
Class Returns {L A} (m : M L A) : Prop :=
  returns : ∀ s, ∃ a w, m s = (Return a, MkRun w (locals s)).

Global Hint Mode Returns + + ! : typeclass_instances.

Section Rules.
Context {L : Type}.
Implicit Types s : Run L.

Lemma post_ret {A} (a : A) s Q : Q (Return a) s → post (ret a) s Q.
Proof. done. Qed.

Lemma post_raise {A} e s (Q : outcome A → Run L → Prop) :
  Q (Raise e) s → post (raise e) s Q.
Proof. done. Qed.

Lemma post_modify (f : L → L) s Q :
  Q (Return tt) (MkRun (world s) (f (locals s))) → post (modify f) s Q.
Proof. done. Qed.

Lemma post_get_locals s Q :
  Q (Return (locals s)) s → post get_locals s Q.
Proof. done. Qed.

Lemma post_bind {A B} (m : M L A) (f : A → M L B) s Q :
  post m s (λ r s', match r with
                    | Return a => post (f a) s' Q
                    | Raise e => Q (Raise e) s'
                    end) →
  post (bind m f) s Q.
Proof. unfold post, bind. by destruct (m s) as [[a|e] s']. Qed.

Lemma post_try_except {A} (body : M L A) handler s Q :
  post body s (λ r s', match r with
                       | Raise (Exc e) => post (handler e) s' Q
                       | _ => Q r s'
                       end) →
  post (try_except body handler) s Q.
Proof. unfold post, try_except. by destruct (body s) as [[a|[a|e]] s']. Qed.

Lemma bind_returns {A B} (m : M L A) (f : A → M L B) s b s' :
  bind m f s = (Return b, s') →
  ∃ a s1, m s = (Return a, s1) ∧ f a s1 = (Return b, s').
Proof.
  unfold bind. destruct (m s) as [[a|e] s1]; [eauto | discriminate].
Qed.

Lemma bind_raises {A B} (m : M L A) (f : A → M L B) s e s' :
  bind m f s = (Raise e, s') →
  m s = (Raise e, s') ∨
  ∃ a s1, m s = (Return a, s1) ∧ f a s1 = (Raise e, s').
Proof.
  unfold bind. destruct (m s) as [[a|e1] s1]; [eauto|].
  intros [= -> ->]. by left.
Qed.

Lemma lift_exn_returns {A} (r : PyExn + A) s s' a :
  lift_exn r s = (Return a, s') → r = inr a ∧ s' = s.
Proof. destruct r; simpl; [discriminate|]. by intros [= -> ->]. Qed.

Lemma post_tame {A} (m : M L A) `{!Tame m} s (Q : outcome A → Run L → Prop) :
  (∀ a w, Q (Return a) (MkRun w (locals s))) →
  (∀ x w, Q (Raise (Exc x)) (MkRun w (locals s))) →
  post m s Q.
Proof.
  intros Hr He. unfold post.
  destruct (tame (m:=m) s) as [a w | x w]; simpl; auto.
Qed.

Lemma post_returns {A} (m : M L A) `{!Returns m} s
    (Q : outcome A → Run L → Prop) :
  (∀ a w, Q (Return a) (MkRun w (locals s))) → post m s Q.
Proof.
  intros Hr. unfold post.
  destruct (returns (m:=m) s) as (a & w & ->). apply Hr.
Qed.

Lemma post_mono {A} (m : M L A) s (Q Q' : outcome A → Run L → Prop) :
  post m s Q → (∀ r s', Q r s' → Q' r s') → post m s Q'.
Proof. unfold post. auto. Qed.

(** A loop keeps what its body keeps, however the body ends: [I] holds
    between the passes and when the loop returns, [E] where a pass
    raised. *)
Lemma post_for_each_exit {A} (I E : Run L → Prop) (l : list A)
    (body : A → M L unit) s :
  (∀ x s', I s' →
     post (body x) s' (λ r s'', match r with
                                | Return _ => I s''
                                | Raise _ => E s''
                                end)) →
  I s →
  post (for_each l body) s (λ r s', match r with
                                    | Return _ => I s'
                                    | Raise _ => E s'
                                    end).
Proof.
  intros Hbody. revert s. induction l as [|x l IH]; intros s HI; simpl.
  - by apply post_ret.
  - apply post_bind. eapply post_mono; [by apply Hbody|].
    intros [[]|e] s' HI'; [by apply IH | done].
Qed.

Lemma post_for_each_any {A} (I : Run L → Prop) (l : list A)
    (body : A → M L unit) s :
  (∀ x s', I s' → post (body x) s' (λ _ s'', I s'')) →
  I s →
  post (for_each l body) s (λ _ s', I s').
Proof.
  intros Hbody HI.
  eapply post_mono; [apply (post_for_each_exit I I); [|done]|].
  - intros x s' Hs'. eapply post_mono; [by apply Hbody|]. by intros [].
  - by intros [].
Qed.

(** *** Tame steps *)

Global Instance tame_ret {A} (a : A) : Tame (L:=L) (ret a).
Proof. intros [w l]. apply tame_return. Qed.

Global Instance tame_raise_exn {A} e : Tame (L:=L) (A:=A) (raise_exn e).
Proof. intros [w l]. apply tame_raise. Qed.

Global Instance tame_lift_exn {A} (r : PyExn + A) : Tame (L:=L) (lift_exn r).
Proof. destruct r; apply _. Qed.

Global Instance tame_or_value_error {A} (o : option A) text :
  Tame (L:=L) (or_value_error o text).
Proof. destruct o; apply _. Qed.

Global Instance tame_bind {A B} (m : M L A) (f : A → M L B) :
  Tame m → (∀ a, Tame (f a)) → Tame (bind m f).
Proof.
  intros Hm Hf s. unfold bind. destruct (Hm s) as [a w | x w].
  - destruct (Hf a (MkRun w (locals s))) as [b w' | x w'].
    + apply (tame_return s).
    + apply (tame_raise s).
  - apply (tame_raise s).
Qed.

Global Instance tame_try_except {A} (body : M L A) handler :
  Tame body → (∀ e, Tame (handler e)) → Tame (try_except body handler).
Proof.
  intros Hb Hh s. unfold try_except. destruct (Hb s) as [a w | x w].
  - apply (tame_return s).
  - destruct (Hh x (MkRun w (locals s))) as [b w' | y w'].
    + apply (tame_return s).
    + apply (tame_raise s).
Qed.

Global Instance tame_if {A} (b : bool) (m1 m2 : M L A) :
  Tame m1 → Tame m2 → Tame (if b then m1 else m2).
Proof. by destruct b. Qed.

Global Instance tame_match_sum {A B C} (r : A + B) (f : A → M L C)
    (g : B → M L C) :
  (∀ a, Tame (f a)) → (∀ b, Tame (g b)) →
  Tame (match r with inl a => f a | inr b => g b end).
Proof. by destruct r. Qed.

(** A world step is tame when what it raises is below [Exception]. *)
Lemma tame_world_op {A} (f : World → outcome A * World) :
  (∀ w e, (f w).1 = Raise e → ∃ x, e = Exc x) → Tame (L:=L) (world_op f).
Proof.
  intros Hf [w l]. unfold world_op. simpl.
  specialize (Hf w). destruct (f w) as [[a|e] w']; simpl in *.
  - apply (tame_return (MkRun w l)).
  - destruct (Hf e eq_refl) as [x ->]. apply (tame_raise (MkRun w l)).
Qed.

Ltac tame_prim :=
  apply tame_world_op; intros w e; simpl;
  repeat case_match; simpl; intros; simplify_eq; eauto.

Global Instance tame_path_exists p : Tame (L:=L) (Fs.path_exists p).
Proof. tame_prim. Qed.
Global Instance tame_is_file p : Tame (L:=L) (Fs.is_file p).
Proof. tame_prim. Qed.
Global Instance tame_stat_size p : Tame (L:=L) (Fs.stat_size p).
Proof. tame_prim. Qed.
Global Instance tame_unlink p : Tame (L:=L) (Fs.unlink p).
Proof. tame_prim. Qed.
Global Instance tame_read_bytes p : Tame (L:=L) (Fs.read_bytes p).
Proof. tame_prim. Qed.
Global Instance tame_open_write p : Tame (L:=L) (Fs.open_write p).
Proof. tame_prim. Qed.
Global Instance tame_write_bytes p d : Tame (L:=L) (Fs.write_bytes p d).
Proof. tame_prim. Qed.
Global Instance tame_remove_quietly p : Tame (L:=L) (Fs.remove_quietly p).
Proof. unfold Fs.remove_quietly. apply _. Qed.
Global Instance tame_iterdir p : Tame (L:=L) (FsDir.iterdir p).
Proof. tame_prim. Qed.
Global Instance tame_glob_star p : Tame (L:=L) (FsDir.glob_star p).
Proof. tame_prim. Qed.
Global Instance tame_rglob_star p : Tame (L:=L) (FsDir.rglob_star p).
Proof. tame_prim. Qed.
Global Instance tame_os_mkdir p : Tame (L:=L) (FsDir.os_mkdir p).
Proof. tame_prim. Qed.
Global Instance tame_is_dir p : Tame (L:=L) (FsDir.is_dir p).
Proof. tame_prim. Qed.
Global Instance tame_upload_read f : Tame (L:=L) (Upload.read f).
Proof. tame_prim. Qed.
Global Instance tame_print_stderr line : Tame (L:=L) (Cli.print_stderr line).
Proof. tame_prim. Qed.
Global Instance tame_resolve `{PathEnv} p : Tame (L:=L) (resolve p).
Proof. tame_prim. Qed.

(** *** Steps that always return *)

Global Instance returns_ret {A} (a : A) : Returns (L:=L) (ret a).
Proof. intros [w l]. by eexists _, _. Qed.

Lemma returns_world_op {A} (f : World → outcome A * World) :
  (∀ w, ∃ a, (f w).1 = Return a) → Returns (L:=L) (world_op f).
Proof.
  intros Hf [w l]. unfold world_op. simpl.
  destruct (Hf w) as [a Ha]. destruct (f w) as [r w']. simpl in *.
  subst. by eexists _, _.
Qed.

Ltac returns_prim :=
  apply returns_world_op; intros w; simpl; repeat case_match; eauto.

Global Instance returns_upload_read f : Returns (L:=L) (Upload.read f).
Proof. returns_prim. Qed.
Global Instance returns_print_stderr line :
  Returns (L:=L) (Cli.print_stderr line).
Proof. returns_prim. Qed.

Global Instance tame_relpath_str p q : Tame (L:=L) (Upload.relpath_str p q).
Proof. unfold Upload.relpath_str. apply _. Qed.

Section WithCodec.
Context `{Codec}.

Global Instance tame_open_path p : Tame (L:=L) (Pil.open_path p).
Proof. unfold Pil.open_path. apply _. Qed.
Global Instance tame_open_bytes d : Tame (L:=L) (Pil.open_bytes d).
Proof. unfold Pil.open_bytes. apply _. Qed.
Global Instance tame_save img p q : Tame (L:=L) (Pil.save img p q).
Proof. unfold Pil.save. apply _. Qed.
End WithCodec.

End Rules.

(** ** Paths the kernel refuses *)

Module FsFacts.

Lemma exists_at_not_refused w p :
  Fs.exists_at w p = true → Fs.refused w p = None.
Proof. unfold Fs.exists_at. by destruct (Fs.refused w p). Qed.

Lemma exists_at_there w p :
  Fs.exists_at w p = true → is_Some (nodes w !! p).
Proof.
  unfold Fs.exists_at. destruct (Fs.refused w p); [done|].
  apply bool_decide_eq_true_1.
Qed.

Lemma not_exists_at_free w p :
  Fs.refused w p = None → Fs.exists_at w p = false → nodes w !! p = None.
Proof.
  unfold Fs.exists_at. intros ->. intros Hex%bool_decide_eq_false_1.
  destruct (nodes w !! p) eqn:Hp; [|done]. destruct Hex. by eexists.
Qed.

(** Whether a path is refused depends on the directories and on what
    is sealed. *)
Lemma refused_from_same_dirs w w' path r done_rev todo :
  (∀ q, nodes w' !! q = Some Dir ↔ nodes w !! q = Some Dir) →
  sealed w' = sealed w →
  Fs.refused_from w' path r done_rev todo
  = Fs.refused_from w path r done_rev todo.
Proof.
  intros Hdirs Hsealed. revert done_rev.
  induction todo as [|x rest IH]; intros done_rev; simpl; [done|].
  rewrite Hsealed, IH.
  destruct (nodes w !! MkPath r (rev done_rev)) as [[d|]|] eqn:Hw.
  - destruct (nodes w' !! MkPath r (rev done_rev)) as [[d'|]|] eqn:Hw';
      try done.
    apply Hdirs in Hw'. congruence.
  - apply Hdirs in Hw. by rewrite Hw.
  - destruct (nodes w' !! MkPath r (rev done_rev)) as [[d'|]|] eqn:Hw';
      try done.
    apply Hdirs in Hw'. congruence.
Qed.

Lemma refused_same_dirs w w' p :
  (∀ q, nodes w' !! q = Some Dir ↔ nodes w !! q = Some Dir) →
  sealed w' = sealed w →
  Fs.refused w' p = Fs.refused w p.
Proof. apply refused_from_same_dirs. Qed.

Lemma refused_log o w p : Fs.refused (Fs.log o w) p = Fs.refused w p.
Proof. by apply refused_same_dirs. Qed.

Section Ops.
Context {L : Type}.

(** What the existence test does. *)
Lemma path_exists_run p (s : Run L) :
  Fs.path_exists p s
  = (match Fs.refused (world s) p with
     | Some e => Raise (Exc e)
     | None => Return (Fs.exists_at (world s) p)
     end, MkRun (Fs.log (OpExists p) (world s)) (locals s)).
Proof. reflexivity. Qed.


Lemma stat_size_run p (s : Run L) :
  Fs.stat_size p s
  = (match Fs.refused (world s) p with
     | Some e => Raise (Exc e)
     | None =>
         match nodes (world s) !! p with
         | Some (File d) => Return (Z.of_nat (length d))
         | Some Dir => Return Fs.dir_size
         | None => Raise (Exc (Fs.ENOENT p))
         end
     end, MkRun (Fs.log (OpStat p) (world s)) (locals s)).
Proof. reflexivity. Qed.

End Ops.
End FsFacts.

(** ** The conversion routine *)

Module CoreClaims.
Import Core FsFacts.

Lemma contains_self x : PyStr.contains x x = true.
Proof.
  assert (PyStr.startswith x x = true) as Hs.
  { induction x as [|a x IH]; simpl; [done|].
    by rewrite Ascii.eqb_refl, IH. }
  destruct x; simpl in *; [done|]. by rewrite Hs.
Qed.

(** A text is found in whatever it is appended to. *)
Lemma contains_append pre x : PyStr.contains x (pre +:+ x) = true.
Proof.
  induction pre as [|a pre IH]; simpl.
  - apply contains_self.
  - change (String.append pre x) with (pre +:+ x).
    rewrite IH. apply orb_true_r.
Qed.

Definition exists_failure : ConversionResult :=
  MkResult false "Output file already exists and overwrite is disabled."
    0 0 0.

Definition caught_failure (e : PyExn) : ConversionResult :=
  MkResult false ("Error during conversion: " +:+ exn_str e) 0 0 0.

Section WithCodec.
Context `{Codec} {L : Type}.

Global Instance tame_convert_attempt input out q :
  Tame (L:=L) (convert_attempt input out q).
Proof.
  unfold convert_attempt. apply tame_bind.
  - destruct input; apply _.
  - intros [sz img]. apply _.
Qed.

Global Instance tame_convert_image input out q ow :
  Tame (L:=L) (convert_image input out q ow).
Proof. unfold convert_image. apply _. Qed.

(** A run of [convert_image], step by step: the existence test, which
    raises where the output path is refused; the early failure; the
    attempt, whose exceptions are caught. *)
Lemma convert_image_run input out q ow (s : Run L) :
  convert_image input out q ow s
  = let s1 := MkRun (Fs.log (OpExists out) (world s)) (locals s) in
    match Fs.refused (world s) out with
    | Some x => (Raise (Exc x), s1)
    | None =>
        if Fs.exists_at (world s) out && negb ow
        then (Return exists_failure, s1)
        else match convert_attempt input out q s1 with
             | (Raise (Exc e), s2) => (Return (caught_failure e), s2)
             | r => r
             end
    end.
Proof.
  unfold convert_image, bind. rewrite path_exists_run. cbv zeta.
  destruct (Fs.refused (world s) out); [done|].
  by destruct (Fs.exists_at (world s) out && negb ow).
Qed.

(** What the attempt returns is a success. *)
Lemma convert_attempt_success input out q (s s' : Run L) res :
  convert_attempt input out q s = (Return res, s') → success res = true.
Proof.
  unfold convert_attempt.
  intros ([sz img] & s1 & _ & Hrest)%bind_returns.
  apply bind_returns in Hrest as (img' & s2 & _ & Hrest).
  apply bind_returns in Hrest as ([] & s3 & _ & Hrest).
  apply bind_returns in Hrest as (n & s4 & _ & Hret).
  by injection Hret as <- _.
Qed.


(** C7, as the code has it.  [convert_image] raises only where the
    existence test on the output path raises, which stands before the
    [try]: then nothing but that test has happened.  Where the test
    returns, [convert_image] returns a result: the failure for an existing
    output, or what the attempt (stat, decode, mode change, encode,
    write) returned, a success, or, for every exception the attempt
    raises, the failure whose message is ["Error during conversion: "]
    followed by the text of that exception. *)
Theorem C7_convert_image_catches_the_attempt
    (input : input_data) (output_path : PurePath) (quality : Z)
    (overwrite : bool) (s : Run L) :
  let s1 := MkRun (Fs.log (OpExists output_path) (world s)) (locals s) in
  match convert_image input output_path quality overwrite s with
  | (Raise e, s') =>
      ∃ x, e = Exc x ∧ Fs.refused (world s) output_path = Some x ∧ s' = s1
  | (Return res, s') =>
      Fs.refused (world s) output_path = None ∧
      if Fs.exists_at (world s) output_path && negb overwrite
      then res = exists_failure ∧ s' = s1
      else
        match convert_attempt input output_path quality s1 with
        | (Return r, s2) => res = r ∧ s' = s2 ∧ success res = true
        | (Raise e, s2) =>
            ∃ x, e = Exc x ∧ res = caught_failure x ∧ s' = s2 ∧
                 success res = false ∧
                 message res = "Error during conversion: " +:+ exn_str x ∧
                 PyStr.contains (exn_str x) (message res) = true
        end
  end.
Proof.
  intros s1. rewrite convert_image_run. cbv zeta. fold s1.
  destruct (Fs.refused (world s) output_path) as [x|]; [by exists x|].
  destruct (Fs.exists_at (world s) output_path && negb overwrite);
    [done|].
  pose proof (tame (m:=convert_attempt input output_path quality) s1) as Ht.
  destruct (convert_attempt input output_path quality s1) as [r s2] eqn:Hatt.
  inversion Ht as [res w Hr | e w Hr]; subst.
  - split; [done|]. repeat split. by eapply convert_attempt_success.
  - split; [done|]. exists e. repeat split. apply contains_append.
Qed.
End WithCodec.

End CoreClaims.

(** The conversion routine on the sample machine: an output that is there
    already, bytes that are no image, and an output name the kernel does
    not take. *)
Module CoreExamples.
Import Core PathLib.

Definition out_dir : PurePath := Path "/out".
Definition taken : PurePath := Path "/out/a.webp".
Definition out_world : World :=
  Sample.world_of
    [(MkPath "/" [], Dir); (out_dir, Dir); (taken, File ["W"%byte; x07])] [].


(** Bytes that are no image give a failure that carries the decoder's
    text, and no file is written. *)
Example corrupt_bytes_fail :
  let '(r, s') := convert_image (InBytes [x00; x01]) (Path "/out/b.webp") 80
                    false (MkRun out_world ()) in
  r = Return (MkResult false
                ("Error during conversion: cannot identify image file "
                 +:+ "<_io.BytesIO object>") 0 0 0)
  ∧ Sample.listing (world s') = Sample.listing out_world.
Proof. by vm_compute. Qed.

(** An image whose pixels cannot be decoded leaves the output that is
    there as it is, also with [overwrite]: the library decodes before it
    opens the file. *)
Example truncated_image_keeps_output :
  let '(r, s') := convert_image (InBytes ["R"%byte; xfe]) taken 80 true
                    (MkRun out_world ()) in
  r = Return (MkResult false
                "Error during conversion: image file is truncated" 0 0 0)
  ∧ Sample.at_path (world s') taken = Some (File ["W"%byte; x07]).
Proof. by vm_compute. Qed.

(** A name of 256 characters. *)
Definition long_webp : PurePath :=
  MkPath "/" ["out";
              string_of_list_ascii (repeat "a"%char 251) +:+ ".webp"].

(** C7 as stated fails: the existence test on an output path whose name
    is longer than the kernel takes raises [OSError], and [convert_image]
    raises it to its caller; no result is made of it.  So it is below a
    directory that the process may not search. *)
Lemma C7_refused_output_path_raises :
  String.length (name long_webp) = 256%nat ∧
  (convert_image (InBytes ["R"%byte; x01]) long_webp 80 false
     (MkRun out_world ())).1
  = Raise (Exc (MkExn "OSError"
                  ("[Errno 36] File name too long: " +:+ Fs.quoted long_webp)))
  ∧
  (convert_image (InBytes ["R"%byte; x01]) (Path "/out/b.webp") 80 true
     (MkRun (Sample.seal [out_dir] out_world) ())).1
  = Raise (Exc (MkExn "PermissionError"
                  "[Errno 13] Permission denied: '/out/b.webp'")).
Proof. split; [by vm_compute|]. split; by vm_compute. Qed.

End CoreExamples.

(** ** Stepping through a run *)

Ltac wp_step :=
  lazymatch goal with
  | |- post (ret _) _ _ => apply post_ret
  | |- post (raise _) _ _ => apply post_raise
  | |- post (modify _) _ _ => apply post_modify
  | |- post get_locals _ _ => apply post_get_locals
  | |- post (if ?b then _ else _) _ _ => destruct b eqn:?
  | |- post (try_except _ _) _ _ => apply post_try_except
  | |- post (bind _ _) _ _ => apply post_bind
  | |- post ?m _ _ =>
      first [ apply (post_returns m); intros ? ?
            | apply (post_tame m); [intros ? ? | intros ? ?] ]
  end; cbv beta iota.

Ltac wp := repeat wp_step.

(** ** Batch runs *)

Module BatchFacts.
Import Stats.

(** A path with a supported extension has a name, so [with_suffix]
    returns. *)
Lemma supported_has_webp_path p :
  LegacyCli.should_convert p = true →
  ∃ d, PathLib.with_suffix p ".webp" = Some d.
Proof.
  unfold LegacyCli.should_convert, PathLib.with_suffix, PathLib.suffix.
  destruct (PathLib.name p) as [|a nm] eqn:Hname; simpl; [|eauto].
  intros Hs. vm_compute in Hs. discriminate.
Qed.




Section WithCodec.
Context `{Codec}.

End WithCodec.
End BatchFacts.

Module BatchClaims.
Import Stats BatchFacts.


Section WithCodec.
Context `{Codec}.





Global Instance tame_count_files {L} l : Tame (L:=L) (Cli.count_files l).
Proof. induction l; simpl; apply _. Qed.



End WithCodec.
End BatchClaims.

(** ** Counters after a batch run *)

Module CounterClaims.
Import PathLib Stats BatchFacts BatchClaims.

Definition pics : PurePath := Path "/pics".

(** [a.jpg] beside its [a.webp], in a directory the process may not
    change. *)
Definition locked_world : World :=
  Sample.world_of
    [(MkPath "/" [], Dir); (pics, Dir);
     (Path "/pics/a.jpg", File ["R"%byte; x01; x02]);
     (Path "/pics/a.webp", File ["W"%byte])]
    [pics].

(** One image, in a subdirectory. *)
Definition nested_world : World :=
  Sample.world_of
    [(MkPath "/" [], Dir); (pics, Dir); (Path "/pics/sub", Dir);
     (Path "/pics/sub/b.png", File ["P"%byte; x01])]
    [].


(** The package CLI counts [scanned] in the top directory only, and
    walks below it: here it scans nothing and converts one file. *)
Example run_cli_scans_top_level_only :
  let '(status, s) :=
    run_process (Cli.run_cli (MkArgs "/pics" 80 false false false))
      (MkRun nested_world fresh) in
  status = 0 ∧ scanned (locals s) = 0 ∧ eligible (locals s) = 1 ∧
  converted (locals s) = 1.
Proof. by vm_compute. Qed.

(** An image whose [.webp] name is longer than the kernel takes: the
    existence test of the legacy walker stands outside its [try], so the
    run raises and returns no statistics; the file has been counted as
    eligible and under no outcome. *)
Definition long_jpg : PurePath :=
  MkPath "/" ["pics"; string_of_list_ascii (repeat "a"%char 251) +:+ ".jpg"].

Definition long_name_world : World :=
  Sample.world_of
    [(MkPath "/" [], Dir); (pics, Dir); (long_jpg, File ["R"%byte; x01])] [].

Example long_name_stops_the_walker :
  let end_ := LegacyCli.convert_to_webp pics 80 true false false
                (MkRun long_name_world fresh) in
  String.length (name long_jpg) = 255%nat ∧
  (∃ x, end_.1 = Raise (Exc x) ∧ exn_class x = "OSError") ∧
  locals end_.2 = MkStats 1 1 0 0 0 0 0 0 0.
Proof.
  cbv zeta. split; [by vm_compute|]. split; [|by vm_compute].
  eexists. split; [by vm_compute | reflexivity].
Qed.


End CounterClaims.

(** ** The command line *)

Module CliClaims.
Import PathLib Stats.

Definition legacy_quality_error : string := "--quality must be within 0..100".
Definition cli_quality_error : string :=
  "Error: --quality must be between 0 and 100".

(** What a process leaves behind when it has only made the calls
    [calls] and printed one line on standard error: status 1, the line,
    and everything else as it was. *)
Definition exits_with_message {L} (line : string) (calls : list fs_op)
    (s : Run L) (end_ : Z * Run L) : Prop :=
  end_.1 = 1 ∧
  stderr (world end_.2) = stderr (world s) ++ [line] ∧
  nodes (world end_.2) = nodes (world s) ∧
  readonly (world end_.2) = readonly (world s) ∧
  trace (world end_.2) = trace (world s) ++ calls ∧
  locals end_.2 = locals s.

(** The line a run with a bad quality ends on: the program's message,
    or, where the directory argument does not resolve, the line of that
    error. *)
Definition last_line `{PathEnv} (args : Args) (message : string) : string :=
  match realpath (Path (arg_dir args)) with
  | inr _ => message
  | inl e => exn_class e +:+ ": " +:+ exn_str e
  end.

(** C6.  With a quality below 0 or above 100 both batch programs end
    with exit status 1 and one line on standard error, their message
    about the quality; the only call made before is the resolution of the
    directory argument, which stands before the test in both programs (and
    whose error, if it raises, is the line printed instead): no entry has
    been listed, read or written, no file or directory has changed and
    the statistics are untouched. *)
Theorem C6_invalid_quality_exits_before_scanning
    `{Codec} `{PathEnv} (args : Args) (s : Run ConversionStats) :
  arg_quality args < 0 ∨ 100 < arg_quality args →
  exits_with_message (last_line args legacy_quality_error)
    [OpResolve (Path (arg_dir args))] s
    (run_process (LegacyCli.main args) s) ∧
  exits_with_message (last_line args cli_quality_error)
    [OpResolve (Path (arg_dir args))] s
    (run_process (Cli.run_cli args) s).
Proof.
  intros Hq. unfold last_line. split.
  - unfold run_process, LegacyCli.main, bind, resolve, world_op.
    cbn [world locals].
    destruct (realpath (Path (arg_dir args))) as [e|d]; [by repeat split|].
    assert ((arg_quality args <? 0) || (100 <? arg_quality args) = true)
      as -> by (apply orb_true_iff; lia).
    by repeat split.
  - unfold run_process, Cli.run_cli, bind, resolve, world_op.
    cbn [world locals].
    destruct (realpath (Path (arg_dir args))) as [e|d]; [by repeat split|].
    assert (negb ((0 <=? arg_quality args) && (arg_quality args <=? 100))
            = true) as ->.
    { apply negb_true_iff, andb_false_iff. lia. }
    by repeat split.
Qed.

Lemma C6_invalid_quality_witness :
  let args := MkArgs "/pics" 101 false false false in
  let s := MkRun CounterClaims.nested_world fresh in
  (arg_quality args < 0 ∨ 100 < arg_quality args) ∧
  exits_with_message (last_line args legacy_quality_error)
    [OpResolve (Path (arg_dir args))] s
    (run_process (LegacyCli.main args) s) ∧
  exits_with_message (last_line args cli_quality_error)
    [OpResolve (Path (arg_dir args))] s
    (run_process (Cli.run_cli args) s).
Proof.
  cbv zeta. split; [right; reflexivity|].
  apply (C6_invalid_quality_exits_before_scanning
           (MkArgs "/pics" 101 false false false)
           (MkRun CounterClaims.nested_world fresh)).
  right. reflexivity.
Defined.

(** On the sample machine the line is the program's own. *)
Example bad_quality_lines :
  let args := MkArgs "/pics" (-1) false false false in
  last_line args legacy_quality_error = "--quality must be within 0..100" ∧
  last_line args cli_quality_error
    = "Error: --quality must be between 0 and 100".
Proof. by vm_compute. Qed.

(** A quality of 0 or of 100 is let through: the run lists the
    directory. *)
Example boundary_qualities_scan :
  OpScandir CounterClaims.pics
    ∈ trace (world (run_process
                      (Cli.run_cli (MkArgs "/pics" 0 false false false))
                      (MkRun CounterClaims.nested_world fresh)).2) ∧
  OpScandir CounterClaims.pics
    ∈ trace (world (run_process
                      (LegacyCli.main (MkArgs "/pics" 100 false false false))
                      (MkRun CounterClaims.nested_world fresh)).2).
Proof.
  split.
  - assert (trace (world (run_process
                      (Cli.run_cli (MkArgs "/pics" 0 false false false))
                      (MkRun CounterClaims.nested_world fresh)).2)
            = OpResolve CounterClaims.pics :: OpScandir CounterClaims.pics
              :: drop 2 (trace (world (run_process
                      (Cli.run_cli (MkArgs "/pics" 0 false false false))
                      (MkRun CounterClaims.nested_world fresh)).2))) as ->
      by (by vm_compute).
    apply list_elem_of_further, list_elem_of_here.
  - assert (trace (world (run_process
                      (LegacyCli.main (MkArgs "/pics" 100 false false false))
                      (MkRun CounterClaims.nested_world fresh)).2)
            = OpResolve CounterClaims.pics :: OpScandir CounterClaims.pics
              :: drop 2 (trace (world (run_process
                      (LegacyCli.main (MkArgs "/pics" 100 false false false))
                      (MkRun CounterClaims.nested_world fresh)).2))) as ->
      by (by vm_compute).
    apply list_elem_of_further, list_elem_of_here.
Qed.

End CliClaims.

(** ** Replacing beside an existing output *)

Module ReplaceClaims.
Import PathLib Stats.

(** What becomes of the original when its [.webp] is there already,
    [overwrite] is off and [replace] is on, as the specification words
    it. *)
Inductive fate := Kept | Deleted (size : Z) | DeleteFailed.

Definition fate_of (w : World) (src dst : PurePath) : fate :=
  match nodes w !! dst with
  | None => DeleteFailed
  | Some target =>
      let dst_size := match target with
                      | File d => Z.of_nat (length d)
                      | Dir => Fs.dir_size
                      end in
      if 0 <? dst_size then
        match nodes w !! src with
        | Some (File d) =>
            if bool_decide (parent src ∈ readonly w) then DeleteFailed
            else Deleted (Z.of_nat (length d))
        | _ => DeleteFailed
        end
      else Kept
  end.

Section WithCodec.
Context `{Codec}.

Local Arguments Fs.refused : simpl never.
Local Arguments Fs.exists_at : simpl never.

(** The legacy walker does what the specification says: the original
    goes only when the existing [.webp] has a positive size; then
    [deleted_originals] grows by one and [total_deleted_bytes] by the
    size of the original; a deletion that fails adds one to [failed];
    in each case the step returns, so the batch goes on. *)
Lemma legacy_skip_then_replace src dst q w st :
  LegacyCli.should_convert src = true →
  with_suffix src ".webp" = Some dst →
  Fs.exists_at w dst = true →
  Fs.refused w src = None →
  ∃ w',
    LegacyCli.convert_one src q false true (MkRun w st)
    = (Return tt,
       MkRun w'
         (let base :=
            add_skipped_existing 1 (add_eligible 1 (add_scanned 1 st)) in
          match fate_of w src dst with
          | Kept => base
          | Deleted n =>
              add_total_deleted_bytes n (add_deleted_originals 1 base)
          | DeleteFailed => add_failed 1 base
          end)) ∧
    nodes w' = match fate_of w src dst with
               | Deleted _ => delete src (nodes w)
               | _ => nodes w
               end.
Proof.
  intros Hsup Hdst Hex Hsrc.
  pose proof (FsFacts.exists_at_not_refused _ _ Hex) as Hfree.
  destruct (FsFacts.exists_at_there _ _ Hex) as [target Htarget].
  unfold LegacyCli.convert_one. rewrite Hsup. cbn [negb].
  unfold LegacyCli.to_webp_path. rewrite Hdst.
  unfold fate_of.
  unfold bind, modify, or_value_error, ret, try_except, Fs.path_exists,
    Fs.stat_size, Fs.unlink, world_op.
  simpl. rewrite Hfree, Hex. simpl.
  rewrite !FsFacts.refused_log, Hfree, !Htarget.
  destruct target as [d|]; simpl.
  - destruct (0 <? Z.of_nat (length d)); simpl; [|by eexists].
    rewrite !FsFacts.refused_log, Hsrc.
    destruct (nodes w !! src) as [[dsrc|]|]; simpl; try (by eexists).
    destruct (bool_decide (parent src ∈ readonly w)); simpl; by eexists.
  - rewrite !FsFacts.refused_log, Hsrc.
    destruct (nodes w !! src) as [[dsrc|]|]; simpl; try (by eexists).
    destruct (bool_decide (parent src ∈ readonly w)); simpl; by eexists.
Qed.
End WithCodec.

Definition pics : PurePath := CounterClaims.pics.
Definition a_jpg : PurePath := Path "/pics/a.jpg".
Definition a_webp : PurePath := Path "/pics/a.webp".

(** [a.jpg] beside an [a.webp] of no bytes. *)
Definition empty_webp_world : World :=
  Sample.world_of
    [(MkPath "/" [], Dir); (pics, Dir);
     (a_jpg, File ["R"%byte; x01; x02]); (a_webp, File [])]
    [].

Definition replace_args : Args := MkArgs "/pics" 80 false false true.

Definition after_cli (w : World) : Run ConversionStats :=
  (run_process (Cli.run_cli replace_args) (MkRun w fresh)).2.

Definition after_legacy (w : World) : Run ConversionStats :=
  (LegacyCli.convert_to_webp pics 80 true false true (MkRun w fresh)).2.

(** C8 on the package CLI.  Beside an empty [a.webp] it deletes
    [a.jpg], which the legacy walker keeps; and where the deletion
    fails ([CounterClaims.locked_world]) its [failed] stays 0, where the
    legacy walker counts 1. *)
Theorem C8_run_cli_deletes_beside_empty_webp :
  Sample.at_path empty_webp_world a_webp = Some (File []) ∧
  Sample.at_path (world (after_cli empty_webp_world)) a_jpg = None ∧
  deleted_originals (locals (after_cli empty_webp_world)) = 1 ∧
  Sample.at_path (world (after_legacy empty_webp_world)) a_jpg
    = Some (File ["R"%byte; x01; x02]) ∧
  deleted_originals (locals (after_legacy empty_webp_world)) = 0 ∧
  Sample.at_path (world (after_cli CounterClaims.locked_world)) a_jpg
    = Some (File ["R"%byte; x01; x02]) ∧
  failed (locals (after_cli CounterClaims.locked_world)) = 0 ∧
  failed (locals (after_legacy CounterClaims.locked_world)) = 1.
Proof. repeat split; by vm_compute. Qed.

End ReplaceClaims.

(** ** Uploads without a file name *)

Module UploadClaims.
Import PathLib Upload.

(** Leaving out an element on which the body does nothing leaves the
    loop as it is. *)
Lemma for_each_skip {L A} (body : A → M L unit) pre x rest s :
  (∀ s', body x s' = (Return tt, s')) →
  for_each (pre ++ x :: rest) body s = for_each (pre ++ rest) body s.
Proof.
  intros Hx. revert s. induction pre as [|y pre IH]; intros s; simpl.
  - unfold bind. by rewrite Hx.
  - unfold bind. destruct (body y s) as [[[]|e] s']; [apply IH | done].
Qed.

(** The same response, with one more file received. *)
Definition one_more_received (r : outcome Response * Run Locals)
  : outcome Response * Run Locals :=
  match r with
  | (Return resp, s) =>
      let sm := resp_summary resp in
      (Return (MkResponse (resp_results resp)
                 (MkSummary (files_received sm + 1) (sum_converted sm)
                    (sum_skipped sm) (sum_failed sm) (sum_total_input sm)
                    (sum_total_output sm) (sum_saved sm) (sum_output_dir sm)
                    (sum_subdir sm) (sum_overwrite sm) (sum_quality sm))), s)
  | (Raise e, s) => (Raise e, s)
  end.

Lemma length_with_one_more {A} (pre rest : list A) x :
  Z.of_nat (length (pre ++ x :: rest)) = Z.of_nat (length (pre ++ rest)) + 1.
Proof. rewrite !length_app. simpl. lia. Qed.

Section Handlers.
Context `{Codec} `{PathEnv} `{Werkzeug}.

Lemma web_upload_skips output_dir pre f rest fields s :
  (∀ target q ow s',
     Web.handle_file output_dir target q ow f s' = (Return tt, s')) →
  Web.upload output_dir (MkRequest (pre ++ f :: rest) fields) s
  = one_more_received
      (Web.upload output_dir (MkRequest (pre ++ rest) fields) s).
Proof.
  intros Hf. unfold Web.upload. cbn [files form].
  rewrite length_with_one_more.
  unfold bind, modify, get_locals, ret.
  destruct (Web.target_dir_of _ _ _) as [[t|e] s0]; [|done].
  destruct (FsDir.mkdir_parents _ _) as [[[]|e] s1]; [|done].
  rewrite for_each_skip by apply Hf.
  by destruct (for_each _ _ s1) as [[[]|e] s2].
Qed.

Lemma legacy_upload_skips output_dir pre f rest fields s :
  (∀ target q ow s',
     LegacyWeb.handle_file output_dir target q ow f s' = (Return tt, s')) →
  LegacyWeb.upload output_dir (MkRequest (pre ++ f :: rest) fields) s
  = one_more_received
      (LegacyWeb.upload output_dir (MkRequest (pre ++ rest) fields) s).
Proof.
  intros Hf. unfold LegacyWeb.upload. cbn [files form].
  rewrite length_with_one_more.
  unfold bind, modify, get_locals, ret.
  destruct (LegacyWeb.target_dir_of _ _ _) as [[t|e] s0]; [|done].
  destruct (FsDir.mkdir_parents _ _) as [[[]|e] s1]; [|done].
  rewrite for_each_skip by apply Hf.
  by destruct (for_each _ _ s1) as [[[]|e] s2].
Qed.

(** What both handlers do with the uploaded part [f]: the loop body
    returns at once and leaves the whole state as it is (no result is
    appended, no counter moves, the stream is not read, no file is
    touched), and a request with [f] in it is answered as the request
    without it, but for the number of files received. *)
Definition passed_over (f : FileStorage) : Prop :=
  (∀ output_dir target q ow (s : Run Locals),
     Web.handle_file output_dir target q ow f s = (Return tt, s) ∧
     LegacyWeb.handle_file output_dir target q ow f s = (Return tt, s)) ∧
  (∀ output_dir pre rest fields (s : Run Locals),
     Web.upload output_dir (MkRequest (pre ++ f :: rest) fields) s
     = one_more_received
         (Web.upload output_dir (MkRequest (pre ++ rest) fields) s) ∧
     LegacyWeb.upload output_dir (MkRequest (pre ++ f :: rest) fields) s
     = one_more_received
         (LegacyWeb.upload output_dir (MkRequest (pre ++ rest) fields) s)).

Lemma unnamed_passed_over f : unnamed f = true → passed_over f.
Proof.
  intros Hf.
  assert (∀ output_dir target q ow (s : Run Locals),
            Web.handle_file output_dir target q ow f s = (Return tt, s))
    as Hweb.
  { intros. unfold Web.handle_file. by rewrite Hf. }
  assert (∀ output_dir target q ow (s : Run Locals),
            LegacyWeb.handle_file output_dir target q ow f s
            = (Return tt, s)) as Hleg.
  { intros. unfold LegacyWeb.handle_file. by rewrite Hf. }
  split; [by split|].
  intros. split.
  - apply web_upload_skips. intros. apply Hweb.
  - apply legacy_upload_skips. intros. apply Hleg.
Qed.

(** C9, as the code has it.  An uploaded part whose file name is
    missing or empty is passed over by both handlers, whatever its
    content: it gets no [UploadItemResult] and counts neither as
    skipped nor otherwise, its content is not read, and it only shows
    in the number of files received. *)
Theorem C9_unnamed_upload_is_passed_over (content : list byte) :
  passed_over (MkFile None content) ∧
  passed_over (MkFile (Some "") content).
Proof. split; by apply unnamed_passed_over. Qed.
End Handlers.

Definition out_root : PurePath := Path "/srv/out".
Definition srv_world : World :=
  Sample.world_of
    [(MkPath "/" [], Dir); (Path "/srv", Dir); (out_root, Dir)] [].

(** C9 as stated fails: a request whose only part has an empty file
    name is answered with no item at all, so none with the status
    ["skipped"], and with a [skipped] count of 0, by both handlers. *)
Lemma C9_unnamed_upload_gets_no_result :
  let req := MkRequest [MkFile (Some "") ["R"%byte; x01]] ∅ in
  let answer :=
    Return (MkResponse []
              (MkSummary 1 0 0 0 0 0 0 "/srv/out" "." false 80)) in
  (Web.upload out_root req (MkRun srv_world fresh)).1 = answer ∧
  (LegacyWeb.upload out_root req (MkRun srv_world fresh)).1 = answer ∧
  ¬ Exists (λ item, status item = "skipped") [].
Proof.
  split; [by vm_compute|]. split; [by vm_compute|].
  by intros ?%Exists_nil.
Qed.

(** A named part that is no image is reported as failed, a part of an
    unsupported type and an empty part as skipped. *)
Example named_uploads_are_reported :
  let req :=
    MkRequest [MkFile (Some "corrupt.jpg") [x00; x01];
               MkFile (Some "notes.txt") ["R"%byte];
               MkFile (Some "blank.png") []] ∅ in
  match (Web.upload out_root req (MkRun srv_world fresh)).1 with
  | Return resp =>
      status <$> resp_results resp = ["failed"; "skipped"; "skipped"] ∧
      sum_failed (resp_summary resp) = 1 ∧
      sum_skipped (resp_summary resp) = 2 ∧
      sum_converted (resp_summary resp) = 0
  | Raise _ => False
  end.
Proof. by vm_compute. Qed.

End UploadClaims.

(** * Further properties *)

(** ** What a run does to the world *)

(** A relation between the world before and after that holds of doing
    nothing, composes, and does not look at the trace. *)
Class FsRel (R : World → World → Prop) : Prop := {
  fsrel_refl : ∀ w, R w w;
  fsrel_trans : ∀ a b c, R a b → R b c → R a c;
  fsrel_log : ∀ w o, R w (Fs.log o w)
}.

(** Every run of [m] relates the world it starts in to the world it ends
    in, whether it returns or raises. *)
Class Keeps {L A} (R : World → World → Prop) (m : M L A) : Prop :=
  keeps : ∀ s, R (world s) (world (m s).2).

Global Hint Mode Keeps + + ! ! : typeclass_instances.

Section KeepsRules.
Context {L : Type} (R : World → World → Prop) `{!FsRel R}.

Global Instance keeps_ret {A} (a : A) : Keeps (L:=L) R (ret a).
Proof. intros s. apply fsrel_refl. Qed.

Global Instance keeps_raise {A} e : Keeps (L:=L) (A:=A) R (raise e).
Proof. intros s. apply fsrel_refl. Qed.

Global Instance keeps_raise_exn {A} e : Keeps (L:=L) (A:=A) R (raise_exn e).
Proof. intros s. apply fsrel_refl. Qed.

Global Instance keeps_modify (f : L → L) : Keeps R (modify f).
Proof. intros s. apply fsrel_refl. Qed.

Global Instance keeps_get_locals : Keeps (L:=L) R get_locals.
Proof. intros s. apply fsrel_refl. Qed.

Global Instance keeps_lift_exn {A} (r : PyExn + A) : Keeps (L:=L) R (lift_exn r).
Proof. destruct r; apply _. Qed.

Global Instance keeps_or_value_error {A} (o : option A) text :
  Keeps (L:=L) R (or_value_error o text).
Proof. destruct o; apply _. Qed.

Global Instance keeps_bind {A B} (m : M L A) (f : A → M L B) :
  Keeps R m → (∀ a, Keeps R (f a)) → Keeps R (bind m f).
Proof.
  intros Hm Hf s. unfold bind. specialize (Hm s).
  destruct (m s) as [[a|e] s1]; simpl in *; [|done].
  eapply fsrel_trans; [exact Hm | apply Hf].
Qed.

Global Instance keeps_try_except {A} (body : M L A) handler :
  Keeps R body → (∀ e, Keeps R (handler e)) → Keeps R (try_except body handler).
Proof.
  intros Hb Hh s. unfold try_except. specialize (Hb s).
  destruct (body s) as [[a|[a|e]] s1]; simpl in *; try done.
  eapply fsrel_trans; [exact Hb | apply Hh].
Qed.

Global Instance keeps_if {A} (b : bool) (m1 m2 : M L A) :
  Keeps R m1 → Keeps R m2 → Keeps R (if b then m1 else m2).
Proof. by destruct b. Qed.

Global Instance keeps_match_sum {A B C} (r : A + B) (f : A → M L C)
    (g : B → M L C) :
  (∀ a, Keeps R (f a)) → (∀ b, Keeps R (g b)) →
  Keeps R (match r with inl a => f a | inr b => g b end).
Proof. by destruct r. Qed.

Global Instance keeps_for_each {A} (l : list A) (body : A → M L unit) :
  (∀ x, Keeps R (body x)) → Keeps R (for_each l body).
Proof. intros Hbody. induction l; simpl; apply _. Qed.

Lemma keeps_world_op {A} (f : World → outcome A * World) :
  (∀ w, R w (f w).2) → Keeps (L:=L) R (world_op f).
Proof.
  intros Hf [w l]. unfold world_op. simpl. specialize (Hf w).
  by destruct (f w).
Qed.

(** A step that only adds to the trace. *)
Lemma keeps_logging {A} (f : World → outcome A) (o : World → fs_op) :
  Keeps (L:=L) R (world_op (λ w, (f w, Fs.log (o w) w))).
Proof. intros [w l]. unfold world_op. simpl. apply fsrel_log. Qed.

Global Instance keeps_path_exists p : Keeps (L:=L) R (Fs.path_exists p).
Proof. apply (keeps_logging _ (λ _, OpExists p)). Qed.
Global Instance keeps_is_file p : Keeps (L:=L) R (Fs.is_file p).
Proof. apply (keeps_logging _ (λ _, OpIsFile p)). Qed.
Global Instance keeps_stat_size p : Keeps (L:=L) R (Fs.stat_size p).
Proof. apply (keeps_logging _ (λ _, OpStat p)). Qed.
Global Instance keeps_read_bytes p : Keeps (L:=L) R (Fs.read_bytes p).
Proof. apply (keeps_logging _ (λ _, OpOpenRead p)). Qed.
Global Instance keeps_iterdir p : Keeps (L:=L) R (FsDir.iterdir p).
Proof. apply (keeps_logging _ (λ _, OpScandir p)). Qed.
Global Instance keeps_glob_star p : Keeps (L:=L) R (FsDir.glob_star p).
Proof. apply (keeps_logging _ (λ _, OpScandir p)). Qed.
Global Instance keeps_rglob_star p : Keeps (L:=L) R (FsDir.rglob_star p).
Proof. apply (keeps_logging _ (λ _, OpScandir p)). Qed.
Global Instance keeps_is_dir p : Keeps (L:=L) R (FsDir.is_dir p).
Proof. apply (keeps_logging _ (λ _, OpStat p)). Qed.
Global Instance keeps_upload_read f : Keeps (L:=L) R (Upload.read f).
Proof.
  apply (keeps_logging _ (λ _, OpReadUpload (default "" (Upload.filename f)))).
Qed.
Global Instance keeps_resolve `{PathEnv} p : Keeps (L:=L) R (resolve p).
Proof. apply (keeps_logging _ (λ _, OpResolve p)). Qed.
Global Instance keeps_relpath_str p q : Keeps (L:=L) R (Upload.relpath_str p q).
Proof. unfold Upload.relpath_str. apply _. Qed.

Section WithCodec.
Context `{Codec}.
Global Instance keeps_open_path p : Keeps (L:=L) R (Pil.open_path p).
Proof. unfold Pil.open_path. apply _. Qed.
Global Instance keeps_open_bytes d : Keeps (L:=L) R (Pil.open_bytes d).
Proof. unfold Pil.open_bytes. apply _. Qed.
End WithCodec.

Lemma post_keeps {A} (m : M L A) `{!Keeps R m} s
    (Q : outcome A → Run L → Prop) :
  (∀ r s', R (world s) (world s') → Q r s') → post m s Q.
Proof. intros HQ. apply HQ, keeps. Qed.

End KeepsRules.

(** ** What [convert_image] writes *)

Module ConvertFacts.
Import Core.

(** Nothing but the entry at [out] differs, and permissions and standard
    error are the same. *)
Definition only_at (out : PurePath) (w w' : World) : Prop :=
  (∀ q, q ≠ out → nodes w' !! q = nodes w !! q) ∧
  readonly w' = readonly w ∧
  stderr w' = stderr w.

(** What is sealed stays sealed, and nothing else becomes so. *)
Definition same_sealed (w w' : World) : Prop := sealed w' = sealed w.

Global Instance same_sealed_rel : FsRel same_sealed.
Proof.
  split.
  - by intros w.
  - intros a b c Hab Hbc. unfold same_sealed in *. congruence.
  - by intros w o.
Qed.

Global Instance only_at_rel out : FsRel (only_at out).
Proof.
  split.
  - by intros w.
  - intros a b c (Hab & ? & ?) (Hbc & ? & ?). split; [|split; congruence].
    intros q Hq. by rewrite Hbc, Hab.
  - by intros w o.
Qed.

Lemma only_at_insert out x w :
  only_at out w (Fs.set_nodes (<[out := x]> (nodes w)) w).
Proof. split; [|done]. intros q Hq. simpl. by rewrite lookup_insert_ne. Qed.

Lemma only_at_delete out w :
  only_at out w (Fs.set_nodes (delete out (nodes w)) w).
Proof. split; [|done]. intros q Hq. simpl. by rewrite lookup_delete_ne. Qed.

Section WithCodec.
Context `{Codec} {L : Type}.

Lemma only_at_logged_insert out x o w :
  only_at out w (Fs.set_nodes (<[out := x]> (nodes w)) (Fs.log o w)).
Proof. split; [|done]. intros q Hq. simpl. by rewrite lookup_insert_ne. Qed.

Lemma only_at_logged_delete out o w :
  only_at out w (Fs.set_nodes (delete out (nodes w)) (Fs.log o w)).
Proof. split; [|done]. intros q Hq. simpl. by rewrite lookup_delete_ne. Qed.

Global Instance keeps_open_write_at p : Keeps (L:=L) (only_at p) (Fs.open_write p).
Proof.
  apply keeps_world_op. intros w. simpl.
  repeat case_match; simpl;
    first [ apply (fsrel_log (R:=only_at p)) | apply only_at_logged_insert ].
Qed.

Global Instance keeps_write_bytes_at p d :
  Keeps (L:=L) (only_at p) (Fs.write_bytes p d).
Proof. apply keeps_world_op. intros w. apply only_at_insert. Qed.

Global Instance keeps_unlink_at p : Keeps (L:=L) (only_at p) (Fs.unlink p).
Proof.
  apply keeps_world_op. intros w. simpl.
  repeat case_match; simpl;
    first [ apply (fsrel_log (R:=only_at p)) | apply only_at_logged_delete ].
Qed.

Global Instance keeps_remove_quietly_at p :
  Keeps (L:=L) (only_at p) (Fs.remove_quietly p).
Proof. unfold Fs.remove_quietly. apply _. Qed.

Global Instance keeps_save_at img p q : Keeps (L:=L) (only_at p) (Pil.save img p q).
Proof. unfold Pil.save. apply _. Qed.

Global Instance keeps_convert_attempt_at input out q :
  Keeps (L:=L) (only_at out) (convert_attempt input out q).
Proof.
  unfold convert_attempt. apply keeps_bind; [apply _| |].
  - destruct input; apply _.
  - intros [sz img]. apply _.
Qed.

Global Instance keeps_convert_image_at input out q ow :
  Keeps (L:=L) (only_at out) (convert_image input out q ow).
Proof. unfold convert_image. apply _. Qed.

(** With [overwrite] off the world only gains the output. *)
Lemma convert_image_no_overwrite_extends input out q (s : Run L) :
  nodes (world s) ⊆ nodes (world (convert_image input out q false s).2).
Proof.
  rewrite CoreClaims.convert_image_run. cbv zeta.
  destruct (Fs.refused (world s) out) eqn:Href; [done|].
  destruct (Fs.exists_at (world s) out) eqn:Hex; cbn [negb andb]; [done|].
  set (s1 := MkRun (Fs.log (OpExists out) (world s)) (locals s)).
  pose proof (keeps (R:=only_at out) (m:=convert_attempt input out q) s1)
    as (Hframe & _).
  assert (nodes (world s)
            ⊆ nodes (world (convert_attempt input out q s1).2)) as Hsub.
  { apply map_subseteq_spec. intros p x Hp.
    destruct (decide (p = out)) as [-> | Hne].
    - by rewrite (FsFacts.not_exists_at_free _ _ Href Hex) in Hp.
    - by rewrite (Hframe p Hne). }
  by destruct (convert_attempt input out q s1) as [[r|[c|x]] s2].
Qed.

End WithCodec.
End ConvertFacts.

Module ConvertProps.
Import Core ConvertFacts.

Section WithCodec.
Context `{Codec} {L : Type}.

(** X1.  [convert_image] changes nothing but the entry at the output path:
    every other file and directory, the permissions, standard error and the
    caller's variables are the same afterwards, whatever the outcome. *)
Theorem convert_image_touches_only_output
    (input : input_data) (output_path : PurePath) (quality : Z)
    (overwrite : bool) (s : Run L) :
  let s' := (convert_image input output_path quality overwrite s).2 in
  (∀ p, p ≠ output_path → nodes (world s') !! p = nodes (world s) !! p) ∧
  readonly (world s') = readonly (world s) ∧
  stderr (world s') = stderr (world s) ∧
  locals s' = locals s.
Proof.
  simpl.
  destruct (keeps (R:=only_at output_path)
              (m:=convert_image input output_path quality overwrite) s)
    as (Hframe & Hro & Herr).
  repeat split; try done.
  by destruct (tame (m:=convert_image input output_path quality overwrite) s).
Qed.

(** X2.  With [overwrite] off, [convert_image] leaves every file and
    directory that is there as it is: afterwards the filesystem holds all it
    held, with the same contents, and at most the output file more. *)
Theorem convert_image_without_overwrite_keeps_files
    (input : input_data) (output_path : PurePath) (quality : Z) (s : Run L) :
  nodes (world s)
    ⊆ nodes (world (convert_image input output_path quality false s).2).
Proof. apply convert_image_no_overwrite_extends. Qed.

End WithCodec.
End ConvertProps.

(** ** What [convert_image] reports *)

Module ResultProps.
Import Core.

(** The size [stat] reports for a path. *)
Definition size_at (w : World) (p : PurePath) : option Z :=
  match nodes w !! p with
  | Some (File d) => Some (Z.of_nat (length d))
  | Some Dir => Some Fs.dir_size
  | None => None
  end.

Lemma stat_size_returns {L} p (s s' : Run L) n :
  Fs.stat_size p s = (Return n, s') →
  size_at (world s) p = Some n ∧
  s' = MkRun (Fs.log (OpStat p) (world s)) (locals s).
Proof.
  rewrite FsFacts.stat_size_run. unfold size_at.
  destruct (Fs.refused (world s) p); [discriminate|].
  destruct (nodes (world s) !! p) as [[d|]|]; simpl; intros [= <- <-]; done.
Qed.

Section WithCodec.
Context `{Codec} {L : Type}.

(** A save that returns has written what the encoder produced. *)
Lemma save_returns img p q (s s' : Run L) :
  Pil.save img p q s = (Return tt, s') →
  ∃ img' data, img_load img = inr img' ∧
               webp_encode img' q = inr data ∧
               nodes (world s') !! p = Some (File data).
Proof.
  unfold Pil.save. intros (img' & s0 & Hload & Hrest)%bind_returns.
  apply lift_exn_returns in Hload as [Hload ->].
  apply bind_returns in Hrest as (created & s1 & _ & Hrest).
  destruct (webp_encode img' q) as [e|data] eqn:Henc.
  - apply bind_returns in Hrest as (? & ? & _ & Hraise). discriminate.
  - exists img', data. split; [done|]. split; [done|].
    unfold Fs.write_bytes, world_op in Hrest. simpl in Hrest.
    injection Hrest as <-. simpl. apply lookup_insert_eq.
Qed.

(** A save that returns has found its path open, and so it stays. *)
Lemma save_returns_open img p q (s s' : Run L) :
  Pil.save img p q s = (Return tt, s') → Fs.refused (world s') p = None.
Proof.
  unfold Pil.save. intros (img' & s0 & Hload & Hrest)%bind_returns.
  apply lift_exn_returns in Hload as [_ ->].
  apply bind_returns in Hrest as (created & s1 & Hopen & Hrest).
  destruct (webp_encode img' q) as [e|data].
  { apply bind_returns in Hrest as (? & ? & _ & Hraise). discriminate. }
  unfold Fs.write_bytes, world_op in Hrest. cbn [world locals] in Hrest.
  injection Hrest as <-. cbn [world].
  revert Hopen. unfold Fs.open_write, world_op. cbn [world locals].
  destruct (Fs.refused (world s) p) eqn:Href; [discriminate|].
  assert (∀ (x : list byte) m,
            nodes (world s) !! p ≠ Some Dir →
            nodes m = <[p := File []]> (nodes (world s)) →
            sealed m = sealed (world s) →
            Fs.refused (Fs.set_nodes (<[p := File x]> (nodes m)) m) p = None)
    as Hsame.
  { intros x m Hnd Hm Hs. rewrite <- Href.
    apply FsFacts.refused_same_dirs; [|done].
    intros r. cbn [Fs.set_nodes nodes]. rewrite Hm.
    destruct (decide (r = p)) as [-> | Hne].
    - rewrite lookup_insert_eq. split; [discriminate | done].
    - by rewrite !lookup_insert_ne. }
  destruct (nodes (world s) !! p) as [[d|]|] eqn:Hp; [|discriminate|].
  - intros [= <- <-]. cbn [world]. apply Hsame; done.
  - destruct (nodes (world s) !! PathLib.parent p) as [[d|]|];
      try discriminate.
    destruct (bool_decide _); [discriminate|].
    intros [= <- <-]. cbn [world]. apply Hsame; done.
Qed.

(** What an attempt that returns has done. *)
Lemma convert_attempt_returns input out q (s s' : Run L) res :
  convert_attempt input out q s = (Return res, s') →
  success res = true ∧
  saved_bytes res = input_size res - output_size res ∧
  (∃ img data, webp_encode img q = inr data ∧
               nodes (world s') !! out = Some (File data) ∧
               output_size res = Z.of_nat (length data)) ∧
  match input with
  | InBytes d => input_size res = Z.of_nat (length d)
  | InPath p => size_at (world s) p = Some (input_size res)
  end.
Proof.
  unfold convert_attempt.
  intros ([sz img] & s1 & Hopen & Hrest)%bind_returns.
  apply bind_returns in Hrest as (img' & s2 & _ & Hrest).
  apply bind_returns in Hrest as ([] & s3 & Hsave & Hrest).
  apply bind_returns in Hrest as (n & s4 & Hstat & Hret).
  injection Hret as <- <-. simpl.
  apply save_returns in Hsave as (img'' & data & _ & Henc & Hout).
  apply stat_size_returns in Hstat as [Hsize ->].
  unfold size_at in Hsize. rewrite Hout in Hsize. injection Hsize as <-.
  split; [done|]. split; [done|]. split; [by exists img'', data|].
  destruct input as [p|d].
  - apply bind_returns in Hopen as (n & s5 & Hstat & Hrest).
    apply stat_size_returns in Hstat as [Hsize _].
    apply bind_returns in Hrest as (? & ? & _ & Hret).
    by injection Hret as <- _ _.
  - apply bind_returns in Hopen as (? & ? & _ & Hret).
    by injection Hret as <- _ _.
Qed.

(** What a run of [convert_image] reports, whatever it does. *)
Lemma convert_image_sizes input out q ow (s : Run L) :
  match convert_image input out q ow s with
  | (Return res, s') =>
      Fs.refused (world s) out = None ∧
      if success res then
        (∃ img data, webp_encode img q = inr data ∧
                     nodes (world s') !! out = Some (File data) ∧
                     output_size res = Z.of_nat (length data)) ∧
        saved_bytes res = input_size res - output_size res ∧
        match input with
        | InBytes d => input_size res = Z.of_nat (length d)
        | InPath p => size_at (world s) p = Some (input_size res)
        end
      else input_size res = 0 ∧ output_size res = 0 ∧ saved_bytes res = 0
  | (Raise e, s') =>
      ∃ x, e = Exc x ∧ Fs.refused (world s) out = Some x ∧
           s' = MkRun (Fs.log (OpExists out) (world s)) (locals s)
  end.
Proof.
  rewrite CoreClaims.convert_image_run. cbv zeta.
  destruct (Fs.refused (world s) out) as [x|]; [by exists x|].
  destruct (Fs.exists_at (world s) out && negb ow); [done|].
  set (s1 := MkRun (Fs.log (OpExists out) (world s)) (locals s)).
  pose proof (tame (m:=convert_attempt input out q) s1) as Ht.
  destruct (convert_attempt input out q s1) as [r s2] eqn:Hatt.
  inversion Ht as [res w Hr | e w Hr]; subst; simpl; [|done].
  apply convert_attempt_returns in Hatt as (-> & Hsaved & Hout & Hin).
  done.
Qed.

(** X3.  [convert_image] returns a result unless the existence test on
    the output path raises; then it raises that error and has done nothing
    else.  A success says that the output file now holds the bytes the
    encoder produced, that [output_size] is their number, that
    [input_size] is the length of the buffer, or the size [stat] gave for
    the input path at the start, and that [saved_bytes] is their
    difference (negative when the output is larger).  A failure reports
    all three sizes as 0. *)
Theorem convert_image_result_sizes
    (input : input_data) (output_path : PurePath) (quality : Z)
    (overwrite : bool) (s : Run L) :
  match convert_image input output_path quality overwrite s with
  | (Return res, s') =>
      Fs.refused (world s) output_path = None ∧
      if success res then
        (∃ img data, webp_encode img quality = inr data ∧
                     nodes (world s') !! output_path = Some (File data) ∧
                     output_size res = Z.of_nat (length data)) ∧
        saved_bytes res = input_size res - output_size res ∧
        match input with
        | InBytes d => input_size res = Z.of_nat (length d)
        | InPath p => size_at (world s) p = Some (input_size res)
        end
      else input_size res = 0 ∧ output_size res = 0 ∧ saved_bytes res = 0
  | (Raise e, s') =>
      ∃ x, e = Exc x ∧ Fs.refused (world s) output_path = Some x ∧
           s' = MkRun (Fs.log (OpExists output_path) (world s)) (locals s)
  end.
Proof. apply convert_image_sizes. Qed.

End WithCodec.
End ResultProps.

(** ** What a batch run leaves in place *)

Module KeepFacts.
Import ConvertFacts.

(** Whatever was there is still there (its content may differ). *)
Definition grows (w w' : World) : Prop :=
  ∀ p, is_Some (nodes w !! p) → is_Some (nodes w' !! p).

(** Whatever was there is still there with the same content. *)
Definition extends (w w' : World) : Prop := nodes w ⊆ nodes w'.

Global Instance grows_rel : FsRel grows.
Proof.
  split.
  - by intros w p.
  - intros a b c Hab Hbc p Hp. by apply Hbc, Hab.
  - by intros w o p.
Qed.

Global Instance extends_rel : FsRel extends.
Proof.
  split.
  - intros w. unfold extends. reflexivity.
  - intros a b c Hab Hbc. unfold extends in *. by etrans.
  - intros w o. unfold extends. reflexivity.
Qed.

Lemma extends_grows w w' : extends w w' → grows w w'.
Proof.
  intros Hsub p [x Hx]. exists x.
  by eapply (map_subseteq_spec (nodes w) (nodes w')).
Qed.

(** A change confined to a path that was free adds to the world. *)
Lemma only_at_free_extends out w w' :
  nodes w !! out = None → only_at out w w' → extends w w'.
Proof.
  intros Hfree (Hframe & _). apply map_subseteq_spec. intros p x Hp.
  destruct (decide (p = out)) as [-> | Hne]; [congruence|].
  by rewrite (Hframe p Hne).
Qed.

Section WithCodec.
Context `{Codec} {L : Type}.

Global Instance keeps_print_stderr_grows line :
  Keeps (L:=L) grows (Cli.print_stderr line).
Proof. apply keeps_world_op. by intros w p. Qed.

Global Instance keeps_print_stderr_extends line :
  Keeps (L:=L) extends (Cli.print_stderr line).
Proof. apply keeps_world_op. intros w. unfold extends. reflexivity. Qed.

(** Saving adds or rewrites its target; the file it removes after a
    failed encoding is one it has just created. *)
Lemma grows_of_frame p w w' :
  only_at p w w' →
  (is_Some (nodes w !! p) → is_Some (nodes w' !! p)) →
  grows w w'.
Proof.
  intros (Hframe & _) Hp r Hr.
  destruct (decide (r = p)) as [-> | Hne]; [auto|].
  by rewrite (Hframe r Hne).
Qed.

Global Instance keeps_save_grows img p q : Keeps (L:=L) grows (Pil.save img p q).
Proof.
  intros s. apply (grows_of_frame p); [apply (keeps (R:=only_at p))|].
  intros [x Hx]. destruct s as [w l]. cbn [world] in Hx.
  unfold Pil.save. unfold bind at 1.
  destruct (img_load img) as [e|img']; cbn [lift_exn]; [by eexists|].
  unfold ret at 1. cbv beta iota.
  unfold bind at 1. unfold Fs.open_write, world_op. cbn [world locals].
  destruct (Fs.refused w p); [by eexists|].
  rewrite Hx. destruct x as [d|]; [|by eexists].
  destruct (webp_encode img' q); simpl.
  - rewrite lookup_insert_eq. by eexists.
  - unfold Fs.write_bytes, world_op. simpl.
    rewrite lookup_insert_eq. by eexists.
Qed.

Global Instance keeps_convert_attempt_grows input out q :
  Keeps (L:=L) grows (Core.convert_attempt input out q).
Proof.
  unfold Core.convert_attempt. apply keeps_bind; [apply _| |].
  - destruct input; apply _.
  - intros [sz img]. apply _.
Qed.

Global Instance keeps_convert_image_grows input out q ow :
  Keeps (L:=L) grows (Core.convert_image input out q ow).
Proof. unfold Core.convert_image. apply _. Qed.

Global Instance keeps_convert_image_extends input out q :
  Keeps (L:=L) extends (Core.convert_image input out q false).
Proof. intros s. apply convert_image_no_overwrite_extends. Qed.

End WithCodec.
End KeepFacts.

(** ** Statistics of a batch run, in general *)

Module WalkFacts.
Import Stats.

Section WithCodec.
Context `{Codec}.

(** An invariant of the statistics that each [convert_one] keeps,
    however it ends, holds of the statistics the legacy walker ends with,
    which are those it returns. *)
Lemma legacy_walk_inv (I : ConversionStats → Prop) dir q rec ow rep s :
  I fresh →
  (∀ src s1, I (locals s1) →
     post (LegacyCli.convert_one src q ow rep) s1 (λ _ s', I (locals s'))) →
  post (LegacyCli.convert_to_webp dir q rec ow rep) s
    (λ r s', I (locals s') ∧ ∀ st, r = Return st → st = locals s').
Proof.
  intros Hfresh Hstep.
  assert (∀ entries s0, I (locals s0) →
    post (for_each entries (λ path : PurePath,
            f ← Fs.is_file path;
            if negb f then ret ()
            else LegacyCli.convert_one path q ow rep)) s0
      (λ _ s', I (locals s'))) as Hloop.
  { intros entries s0. apply (post_for_each_any (λ s, I (locals s))).
    intros path s1 Hinv.
    wp_step. wp_step; [|done]. wp_step; [by wp_step|]. by apply Hstep. }
  unfold LegacyCli.convert_to_webp, LegacyCli.iter_images.
  do 5 wp_step.
  all: wp_step; [|by split].
  all: (eapply post_mono; [by apply Hloop|]).
  all: intros [[]|e] s' Hinv; [|by split].
  all: wp_step; split; [done|]; by intros st [= <-].
Qed.

(** [count_files] returns a number that is not negative, or raises the
    error of a test it made. *)
Lemma post_count_files {L} l (s : Run L) (Q : outcome Z → Run L → Prop) :
  (∀ n w, 0 ≤ n → Q (Return n) (MkRun w (locals s))) →
  (∀ x w, Q (Raise (Exc x)) (MkRun w (locals s))) →
  post (Cli.count_files l) s Q.
Proof.
  revert s Q. induction l as [|f l IH]; intros s Q Hr He; simpl.
  - apply post_ret. destruct s. by apply Hr.
  - apply post_bind, post_tame; [apply _ | intros b w | intros x w; apply He].
    cbv beta iota.
    apply post_bind, IH; cbn [locals]; [intros n w' Hn | intros x w'; apply He].
    apply post_ret. apply Hr. destruct b; lia.
Qed.

(** The same for the package CLI, whose loop body runs on eligible
    files only; if the run stops before the loop, [I] holds of the fresh
    statistics. *)
Lemma cli_walk_inv `{PathEnv} (I : ConversionStats → Prop) args w :
  I fresh →
  (∀ n st, 0 ≤ n → I st → I (set_scanned n st)) →
  (∀ src s1, LegacyCli.should_convert src = true → I (locals s1) →
     post (Cli.process args src) s1 (λ _ s', I (locals s'))) →
  post (Cli.run_cli args) (MkRun w fresh) (λ _ s', I (locals s')).
Proof.
  intros Hfresh Hscan Hstep.
  assert (∀ entries s0, I (locals s0) →
    post (for_each entries (λ path : PurePath,
            f ← Fs.is_file path;
            if f && bool_decide (PyStr.lower (PathLib.suffix path)
                                   ∈ Core.SUPPORTED_EXTENSIONS)
            then Cli.process args path else ret ())) s0
      (λ _ s', I (locals s'))) as Hloop.
  { intros entries s0. apply (post_for_each_any (λ s, I (locals s))).
    intros path s1 Hinv.
    wp_step. wp_step; [|done].
    match goal with |- post (if ?b then _ else _) _ _ =>
      destruct b eqn:Hsel end; [|by wp_step].
    apply andb_true_iff in Hsel as [_ Hsup]. by apply Hstep. }
  unfold Cli.run_cli, Cli.iter_images.
  wp_step. wp_step; [|done].
  destruct (negb _); [by wp|].
  do 3 wp_step.
  wp_step; [|done].
  wp_step. apply post_count_files; [intros n wc Hn | done]. cbv beta iota.
  do 4 wp_step.
  all: wp_step; [|by apply Hscan].
  all: by apply Hloop, Hscan.
Qed.

End WithCodec.
End WalkFacts.

(** ** Sizes are not negative *)

Module SizeFacts.
Import Core ResultProps.

Lemma size_at_nonneg w p n : size_at w p = Some n → 0 ≤ n.
Proof.
  unfold size_at. destruct (nodes w !! p) as [[d|]|]; intros [= <-];
    [lia | done].
Qed.

Section WithCodec.
Context `{Codec} {L : Type}.

Lemma post_stat_size p (s : Run L) (Q : outcome Z → Run L → Prop) :
  (∀ n w, 0 ≤ n → Q (Return n) (MkRun w (locals s))) →
  (∀ x w, Q (Raise (Exc x)) (MkRun w (locals s))) →
  post (Fs.stat_size p) s Q.
Proof.
  intros Hr He. unfold post.
  pose proof (tame (m:=Fs.stat_size p) s) as Ht.
  destruct (Fs.stat_size p s) as [r s'] eqn:Hstat.
  inversion Ht as [n w Hn | x w Hx]; subst; simpl; [|apply He].
  apply stat_size_returns in Hstat as [Hsize _].
  apply Hr. by eapply size_at_nonneg.
Qed.

(** The sizes [convert_image] reports are never negative. *)
Lemma convert_image_sizes_nonneg input out q ow (s s' : Run L) res :
  convert_image input out q ow s = (Return res, s') →
  0 ≤ input_size res ∧ 0 ≤ output_size res.
Proof.
  intros Hrun. pose proof (convert_image_sizes input out q ow s) as Hsz.
  rewrite Hrun in Hsz. destruct Hsz as [_ Hsz].
  destruct (success res).
  - destruct Hsz as ((img & data & _ & _ & ->) & _ & Hin).
    split; [|lia]. destruct input.
    + by eapply size_at_nonneg.
    + rewrite Hin. lia.
  - destruct Hsz as (-> & -> & _). lia.
Qed.

Lemma post_convert_image_sized input out q ow (s : Run L)
    (Q : outcome ConversionResult → Run L → Prop) :
  (∀ res w, 0 ≤ input_size res → 0 ≤ output_size res →
            Q (Return res) (MkRun w (locals s))) →
  (∀ x w, Q (Raise (Exc x)) (MkRun w (locals s))) →
  post (convert_image input out q ow) s Q.
Proof.
  intros Hr He. unfold post.
  pose proof (tame (m:=convert_image input out q ow) s) as Ht.
  destruct (convert_image input out q ow s) as [r s'] eqn:Heq.
  inversion Ht as [res w Hres | x w Hx]; subst; simpl; [|apply He].
  apply convert_image_sizes_nonneg in Heq as [? ?]. by apply Hr.
Qed.

End WithCodec.
End SizeFacts.

Ltac wp_sized_step :=
  lazymatch goal with
  | |- post (Fs.stat_size _) _ _ =>
      apply SizeFacts.post_stat_size; [intros ? ? ? | intros ? ?];
      cbv beta iota
  | |- post (Core.convert_image _ _ _ _) _ _ =>
      apply SizeFacts.post_convert_image_sized;
      [intros ? ? ? ? | intros ? ?];
      cbv beta iota
  | |- _ => wp_step
  end.

Ltac wp_sized := repeat wp_sized_step.

(** ** Statistics that hang together *)

Module StatsProps.
Import Stats WalkFacts.

(** No field is negative; an original is deleted only after its file was
    converted or skipped; bytes are deleted only with an original, and
    input and output bytes are counted only with a conversion. *)
Record sane (replace : bool) (st : ConversionStats) : Prop := {
  sane_counters :
    0 ≤ scanned st ∧ 0 ≤ eligible st ∧ 0 ≤ converted st ∧
    0 ≤ skipped_existing st ∧ 0 ≤ deleted_originals st ∧ 0 ≤ failed st;
  sane_bytes :
    0 ≤ total_input_bytes st ∧ 0 ≤ total_output_bytes st ∧
    0 ≤ total_deleted_bytes st;
  sane_deleted :
    deleted_originals st ≤ converted st + skipped_existing st;
  sane_deleted_bytes :
    deleted_originals st = 0 → total_deleted_bytes st = 0;
  sane_converted_bytes :
    converted st = 0 → total_input_bytes st = 0 ∧ total_output_bytes st = 0;
  sane_no_replace :
    replace = false → deleted_originals st = 0
}.

Ltac sane_arith :=
  let Hc := fresh "Hc" in
  let Hb := fresh "Hb" in
  let Hd := fresh "Hd" in
  let Hdb := fresh "Hdb" in
  let Hcb := fresh "Hcb" in
  let Hnr := fresh "Hnr" in
  match goal with
  | H : sane _ _ |- _ => destruct H as [Hc Hb Hd Hdb Hcb Hnr]
  end;
  split; simpl in *;
  lazymatch goal with
  | |- _ = false → _ =>
      let Hrep := fresh "Hrep" in
      intros Hrep; try discriminate Hrep; try specialize (Hnr Hrep)
  | |- _ = 0 → _ => intros ?
  | |- _ => idtac
  end;
  lia.

Section WithCodec.
Context `{Codec}.

Lemma sane_fresh rep : sane rep fresh.
Proof. split; simpl; lia. Qed.

Lemma convert_one_sane src q ow rep s :
  sane rep (locals s) →
  post (LegacyCli.convert_one src q ow rep) s
    (λ _ s', sane rep (locals s')).
Proof.
  intros Hinv. unfold LegacyCli.convert_one, LegacyCli.to_webp_path.
  wp_sized; simpl; sane_arith.
Qed.

Lemma process_sane args src s :
  sane (arg_replace args) (locals s) →
  post (Cli.process args src) s
    (λ _ s', sane (arg_replace args) (locals s')).
Proof.
  intros Hinv. unfold Cli.process, Cli.delete_original.
  destruct (arg_replace args); wp_sized; simpl; sane_arith.
Qed.

End WithCodec.

(** X4.  The statistics a batch run ends with hang together, for the
    legacy walker and for the package CLI alike, whether the run returns
    or raises: no counter and no byte total is negative;
    [deleted_originals <= converted + skipped_existing];
    [total_deleted_bytes] is 0 while nothing was deleted, and so are
    [total_input_bytes] and [total_output_bytes] while nothing was
    converted; without [replace], [deleted_originals] is 0.  What the
    legacy walker returns are the statistics it ends with. *)
Theorem batch_statistics_are_sane :
  (∀ (C : Codec) directory quality recursive overwrite replace
     (s : Run ConversionStats),
     let end_ :=
       LegacyCli.convert_to_webp directory quality recursive overwrite
         replace s in
     sane replace (locals end_.2) ∧
     ∀ st, end_.1 = Return st → st = locals end_.2) ∧
  (∀ (C : Codec) (E : PathEnv) args w,
     sane (arg_replace args) (locals (Cli.run_cli args (MkRun w fresh)).2)).
Proof.
  split.
  - intros C directory quality recursive overwrite replace s. cbv zeta.
    apply (legacy_walk_inv (sane replace) directory quality recursive
             overwrite replace s (sane_fresh replace)
             (λ src s1, convert_one_sane src quality overwrite replace s1)).
  - intros C E args w.
    apply (cli_walk_inv (sane (arg_replace args)) args w).
    + apply sane_fresh.
    + intros n st Hn [Hc ? ? ? ? ?]. split; try done. simpl. lia.
    + intros src s1 _. apply process_sane.
Qed.

End StatsProps.

(** ** Files a batch run leaves alone *)

Module BatchKeepProps.
Import Stats ConvertFacts KeepFacts.

Section WithCodec.
Context `{Codec}.

Global Instance keeps_count_files {L} R `{!FsRel R} l :
  Keeps (L:=L) R (Cli.count_files l).
Proof. induction l; simpl; apply _. Qed.

(** *** The legacy walker *)

Global Instance convert_one_grows src q ow :
  Keeps grows (LegacyCli.convert_one src q ow false).
Proof.
  unfold LegacyCli.convert_one, LegacyCli.to_webp_path. cbn iota. apply _.
Qed.

(** A conversion that only runs when its target is free, and only
    touches its target, adds to the world. *)
Global Instance guarded_conversion_extends {L A} dst (skip conv : M L A) :
  Keeps extends skip → Keeps (only_at dst) conv →
  Keeps extends
    (bind (Fs.path_exists dst) (λ ex, if ex && true then skip else conv)).
Proof.
  intros Hskip Hconv s. unfold bind. rewrite FsFacts.path_exists_run.
  set (s1 := MkRun (Fs.log (OpExists dst) (world s)) (locals s)).
  destruct (Fs.refused (world s) dst) eqn:Href;
    [apply (fsrel_log (R:=extends))|].
  destruct (Fs.exists_at (world s) dst) eqn:Hex; cbn [andb].
  - apply (Hskip s1).
  - eapply only_at_free_extends; [|apply (Hconv s1)].
    by apply FsFacts.not_exists_at_free.
Qed.

Global Instance convert_one_extends src q :
  Keeps extends (LegacyCli.convert_one src q false false).
Proof.
  unfold LegacyCli.convert_one, LegacyCli.to_webp_path. cbn [negb].
  cbn iota. apply _.
Qed.

(** *** The package CLI *)

Lemma process_grows args src :
  arg_replace args = false → Keeps grows (Cli.process args src).
Proof. intros Hrep. unfold Cli.process. rewrite Hrep. apply _. Qed.

Lemma process_extends args src :
  arg_replace args = false → arg_overwrite args = false →
  Keeps extends (Cli.process args src).
Proof. intros Hrep Hov. unfold Cli.process. rewrite Hrep, Hov. apply _. Qed.

Lemma run_cli_grows `{PathEnv} args :
  arg_replace args = false → Keeps grows (Cli.run_cli args).
Proof.
  intros Hrep. pose proof (λ src, process_grows args src Hrep) as Hbody.
  unfold Cli.run_cli, Cli.iter_images. apply _.
Qed.

Lemma run_cli_extends `{PathEnv} args :
  arg_replace args = false → arg_overwrite args = false →
  Keeps extends (Cli.run_cli args).
Proof.
  intros Hrep Hov.
  pose proof (λ src, process_extends args src Hrep Hov) as Hbody.
  unfold Cli.run_cli, Cli.iter_images. apply _.
Qed.

End WithCodec.

(** X5.  Without [replace], a batch run removes nothing: every file and
    directory that exists before the run exists after it.  So it is for the
    legacy walker and for the package CLI, whatever the run converts,
    overwrites or fails on. *)
Theorem batch_without_replace_removes_nothing :
  (∀ (C : Codec) directory quality recursive overwrite
     (s : Run ConversionStats) p,
     is_Some (nodes (world s) !! p) →
     is_Some (nodes (world (LegacyCli.convert_to_webp directory quality
                              recursive overwrite false s).2) !! p)) ∧
  (∀ (C : Codec) (E : PathEnv) args (s : Run ConversionStats) p,
     arg_replace args = false →
     is_Some (nodes (world s) !! p) →
     is_Some (nodes (world (Cli.run_cli args s).2) !! p)).
Proof.
  split.
  - intros C directory quality recursive overwrite s.
    apply (keeps (R:=grows)
             (m:=LegacyCli.convert_to_webp directory quality recursive
                   overwrite false)).
  - intros C E args s p Hrep.
    apply (run_cli_grows args Hrep s).
Qed.

(** X6.  Without [replace] and without [overwrite], a batch run changes no
    file that is there: the filesystem after the run holds every entry it
    held before with the same content, and new [.webp] files besides. *)
Theorem batch_without_overwrite_changes_nothing :
  (∀ (C : Codec) directory quality recursive (s : Run ConversionStats),
     nodes (world s)
       ⊆ nodes (world (LegacyCli.convert_to_webp directory quality recursive
                         false false s).2)) ∧
  (∀ (C : Codec) (E : PathEnv) args (s : Run ConversionStats),
     arg_replace args = false → arg_overwrite args = false →
     nodes (world s) ⊆ nodes (world (Cli.run_cli args s).2)).
Proof.
  split.
  - intros C directory quality recursive s.
    apply (keeps (R:=extends)
             (m:=LegacyCli.convert_to_webp directory quality recursive
                   false false)).
  - intros C E args s Hrep Hov.
    apply (run_cli_extends args Hrep Hov s).
Qed.

End BatchKeepProps.

(** ** Where an upload is written *)

Module OutPathFacts.
Import PathLib PathFacts.

Lemma has_char_take c i s :
  PyStr.has_char c s = false → PyStr.has_char c (PyStr.take i s) = false.
Proof.
  revert i. induction s as [|a s IH]; intros [|i]; simpl; try done.
  intros [-> Hs]%orb_false_iff. simpl. by apply IH.
Qed.

Lemma has_char_append c a b :
  PyStr.has_char c (a +:+ b) = PyStr.has_char c a || PyStr.has_char c b.
Proof.
  induction a as [|x a IH]; simpl; [done|].
  change (String.append a b) with (a +:+ b). by rewrite IH, orb_assoc.
Qed.

Lemma last_in_list (l : list string) : l ≠ [] → List.last l "" ∈ l.
Proof.
  induction l as [|x l IH]; [done|]. intros _.
  destruct l as [|y l]; simpl; [left|]. right. by apply IH.
Qed.

(** The name of a parsed path, when there is one, is a clean segment. *)
Lemma name_clean s : name (Path s) ≠ "" → clean (name (Path s)).
Proof.
  unfold name. intros Hname.
  destruct (segs (Path s)) as [|x l] eqn:Hsegs; [done|].
  apply (Path_segs_clean s). rewrite Hsegs. by apply last_in_list.
Qed.

(** A supported extension is not empty. *)
Lemma supported_suffix sfx :
  PyStr.lower sfx ∈ Core.SUPPORTED_EXTENSIONS → sfx ≠ "".
Proof. intros Hsup ->. revert Hsup. by vm_compute. Qed.

Lemma legacy_supported_suffix sfx :
  PyStr.lower sfx ∈ LegacyWeb.SUPPORTED_EXTENSIONS → sfx ≠ "".
Proof. intros Hsup ->. revert Hsup. by vm_compute. Qed.

(** The name under which an upload with an extension is written: its
    stem, which is neither empty nor holds a separator, followed by
    [.webp]. *)
Lemma webp_name_clean s :
  suffix (Path s) ≠ "" → clean (stem (Path s) +:+ ".webp").
Proof.
  intros Hsup. unfold suffix, stem in *.
  destruct (suffix_start (name (Path s))) as [i|] eqn:Hstart; [|done].
  assert (name (Path s) ≠ "") as Hname.
  { intros Heq. rewrite Heq in Hstart. discriminate. }
  destruct (name_clean s Hname) as [_ Hsep].
  assert (0 < i)%nat as Hi.
  { unfold suffix_start in Hstart. destruct (PyStr.rfind _ _); [|done].
    destruct ((0 <? n)%nat) eqn:Hn; simpl in Hstart; [|done].
    apply Nat.ltb_lt in Hn. destruct (_ <? _)%nat; by simplify_eq. }
  split.
  - unfold keep_seg.
    destruct (name (Path s)) as [|a nm]; [done|].
    destruct i as [|i]; [lia|]. simpl.
    unfold PyStr.eqb. rewrite bool_decide_eq_false_2; [done|].
    destruct (PyStr.take i nm); discriminate.
  - rewrite has_char_append, (has_char_take _ _ _ Hsep). reflexivity.
Qed.

(** So the output path is one segment below the target directory,
    whatever name the upload came with. *)
Lemma out_path_below s target :
  suffix (Path s) ≠ "" →
  joinpath target (Path (stem (Path s) +:+ ".webp"))
  = MkPath (root target) (segs target ++ [stem (Path s) +:+ ".webp"]).
Proof.
  intros Hsup. unfold Path.
  rewrite (parse_parts_of_clean [_]).
  - reflexivity.
  - constructor; [by apply webp_name_clean | constructor].
Qed.

Lemma parent_snoc r l x : parent (MkPath r (l ++ [x])) = MkPath r l.
Proof. unfold parent. simpl. by rewrite removelast_last. Qed.

Lemma strip_prefix_app pre rest : strip_prefix pre (pre ++ rest) = Some rest.
Proof.
  induction pre as [|x pre IH]; simpl; [done|].
  by rewrite bool_decide_eq_true_2.
Qed.

(** A path within a directory has a path relative to it. *)
Lemma relative_to_within base t :
  within base t → ∃ rel, relative_to t base = Some rel.
Proof.
  intros [Hroot (rest & Hsegs)]. unfold relative_to.
  rewrite bool_decide_eq_true_2 by done.
  rewrite Hsegs, strip_prefix_app. by eexists.
Qed.

Lemma within_snoc base t x :
  within base t → within base (MkPath (root t) (segs t ++ [x])).
Proof.
  intros [Hroot (rest & Hsegs)]. split; [done|].
  exists (rest ++ [x]). simpl. by rewrite Hsegs, app_assoc.
Qed.

End OutPathFacts.

(** ** What an upload request changes *)

Module UploadFrame.
Import PathLib PathFacts OutPathFacts ConvertFacts Upload.

(** Only entries at paths that satisfy [P] differ; permissions and
    standard error are the same. *)
Definition only_where (P : PurePath → Prop) (w w' : World) : Prop :=
  (∀ q, P q ∨ nodes w' !! q = nodes w !! q) ∧
  readonly w' = readonly w ∧
  stderr w' = stderr w.

Global Instance only_where_rel P : FsRel (only_where P).
Proof.
  split.
  - intros w. split; [|done]. by right.
  - intros a b c (Hab & ? & ?) (Hbc & ? & ?). split; [|split; congruence].
    intros q. destruct (Hab q) as [?|Hq1]; [by left|].
    destruct (Hbc q) as [?|Hq2]; [by left|]. right. congruence.
  - intros w o. split; [|done]. by right.
Qed.

Lemma only_where_weaken (P P' : PurePath → Prop) w w' :
  (∀ q, P q → P' q) → only_where P w w' → only_where P' w w'.
Proof.
  intros HP (Hq & ? & ?). split; [|done].
  intros q. destruct (Hq q); [left; auto | by right].
Qed.

Lemma only_at_where out (P : PurePath → Prop) w w' :
  P out → only_at out w w' → only_where P w w'.
Proof.
  intros HP (Hq & ? & ?). split; [|done].
  intros q. destruct (decide (q = out)) as [-> | Hne]; [by left|].
  right. by apply Hq.
Qed.

Lemma keeps_at_where {L A} out (P : PurePath → Prop) (m : M L A) :
  P out → Keeps (only_at out) m → Keeps (only_where P) m.
Proof. intros HP Hm s. by eapply only_at_where. Qed.

Lemma keeps_where_weaken {L A} (P P' : PurePath → Prop) (m : M L A) :
  (∀ q, P q → P' q) → Keeps (only_where P) m → Keeps (only_where P') m.
Proof. intros HP Hm s. by eapply only_where_weaken. Qed.

(** *** Making the target directory *)

Section Mkdir.
Context {L : Type}.

Global Instance keeps_os_mkdir_at p : Keeps (L:=L) (only_at p) (FsDir.os_mkdir p).
Proof.
  apply keeps_world_op. intros w. simpl.
  repeat case_match; simpl;
    first [ apply (fsrel_log (R:=only_at p)) | apply only_at_logged_insert ].
Qed.

Global Instance keeps_exist_ok_arm R `{!FsRel R} p e :
  Keeps (L:=L) R (FsDir.exist_ok_arm p e).
Proof. unfold FsDir.exist_ok_arm. apply _. Qed.

Global Instance keeps_mkdir_exist_ok_at p :
  Keeps (L:=L) (only_at p) (FsDir.mkdir_exist_ok p).
Proof. unfold FsDir.mkdir_exist_ok. apply _. Qed.

(** [mkdir] with [parents] makes the path and, where missing, the
    directories above it, and nothing else. *)
Lemma keeps_mkdir_parents_from r rev_segs :
  Keeps (L:=L)
    (only_where (λ q, q = MkPath r (rev rev_segs) ∨ q ∈ ancestors r rev_segs))
    (FsDir.mkdir_parents_from r rev_segs).
Proof.
  induction rev_segs as [|x up IH].
  - simpl. apply (keeps_at_where (MkPath r [])); [by left|]. apply _.
  - set (P := λ q, q = MkPath r (rev (x :: up)) ∨ q ∈ ancestors r (x :: up)).
    assert (∀ A (m : M L A),
              Keeps (only_at (MkPath r (rev (x :: up)))) m →
              Keeps (only_where P) m) as Hhere.
    { intros A m. apply keeps_at_where. by left. }
    assert (Keeps (L:=L) (only_where P) (FsDir.mkdir_parents_from r up)) as Hup.
    { eapply keeps_where_weaken; [|exact IH].
      intros q [-> | Hq]; right; simpl; [left | by right]. }
    cbn [FsDir.mkdir_parents_from].
    apply keeps_try_except; [apply _ | apply Hhere, _ |].
    intros e. apply keeps_if; [| apply Hhere, _].
    apply keeps_bind; [apply _ | exact Hup |].
    intros _. apply Hhere, _.
Qed.

Lemma keeps_mkdir_parents target :
  Keeps (L:=L) (only_where (λ q, q = target ∨ q ∈ parents target))
    (FsDir.mkdir_parents target).
Proof.
  unfold FsDir.mkdir_parents.
  eapply keeps_where_weaken; [|apply keeps_mkdir_parents_from].
  intros q. unfold parents. rewrite rev_involutive.
  intros [-> | Hq]; [left; by destruct target | by right].
Qed.

End Mkdir.
End UploadFrame.

(** *** The loop over the uploaded files *)

Module UploadFrameFacts.
Import PathLib PathFacts OutPathFacts ConvertFacts Upload UploadFrame.

Lemma parent_below target x :
  parent (MkPath (root target) (segs target ++ [x])) = target.
Proof. rewrite parent_snoc. by destruct target. Qed.

Section Handlers.
Context `{Codec} `{PathEnv} `{Werkzeug}.

(** One pass of the loop writes, if at all, at one path directly inside
    the target directory. *)
Global Instance keeps_web_handle_file output_dir target quality ow f :
  Keeps (only_where (λ q, parent q = target))
    (Web.handle_file output_dir target quality ow f).
Proof.
  unfold Web.handle_file. destruct (unnamed f); [apply _|]. cbv zeta.
  destruct (bool_decide (_ ∈ Core.SUPPORTED_EXTENSIONS)) eqn:Hsup;
    cbn [negb]; [|apply _].
  apply bool_decide_eq_true_1, supported_suffix in Hsup.
  rewrite (out_path_below _ target Hsup).
  set (out := MkPath _ _).
  assert (∀ A (m : M Locals A),
            Keeps (only_at out) m →
            Keeps (only_where (λ q, parent q = target)) m) as Hout.
  { intros A m. apply keeps_at_where. apply parent_below. }
  apply keeps_bind; [apply _ | apply _ |]. intros data.
  apply keeps_if; [apply _|].
  apply keeps_bind; [apply _ | apply Hout, _ |]. intros res. apply _.
Qed.

Global Instance keeps_legacy_handle_file output_dir target quality ow f :
  Keeps (only_where (λ q, parent q = target))
    (LegacyWeb.handle_file output_dir target quality ow f).
Proof.
  unfold LegacyWeb.handle_file. destruct (unnamed f); [apply _|]. cbv zeta.
  destruct (bool_decide (_ ∈ LegacyWeb.SUPPORTED_EXTENSIONS)) eqn:Hsup;
    cbn [negb]; [|apply _].
  apply bool_decide_eq_true_1, legacy_supported_suffix in Hsup.
  rewrite (out_path_below _ target Hsup).
  set (out := MkPath _ _).
  assert (∀ img, Keeps (L:=Locals) (only_where (λ q, parent q = target))
                   (Pil.save img out quality)) as Hsave.
  { intros img. apply (keeps_at_where out); [apply parent_below | apply _]. }
  apply _.
Qed.

(** The directory [upload] works in, from the request, or the error
    with which the request fails before it. *)
Definition requested_target (output_dir : PurePath) (req : Request)
  : PyExn + PurePath :=
  SubdirClaims.resolved_target output_dir
    (Web.safe_subdir (default "" (form req !! "subdir"))).

(** The paths a request may change: the target directory, the
    directories above it, and the entries directly inside it. *)
Definition may_change (target q : PurePath) : Prop :=
  q = target ∨ q ∈ parents target ∨ parent q = target.

(** A request whose target does not resolve changes nothing. *)
Definition may_change_of (t : PyExn + PurePath) (q : PurePath) : Prop :=
  match t with
  | inr target => may_change target q
  | inl _ => False
  end.

Lemma same_but_trace_only_where P w w' :
  SubdirClaims.same_but_trace w w' → only_where P w w'.
Proof. intros (Hn & ? & _ & ?). split; [|done]. intros q. right. by rewrite Hn. Qed.

Lemma keeps_upload_loop {A} target (l : list A) (body : A → M Locals unit) :
  (∀ x, Keeps (only_where (λ q, parent q = target)) (body x)) →
  Keeps (only_where (may_change target)) (for_each l body).
Proof.
  intros Hbody.
  apply (keeps_where_weaken (λ q, parent q = target)); [|apply _].
  intros q Hq. right. by right.
Qed.

Lemma keeps_upload_mkdir target :
  Keeps (L:=Locals) (only_where (may_change target))
    (FsDir.mkdir_parents target).
Proof.
  eapply keeps_where_weaken; [|apply keeps_mkdir_parents].
  intros q [-> | Hq]; [by left | right; by left].
Qed.

(** What follows the guard in both handlers. *)
Lemma keeps_after_guard {A} target (l : list A) (body : A → M Locals unit)
    (answer : Locals → Response) :
  (∀ x, Keeps (only_where (λ q, parent q = target)) (body x)) →
  Keeps (only_where (may_change target))
    (FsDir.mkdir_parents target ;;
     for_each l body ;;
     l ← get_locals;
     ret (answer l)).
Proof.
  intros Hbody.
  apply keeps_bind; [apply _ | apply keeps_upload_mkdir |]. intros _.
  apply keeps_bind; [apply _ | by apply keeps_upload_loop |].
  intros _. apply _.
Qed.

Lemma keeps_web_upload output_dir req :
  Keeps (only_where (may_change_of (requested_target output_dir req)))
    (Web.upload output_dir req).
Proof.
  intros s. unfold Web.upload. cbv zeta.
  unfold bind at 1. unfold modify at 1. cbv beta iota.
  unfold bind at 1.
  destruct (SubdirClaims.target_dir_of_run output_dir
              (Web.safe_subdir (default "" (form req !! "subdir")))
              (MkRun (world s) fresh)) as (w' & Hsame & ->).
  fold (requested_target output_dir req).
  cbn [world] in Hsame.
  destruct (requested_target output_dir req) as [e|target];
    cbn [SubdirClaims.outcome_of may_change_of].
  - cbn [snd world]. by apply same_but_trace_only_where.
  - eapply (fsrel_trans (R:=only_where (may_change target)));
      [by apply same_but_trace_only_where|].
    exact (keeps_after_guard target (files req) _ _ _ (MkRun w' fresh)).
Qed.

Lemma keeps_legacy_upload output_dir req :
  Keeps (only_where (may_change_of (requested_target output_dir req)))
    (LegacyWeb.upload output_dir req).
Proof.
  intros s. unfold LegacyWeb.upload. cbv zeta.
  unfold bind at 1. unfold modify at 1. cbv beta iota.
  unfold bind at 1. rewrite SubdirClaims.target_dir_legacy.
  destruct (SubdirClaims.target_dir_of_run output_dir
              (Web.safe_subdir (default "" (form req !! "subdir")))
              (MkRun (world s) fresh)) as (w' & Hsame & Hrun).
  change (LegacyWeb.safe_subdir (default "" (form req !! "subdir")))
    with (Web.safe_subdir (default "" (form req !! "subdir"))).
  rewrite Hrun.
  fold (requested_target output_dir req).
  cbn [world] in Hsame.
  destruct (requested_target output_dir req) as [e|target];
    cbn [SubdirClaims.outcome_of may_change_of].
  - cbn [snd world]. by apply same_but_trace_only_where.
  - eapply (fsrel_trans (R:=only_where (may_change target)));
      [by apply same_but_trace_only_where|].
    exact (keeps_after_guard target (files req) _ _ _ (MkRun w' fresh)).
Qed.

End Handlers.

(** What may change lies inside the output root, or is a directory above
    the root. *)
Lemma may_change_inside base target q :
  within base target → may_change target q →
  within base q ∨ q ∈ parents base.
Proof.
  intros [Hroot (rest & Hsegs)] [-> | [Hq | Hq]].
  - left. split; [done | eauto].
  - apply elem_of_parents in Hq as [Hr (k & Hk & Hq)].
    destruct (prefix_weak_total (segs base) (segs q) (segs target))
      as [[m Hm] | [m Hm]].
    + by exists rest.
    + by exists k.
    + left. split; [congruence | eauto].
    + destruct m as [|y m].
      * left. split; [congruence|]. exists []. by rewrite Hm, !app_nil_r.
      * right. apply elem_of_parents. split; [congruence|].
        exists (y :: m). done.
  - left. destruct q as [qr qs]. unfold parent in Hq. simpl in Hq.
    subst target. simpl in *. split; [done|]. simpl.
    destruct qs as [|x qs' _] using rev_ind.
    + simpl in Hsegs. symmetry in Hsegs.
      apply app_eq_nil in Hsegs as [-> ->]. by exists [].
    + rewrite removelast_last in Hsegs. exists (rest ++ [x]).
      by rewrite Hsegs, app_assoc.
Qed.

End UploadFrameFacts.

Module UploadFrameProps.
Import PathLib PathFacts ConvertFacts Upload UploadFrame UploadFrameFacts.

(** X7.  Whatever the request, the uploaded files and the names they come
    with, an upload request handled by either application changes the
    filesystem only at the target directory (which it may create), at the
    directories above it (which it may create), and at entries directly
    inside the target directory: every other path holds after the request
    what it held before, and nothing changes at all where the target does
    not resolve.  Permissions and standard error are as before. *)
Theorem upload_changes_only_target_dir `{Codec} `{PathEnv} `{Werkzeug}
    (output_dir : PurePath) (req : Request) (s : Run Locals) (q : PurePath) :
  (∀ target, requested_target output_dir req = inr target →
     q ≠ target ∧ parent q ≠ target ∧ q ∉ parents target) →
  (nodes (world (Web.upload output_dir req s).2) !! q = nodes (world s) !! q ∧
   readonly (world (Web.upload output_dir req s).2) = readonly (world s) ∧
   stderr (world (Web.upload output_dir req s).2) = stderr (world s)) ∧
  (nodes (world (LegacyWeb.upload output_dir req s).2) !! q
     = nodes (world s) !! q ∧
   readonly (world (LegacyWeb.upload output_dir req s).2)
     = readonly (world s) ∧
   stderr (world (LegacyWeb.upload output_dir req s).2) = stderr (world s)).
Proof.
  intros Hfar.
  assert (¬ may_change_of (requested_target output_dir req) q) as Hq.
  { destruct (requested_target output_dir req) as [e|target];
      [by intros []|].
    destruct (Hfar target eq_refl) as (? & ? & ?).
    intros [? | [? | ?]]; done. }
  split.
  - destruct (keeps_web_upload output_dir req s) as (Hn & ? & ?).
    split; [|done]. by destruct (Hn q).
  - destruct (keeps_legacy_upload output_dir req s) as (Hn & ? & ?).
    split; [|done]. by destruct (Hn q).
Qed.

Lemma upload_changes_only_target_dir_witness :
  let output_dir := MkPath "/" ["srv"; "out"] in
  let req := MkRequest [MkFile (Some "a.png") ["R"%byte; "x"%byte]] ∅ in
  let s := MkRun (Sample.world_of [(MkPath "/" [], Dir)] []) fresh in
  let q := MkPath "/" ["etc"; "passwd"] in
  (∀ target, requested_target output_dir req = inr target →
     q ≠ target ∧ parent q ≠ target ∧ q ∉ parents target) ∧
  requested_target output_dir req = inr (MkPath "/" ["srv"; "out"]) ∧
  nodes (world (Web.upload output_dir req s).2) !! q = nodes (world s) !! q ∧
  nodes (world (LegacyWeb.upload output_dir req s).2) !! q
    = nodes (world s) !! q.
Proof.
  cbv zeta.
  assert (requested_target (MkPath "/" ["srv"; "out"])
            (MkRequest [MkFile (Some "a.png") ["R"%byte; "x"%byte]] ∅)
          = inr (MkPath "/" ["srv"; "out"])) as Ht
    by (by vm_compute).
  assert (∀ target,
            requested_target (MkPath "/" ["srv"; "out"])
              (MkRequest [MkFile (Some "a.png") ["R"%byte; "x"%byte]] ∅)
            = inr target →
            MkPath "/" ["etc"; "passwd"] ≠ target ∧
            parent (MkPath "/" ["etc"; "passwd"]) ≠ target ∧
            MkPath "/" ["etc"; "passwd"] ∉ parents target) as Hhyp.
  { intros target. rewrite Ht. intros [= <-].
    split; [done|]. split; [done|].
    apply (bool_decide_unpack _). by vm_compute. }
  split; [exact Hhyp|]. split; [exact Ht|].
  destruct (upload_changes_only_target_dir _ _
              (MkRun (Sample.world_of [(MkPath "/" [], Dir)] []) fresh) _ Hhyp)
    as ((Hw & _) & (Hl & _)).
  split; [exact Hw | exact Hl].
Defined.

(** X8.  An upload request handled by either application changes nothing
    outside the resolved output directory, whatever subdirectory the request
    asks for and whatever names the files come with: a path that is neither
    the output directory, nor below it, nor one of the directories above it
    holds after the request what it held before. *)
Theorem upload_changes_nothing_outside_root `{Codec} `{PathEnv} `{Werkzeug}
    (output_dir : PurePath) (req : Request) (s : Run Locals) (q : PurePath) :
  (∀ base, realpath output_dir = inr base →
     ¬ within base q ∧ q ∉ parents base) →
  nodes (world (Web.upload output_dir req s).2) !! q = nodes (world s) !! q ∧
  nodes (world (LegacyWeb.upload output_dir req s).2) !! q
    = nodes (world s) !! q.
Proof.
  intros Hout.
  assert (¬ may_change_of (requested_target output_dir req) q) as Hq.
  { destruct (requested_target output_dir req) as [e|target] eqn:Ht;
      [by intros []|].
    apply SubdirClaims.resolved_target_within in Ht as (base & Hbase & Hw).
    destruct (Hout base Hbase) as [Hnot Hanc].
    intros Hq. cbn [may_change_of] in Hq.
    destruct (may_change_inside base target q Hw Hq); done. }
  split.
  - destruct (keeps_web_upload output_dir req s) as (Hn & _).
    by destruct (Hn q).
  - destruct (keeps_legacy_upload output_dir req s) as (Hn & _).
    by destruct (Hn q).
Qed.

Lemma upload_changes_nothing_outside_root_witness :
  let output_dir := MkPath "/" ["srv"; "out"] in
  let req :=
    MkRequest [MkFile (Some "../../etc/passwd.png") ["R"%byte; "x"%byte]]
      {[ "subdir" := "../../etc" ]} in
  let s := MkRun (Sample.world_of [(MkPath "/" [], Dir)] []) fresh in
  let q := MkPath "/" ["etc"; "passwd.webp"] in
  (∀ base, realpath output_dir = inr base →
     ¬ within base q ∧ q ∉ parents base) ∧
  realpath output_dir = inr output_dir ∧
  nodes (world (Web.upload output_dir req s).2) !! q = nodes (world s) !! q ∧
  nodes (world (LegacyWeb.upload output_dir req s).2) !! q
    = nodes (world s) !! q.
Proof.
  cbv zeta.
  assert (realpath (MkPath "/" ["srv"; "out"])
          = inr (MkPath "/" ["srv"; "out"])) as Hr
    by (by vm_compute).
  assert (∀ base, realpath (MkPath "/" ["srv"; "out"]) = inr base →
            ¬ within base (MkPath "/" ["etc"; "passwd.webp"]) ∧
            MkPath "/" ["etc"; "passwd.webp"] ∉ parents base) as Hhyp.
  { intros base. rewrite Hr. intros [= <-]. split.
    - intros [_ (rest & Hsegs)]. discriminate.
    - apply (bool_decide_unpack _). by vm_compute. }
  split; [exact Hhyp|]. split; [exact Hr|].
  exact (upload_changes_nothing_outside_root _ _ _ _ Hhyp).
Defined.

End UploadFrameProps.

(** ** What an upload request reports *)

Module TallyFacts.
Import PathLib PathFacts OutPathFacts Upload.

(** The names of the uploaded parts that have one, in order. *)
Definition named (l : list FileStorage) : list string :=
  omap (λ f, if unnamed f then None else Some (default "" (filename f))) l.

(** How many items have a status, and the sum of a field over the items. *)
Definition with_status (st : string) (rs : list UploadItemResult) : Z :=
  Z.of_nat (length (filter (λ r, status r = st) rs)).

Definition sum_of (f : UploadItemResult → Z) (rs : list UploadItemResult)
  : Z :=
  foldr (λ r acc, f r + acc) 0 rs.

(** An item as the handlers make them: only a converted item has sizes,
    and a failed item has no output path. *)
Record well_formed (r : UploadItemResult) : Prop := {
  wf_status : status r ∈ ["converted"; "skipped"; "failed"];
  wf_converted : status r = "converted" → is_Some (output_relpath r);
  wf_failed : status r = "failed" → output_relpath r = None;
  wf_sizes :
    status r ≠ "converted" → input_bytes r = 0 ∧ output_bytes r = 0
}.

(** The local variables after the parts [pre] have been handled.  With
    [strict] the input total is the sum over the items; without, it is
    at least that sum. *)
Record tally (strict : bool) (pre : list FileStorage) (l : Locals)
  : Prop := {
  tally_names : original_name <$> results l = named pre;
  tally_items : Forall well_formed (results l);
  tally_converted : converted l = with_status "converted" (results l);
  tally_skipped : skipped l = with_status "skipped" (results l);
  tally_failed : failed l = with_status "failed" (results l);
  tally_out : total_out l = sum_of output_bytes (results l);
  tally_in :
    if strict then total_in l = sum_of input_bytes (results l)
    else sum_of input_bytes (results l) ≤ total_in l
}.

Lemma named_snoc pre f :
  named (pre ++ [f])
  = named pre ++ (if unnamed f then [] else [default "" (filename f)]).
Proof. unfold named. rewrite omap_app. simpl. by destruct (unnamed f). Qed.

Lemma with_status_snoc st rs r :
  with_status st (rs ++ [r])
  = with_status st rs + (if decide (status r = st) then 1 else 0).
Proof.
  unfold with_status. rewrite filter_app, length_app.
  rewrite filter_cons, filter_nil.
  destruct (decide (status r = st)); simpl; lia.
Qed.

Lemma sum_of_snoc f rs r : sum_of f (rs ++ [r]) = sum_of f rs + f r.
Proof. unfold sum_of. induction rs as [|x rs IH]; simpl; lia. Qed.

Lemma tally_fresh strict : tally strict [] fresh.
Proof. by destruct strict. Qed.

(** The statuses are three, so the three counters add up to the number
    of items. *)
Lemma with_status_total rs :
  Forall well_formed rs →
  with_status "converted" rs + with_status "skipped" rs
    + with_status "failed" rs = Z.of_nat (length rs).
Proof.
  induction rs as [|r rs IH] using rev_ind; intros Hwf; [done|].
  apply Forall_app in Hwf as [Hrs Hr%Forall_inv].
  rewrite !with_status_snoc, length_app. cbn [length].
  specialize (IH Hrs). destruct Hr as [Hst _ _ _].
  repeat (apply elem_of_cons in Hst as [-> | Hst]);
    [| | | by apply elem_of_nil in Hst];
    repeat case_decide; try done; lia.
Qed.

Lemma tally_total strict pre l :
  tally strict pre l →
  converted l + skipped l + failed l = Z.of_nat (length (named pre)).
Proof.
  intros [Hn Hwf -> -> -> _ _].
  rewrite with_status_total by done.
  by rewrite <- Hn, length_fmap.
Qed.

(** A part without a name leaves the tally as it is. *)
Lemma tally_unnamed strict pre f l :
  unnamed f = true → tally strict pre l → tally strict (pre ++ [f]) l.
Proof.
  intros Hf [? ? ? ? ? ? ?]. constructor; try done.
  by rewrite named_snoc, Hf, app_nil_r.
Qed.

(** One more named part, one more item: what each branch of the loop
    body does to the local variables. *)
Lemma tally_item (strict : bool) pre f l l' item :
  unnamed f = false →
  results l' = results l ++ [item] →
  original_name item = default "" (filename f) →
  well_formed item →
  (if strict return Prop then total_in l' = total_in l + input_bytes item
   else total_in l + input_bytes item ≤ total_in l') →
  total_out l' = total_out l + output_bytes item →
  converted l'
    = converted l + (if decide (status item = "converted") then 1 else 0) →
  skipped l'
    = skipped l + (if decide (status item = "skipped") then 1 else 0) →
  failed l' = failed l + (if decide (status item = "failed") then 1 else 0) →
  tally strict pre l →
  tally strict (pre ++ [f]) l'.
Proof.
  intros Hf Hres Hname Hwf Hin Ho Hc' Hs' Hf' [Hn Hitems Hc Hs Hfl Hout Hti].
  constructor; rewrite ?Hres.
  - by rewrite fmap_app, Hn, named_snoc, Hf, <- Hname.
  - apply Forall_app. split; [done|]. by constructor.
  - by rewrite with_status_snoc, Hc', Hc.
  - by rewrite with_status_snoc, Hs', Hs.
  - by rewrite with_status_snoc, Hf', Hfl.
  - by rewrite sum_of_snoc, Ho, Hout.
  - rewrite sum_of_snoc. destruct strict; lia.
Qed.

(** A loop whose body carries [I] from the elements handled so far to
    one more ends with [I] of the whole list, or raises what the body
    raised on one of the elements. *)
Lemma post_for_each_from {L A} (I : list A → L → Prop)
    (E : A → BaseExn → Prop) (pre l : list A)
    (body : A → M L unit) (s : Run L) :
  (∀ pre x s', I pre (locals s') →
     post (body x) s' (λ r s'', match r with
                                | Return _ => I (pre ++ [x]) (locals s'')
                                | Raise e => E x e
                                end)) →
  I pre (locals s) →
  post (for_each l body) s (λ r s', match r with
                                    | Return _ => I (pre ++ l) (locals s')
                                    | Raise e => ∃ x, x ∈ l ∧ E x e
                                    end).
Proof.
  intros Hbody. revert pre s. induction l as [|x l IH]; intros pre s HI; simpl.
  - apply post_ret. by rewrite app_nil_r.
  - apply post_bind. eapply post_mono; [by apply Hbody|].
    intros [[]|e] s' HI'; cbv beta iota.
    + replace (pre ++ x :: l) with ((pre ++ [x]) ++ l)
        by (by rewrite <- app_assoc).
      eapply post_mono; [by apply IH|].
      intros [[]|e] s'' Hend; [done|].
      destruct Hend as (y & Hy & He). exists y. split; [by right | done].
    + exists x. split; [by left | done].
Qed.

(** The path of an output within the output directory has a relative
    form. *)
Lemma relpath_str_returns {L} out base :
  within base out → Returns (L:=L) (relpath_str out base).
Proof.
  intros Hw s. destruct (relative_to_within _ _ Hw) as [rel Hrel].
  exists (as_posix rel), (world s). unfold relpath_str.
  rewrite Hrel. by destruct s.
Qed.

(** The errors with which the kernel refuses a path. *)
Definition refusal (p : PurePath) (x : PyExn) : Prop :=
  x = Fs.EACCES p ∨ x = Fs.ENAMETOOLONG p.

Lemma refused_from_refusal w p r done_rev todo x :
  Fs.refused_from w p r done_rev todo = Some x → refusal p x.
Proof.
  revert done_rev. induction todo as [|y rest IH]; intros done_rev; simpl;
    [done|].
  destruct (nodes w !! MkPath r (rev done_rev)) as [[d|]|]; try done.
  case_bool_decide; [intros [= <-]; by left|].
  destruct (Fs.NAME_MAX <? String.length y)%nat;
    [intros [= <-]; by right | apply IH].
Qed.

Lemma refused_refusal w p x : Fs.refused w p = Some x → refusal p x.
Proof. apply refused_from_refusal. Qed.

Section Steps.
Context {L : Type}.

(** The existence test raises only a refusal of its path. *)
Lemma post_path_exists p (s : Run L) (Q : outcome bool → Run L → Prop) :
  (∀ b w, Q (Return b) (MkRun w (locals s))) →
  (∀ x w, refusal p x → Q (Raise (Exc x)) (MkRun w (locals s))) →
  post (Fs.path_exists p) s Q.
Proof.
  intros Hr He. unfold post. rewrite FsFacts.path_exists_run.
  destruct (Fs.refused (world s) p) as [x|] eqn:Href; cbn [fst snd].
  - apply He. by eapply refused_refusal.
  - apply Hr.
Qed.

(** [convert_image] raises only a refusal of its output path. *)
Lemma post_convert_image `{Codec} input out q ow (s : Run L)
    (Q : outcome Core.ConversionResult → Run L → Prop) :
  (∀ res w, Q (Return res) (MkRun w (locals s))) →
  (∀ x w, refusal out x → Q (Raise (Exc x)) (MkRun w (locals s))) →
  post (Core.convert_image input out q ow) s Q.
Proof.
  intros Hr He. unfold post.
  pose proof (tame (m:=Core.convert_image input out q ow) s) as Ht.
  pose proof (ResultProps.convert_image_sizes input out q ow s) as Hsz.
  destruct (Core.convert_image input out q ow s) as [r s'].
  inversion Ht as [res w Hres | x w Hx]; subst; cbn [fst snd].
  - apply Hr.
  - destruct Hsz as (x' & [= <-] & Href & _). apply He.
    by eapply refused_refusal.
Qed.

End Steps.

(** The path at which an uploaded part is written. *)
Definition out_path_of `{Werkzeug} (target : PurePath) (f : FileStorage)
  : PurePath :=
  joinpath target
    (Path (stem (Path (secure_filename (default "" (filename f))))
           +:+ ".webp")).

End TallyFacts.

Module TallySteps.
Import PathLib PathFacts OutPathFacts Upload TallyFacts UploadFrameFacts.

Global Instance tame_exist_ok_arm {L} p e :
  Tame (L:=L) (FsDir.exist_ok_arm p e).
Proof. unfold FsDir.exist_ok_arm. destruct (FsDir.is_oserror e); apply _. Qed.

Global Instance tame_mkdir_exist_ok {L} p : Tame (L:=L) (FsDir.mkdir_exist_ok p).
Proof.
  unfold FsDir.mkdir_exist_ok. apply tame_try_except; [apply _|].
  intros e. destruct (FsDir.is_not_found e); apply _.
Qed.

Global Instance tame_mkdir_parents_from {L} r rev_segs :
  Tame (L:=L) (FsDir.mkdir_parents_from r rev_segs).
Proof.
  induction rev_segs as [|x up IH]; cbn [FsDir.mkdir_parents_from];
    (apply tame_try_except; [apply _|]);
    intros e; destruct (FsDir.is_not_found e); apply _.
Qed.

Global Instance tame_mkdir_parents {L} p : Tame (L:=L) (FsDir.mkdir_parents p).
Proof. unfold FsDir.mkdir_parents. apply _. Qed.

Ltac in_list :=
  solve [repeat first [apply list_elem_of_here | apply list_elem_of_further]].

Ltac counter_step :=
  cbn;
  lazymatch goal with
  | |- context [decide ?P] => destruct (decide P); first [done | lia]
  end.

Ltac item_well_formed :=
  constructor; cbn [status output_relpath input_bytes output_bytes];
  [ in_list
  | first [done | intros _; by eexists]
  | done
  | first [done | by intros []] ].

(** Closes a branch of the loop body that appended one item. *)
Ltac tally_leaf Hf :=
  lazymatch goal with
  | Hinv : tally ?strict ?pre (locals ?s) |- tally _ _ _ =>
      eapply (tally_item strict pre _ (locals s));
      [ exact Hf
      | cbn; reflexivity
      | reflexivity
      | item_well_formed
      | cbn; lia
      | cbn; lia
      | counter_step
      | counter_step
      | counter_step
      | exact Hinv ]
  end.

Ltac tally_step :=
  lazymatch goal with
  | |- post (Fs.path_exists _) _ _ =>
      apply post_path_exists; [intros ? ? | intros ? ? ?]; cbv beta iota
  | |- post (Core.convert_image _ _ _ _) _ _ =>
      apply post_convert_image; [intros ? ? | intros ? ? ?]; cbv beta iota
  | |- _ => wp_step
  end.

Section Handlers.
Context `{Codec} `{PathEnv} `{Werkzeug}.

(** What a pass of the loop on the part [f] may raise: the refusal of
    the path at which the part would be written. *)
Definition part_refused (target : PurePath) (f : FileStorage)
    (e : BaseExn) : Prop :=
  ∃ x, e = Exc x ∧ unnamed f = false ∧ refusal (out_path_of target f) x.

Lemma web_handle_file_tally output_dir target quality ow pre f s :
  within output_dir target →
  tally true pre (locals s) →
  post (Web.handle_file output_dir target quality ow f) s
    (λ r s', match r with
             | Return _ => tally true (pre ++ [f]) (locals s')
             | Raise e => part_refused target f e
             end).
Proof.
  intros Hw Hinv. unfold Web.handle_file.
  destruct (unnamed f) eqn:Hf.
  { apply post_ret. by apply tally_unnamed. }
  cbv zeta. fold (out_path_of target f).
  destruct (bool_decide (_ ∈ Core.SUPPORTED_EXTENSIONS)) eqn:Hsup;
    cbn [negb].
  - apply bool_decide_eq_true_1, supported_suffix in Hsup.
    assert (within output_dir (out_path_of target f)) as Hout.
    { unfold out_path_of. rewrite (out_path_below _ target Hsup).
      by apply within_snoc. }
    pose proof (relpath_str_returns (L:=Locals) _ _ Hout) as Hrel.
    repeat tally_step;
      first [ tally_leaf Hf | by eexists ].
  - wp. tally_leaf Hf.
Qed.

Lemma legacy_handle_file_tally output_dir target quality ow pre f s :
  within output_dir target →
  tally false pre (locals s) →
  post (LegacyWeb.handle_file output_dir target quality ow f) s
    (λ r s', match r with
             | Return _ => tally false (pre ++ [f]) (locals s')
             | Raise e => part_refused target f e
             end).
Proof.
  intros Hw Hinv. unfold LegacyWeb.handle_file.
  destruct (unnamed f) eqn:Hf.
  { apply post_ret. by apply tally_unnamed. }
  cbv zeta. fold (out_path_of target f).
  destruct (bool_decide (_ ∈ LegacyWeb.SUPPORTED_EXTENSIONS)) eqn:Hsup;
    cbn [negb].
  - apply bool_decide_eq_true_1, legacy_supported_suffix in Hsup.
    assert (within output_dir (out_path_of target f)) as Hout.
    { unfold out_path_of. rewrite (out_path_below _ target Hsup).
      by apply within_snoc. }
    pose proof (relpath_str_returns (L:=Locals) _ _ Hout) as Hrel.
    repeat tally_step;
      first [ tally_leaf Hf | by eexists ].
  - wp. tally_leaf Hf.
Qed.

End Handlers.
End TallySteps.

Module TallyProps.
Import PathLib PathFacts Upload TallyFacts TallySteps UploadFrameFacts.

(** What a response says about the parts of the request. *)
Definition accounts_for (strict : bool) (parts : list FileStorage)
    (resp : Response) : Prop :=
  let rs := resp_results resp in
  let sm := resp_summary resp in
  original_name <$> rs = named parts ∧
  Forall well_formed rs ∧
  sum_converted sm = with_status "converted" rs ∧
  sum_skipped sm = with_status "skipped" rs ∧
  sum_failed sm = with_status "failed" rs ∧
  sum_converted sm + sum_skipped sm + sum_failed sm
    = Z.of_nat (length (named parts)) ∧
  sum_total_output sm = sum_of output_bytes rs ∧
  (if strict return Prop then sum_total_input sm = sum_of input_bytes rs
   else sum_of input_bytes rs ≤ sum_total_input sm) ∧
  sum_saved sm = sum_total_input sm - sum_total_output sm ∧
  files_received sm = Z.of_nat (length parts).

Lemma tally_accounts strict parts l dir sub ow q :
  tally strict parts l →
  accounts_for strict parts
    (MkResponse (results l)
       (MkSummary (Z.of_nat (length parts)) (converted l) (skipped l)
          (failed l) (total_in l) (total_out l) (total_in l - total_out l)
          dir sub ow q)).
Proof.
  intros Ht.
  pose proof (tally_total _ _ _ Ht) as Htotal.
  destruct Ht as [? ? ? ? ? ? ?].
  unfold accounts_for. cbn. by repeat split.
Qed.

Section Handlers.
Context `{Codec} `{PathEnv} `{Werkzeug}.

(** Why a request is not answered: the requested directory or the output
    directory does not resolve; or the target directory cannot be made;
    or the path at which a named part would be written is refused by the
    kernel, which the existence test that stands outside every [try]
    raises. *)
Definition fails_with (output_dir : PurePath) (req : Request) (w : World)
    (x : PyExn) : Prop :=
  requested_target output_dir req = inl x ∨
  ∃ target, requested_target output_dir req = inr target ∧
    ((∃ w', SubdirClaims.same_but_trace w w' ∧
            (FsDir.mkdir_parents target (MkRun w' fresh)).1
            = Raise (Exc x)) ∨
     (∃ f, f ∈ files req ∧ unnamed f = false ∧
           refusal (out_path_of target f) x)).

(** What follows the guard in both handlers, for a loop body that keeps
    the tally. *)
Lemma after_guard_accounts strict target req w'
    (body : FileStorage → M Locals unit) dir sub ow q :
  (∀ pre f s', tally strict pre (locals s') →
     post (body f) s'
       (λ r s'', match r with
                 | Return _ => tally strict (pre ++ [f]) (locals s'')
                 | Raise e => part_refused target f e
                 end)) →
  match (FsDir.mkdir_parents target ;;
         for_each (files req) body ;;
         l ← get_locals;
         ret (MkResponse (results l)
                (MkSummary (Z.of_nat (length (files req))) (converted l)
                   (skipped l) (failed l) (total_in l) (total_out l)
                   (total_in l - total_out l) dir sub ow q)))
          (MkRun w' fresh)
  with
  | (Return resp, _) => accounts_for strict (files req) resp
  | (Raise e, _) =>
      ∃ x, e = Exc x ∧
           ((FsDir.mkdir_parents target (MkRun w' fresh)).1 = Raise (Exc x) ∨
            ∃ f, f ∈ files req ∧ unnamed f = false ∧
                 refusal (out_path_of target f) x)
  end.
Proof.
  intros Hbody. unfold bind at 1.
  pose proof (tame (m:=FsDir.mkdir_parents target) (MkRun w' fresh)) as Hmk.
  destruct (FsDir.mkdir_parents target (MkRun w' fresh)) as [r1 s1].
  inversion Hmk as [a w1 Hr | x w1 Hr]; subst;
    [|exists x; split; [done | by left]].
  cbn [locals]. unfold bind at 1.
  pose proof (post_for_each_from (tally strict) (part_refused target) []
                (files req) body (MkRun w1 fresh) Hbody (tally_fresh strict))
    as Hloop.
  unfold post in Hloop.
  destruct (for_each (files req) body (MkRun w1 fresh)) as [[[]|e] s2];
    cbn [fst snd] in Hloop.
  - unfold bind, get_locals, ret. cbv beta iota.
    by apply tally_accounts.
  - destruct Hloop as (f & Hf & x & -> & Hnamed & Href).
    exists x. split; [done|]. right. by exists f.
Qed.

Lemma resolved_root_within output_dir req target :
  realpath output_dir = inr output_dir →
  requested_target output_dir req = inr target →
  within output_dir target.
Proof.
  intros Hres Ht.
  apply SubdirClaims.resolved_target_within in Ht as (base & Hbase & Hw).
  congruence.
Qed.

Lemma web_upload_accounts output_dir req s :
  realpath output_dir = inr output_dir →
  match Web.upload output_dir req s with
  | (Return resp, _) => accounts_for true (files req) resp
  | (Raise e, _) =>
      ∃ x, e = Exc x ∧ fails_with output_dir req (world s) x
  end.
Proof.
  intros Hres. unfold Web.upload. cbv zeta.
  unfold bind at 1. unfold modify at 1. cbv beta iota.
  unfold bind at 1.
  destruct (SubdirClaims.target_dir_of_run output_dir
              (Web.safe_subdir (default "" (form req !! "subdir")))
              (MkRun (world s) fresh)) as (w' & Hsame & ->).
  cbn [world] in Hsame. unfold fails_with.
  fold (requested_target output_dir req).
  destruct (requested_target output_dir req) as [x|target] eqn:Ht;
    cbn [SubdirClaims.outcome_of].
  { exists x. split; [done | by left]. }
  pose proof (resolved_root_within output_dir req target Hres Ht) as Hw.
  cbn [locals].
  pose proof (after_guard_accounts true target req w'
                (Web.handle_file output_dir target
                   (Web.effective_quality
                      (default (str_of_int Core.DEFAULT_QUALITY)
                         (form req !! "quality")))
                   (bool_decide (form req !! "overwrite" = Some "on")))
                (as_posix output_dir)
                (as_posix (Web.safe_subdir (default "" (form req !! "subdir"))))
                (bool_decide (form req !! "overwrite" = Some "on"))
                (Web.effective_quality
                   (default (str_of_int Core.DEFAULT_QUALITY)
                      (form req !! "quality")))
                (λ pre f s' HI,
                   web_handle_file_tally _ _ _ _ pre f s' Hw HI)) as Hrest.
  lazymatch type of Hrest with
  | (let (_, _) := ?t in _) => destruct t as [[resp|e] s3]
  end; [done|].
  destruct Hrest as (x & -> & Hcause). exists x. split; [done|].
  right. exists target. split; [done|].
  destruct Hcause as [Hmk | Hpart]; [left; by exists w' | by right].
Qed.

Lemma legacy_upload_accounts output_dir req s :
  realpath output_dir = inr output_dir →
  match LegacyWeb.upload output_dir req s with
  | (Return resp, _) => accounts_for false (files req) resp
  | (Raise e, _) =>
      ∃ x, e = Exc x ∧ fails_with output_dir req (world s) x
  end.
Proof.
  intros Hres. unfold LegacyWeb.upload. cbv zeta.
  unfold bind at 1. unfold modify at 1. cbv beta iota.
  unfold bind at 1. rewrite SubdirClaims.target_dir_legacy.
  change (LegacyWeb.safe_subdir (default "" (form req !! "subdir")))
    with (Web.safe_subdir (default "" (form req !! "subdir"))).
  destruct (SubdirClaims.target_dir_of_run output_dir
              (Web.safe_subdir (default "" (form req !! "subdir")))
              (MkRun (world s) fresh)) as (w' & Hsame & ->).
  cbn [world] in Hsame. unfold fails_with.
  fold (requested_target output_dir req).
  destruct (requested_target output_dir req) as [x|target] eqn:Ht;
    cbn [SubdirClaims.outcome_of].
  { exists x. split; [done | by left]. }
  pose proof (resolved_root_within output_dir req target Hres Ht) as Hw.
  cbn [locals].
  pose proof (after_guard_accounts false target req w'
                (LegacyWeb.handle_file output_dir target
                   (LegacyWeb.effective_quality
                      (default (str_of_int LegacyWeb.DEFAULT_QUALITY)
                         (form req !! "quality")))
                   (bool_decide (form req !! "overwrite" = Some "on")))
                (as_posix output_dir)
                (as_posix (Web.safe_subdir (default "" (form req !! "subdir"))))
                (bool_decide (form req !! "overwrite" = Some "on"))
                (LegacyWeb.effective_quality
                   (default (str_of_int LegacyWeb.DEFAULT_QUALITY)
                      (form req !! "quality")))
                (λ pre f s' HI,
                   legacy_handle_file_tally _ _ _ _ pre f s' Hw HI))
    as Hrest.
  lazymatch type of Hrest with
  | (let (_, _) := ?t in _) => destruct t as [[resp|e] s3]
  end; [done|].
  destruct Hrest as (x & -> & Hcause). exists x. split; [done|].
  right. exists target. split; [done|].
  destruct Hcause as [Hmk | Hpart]; [left; by exists w' | by right].
Qed.

(** X9.  The request made by the application in [src/imgtowebp], whose
    output directory is a resolved path.  When the request is answered,
    the answer has one item for each uploaded part with a name, in the
    order of the parts and under the name each came with; every item is
    converted, skipped or failed; the three counters of the summary count
    the items of each status and add up to the number of named parts; the
    byte totals are the sums over the items; and only a converted item has
    sizes.  The request is not answered only when the requested directory
    does not resolve, or the target directory cannot be made, or the
    kernel refuses the path at which a named part would be written: the
    request raises that error. *)
Theorem web_upload_accounts_for_named_parts
    (output_dir : PurePath) (req : Request) (s : Run Locals) :
  realpath output_dir = inr output_dir →
  match Web.upload output_dir req s with
  | (Return resp, _) => accounts_for true (files req) resp
  | (Raise e, _) =>
      ∃ x, e = Exc x ∧ fails_with output_dir req (world s) x
  end.
Proof. apply web_upload_accounts. Qed.

(** X10.  The request made by the application in [webp_uploader], whose
    output directory is a resolved path.  When the request is answered,
    the answer has one item for each uploaded part with a name, in the
    order of the parts and under the name each came with; every item is
    converted, skipped or failed; the three counters of the summary count
    the items of each status and add up to the number of named parts; the
    output total is the sum over the items, and the input total is at
    least the sum over the items: it also counts the bytes of a part whose
    conversion then failed.  The request is not answered only when the
    requested directory does not resolve, or the target directory cannot
    be made, or the kernel refuses the path at which a named part would be
    written: the request raises that error. *)
Theorem legacy_upload_accounts_for_named_parts
    (output_dir : PurePath) (req : Request) (s : Run Locals) :
  realpath output_dir = inr output_dir →
  match LegacyWeb.upload output_dir req s with
  | (Return resp, _) => accounts_for false (files req) resp
  | (Raise e, _) =>
      ∃ x, e = Exc x ∧ fails_with output_dir req (world s) x
  end.
Proof. apply legacy_upload_accounts. Qed.

End Handlers.

Definition served_dir : PurePath := MkPath "/" ["srv"; "out"].
Definition served_world : World :=
  Sample.world_of
    [(MkPath "/" [], Dir); (MkPath "/" ["srv"], Dir); (served_dir, Dir)] [].
Definition mixed_request : Request :=
  MkRequest [MkFile (Some "corrupt.jpg") [x00; x01];
             MkFile None ["R"%byte];
             MkFile (Some "photo.png") ["R"%byte; x01; x02]]
    {[ "subdir" := "albums/../2024" ]}.

Lemma web_upload_accounts_witness :
  realpath served_dir = inr served_dir ∧
  match Web.upload served_dir mixed_request (MkRun served_world fresh) with
  | (Return resp, _) => accounts_for true (files mixed_request) resp
  | (Raise e, _) =>
      ∃ x, e = Exc x ∧ fails_with served_dir mixed_request served_world x
  end.
Proof.
  split; [reflexivity|].
  apply (web_upload_accounts_for_named_parts served_dir mixed_request
           (MkRun served_world fresh)).
  reflexivity.
Defined.

Lemma legacy_upload_accounts_witness :
  realpath served_dir = inr served_dir ∧
  match LegacyWeb.upload served_dir mixed_request (MkRun served_world fresh)
  with
  | (Return resp, _) => accounts_for false (files mixed_request) resp
  | (Raise e, _) =>
      ∃ x, e = Exc x ∧ fails_with served_dir mixed_request served_world x
  end.
Proof.
  split; [reflexivity|].
  apply (legacy_upload_accounts_for_named_parts served_dir mixed_request
           (MkRun served_world fresh)).
  reflexivity.
Defined.

(** The three ways in which a request is not answered, on the sample
    machine: a subdirectory with a NUL in its name, which the sanitiser
    lets through and the resolution refuses; an output directory that
    cannot be made below a regular file; and a file name whose [.webp]
    name is longer than the kernel takes. *)
Definition nul_request : Request :=
  MkRequest [MkFile (Some "photo.png") ["R"%byte; x01]]
    {[ "subdir" := String "a" (String "000" (String "b" "")) ]}.
Definition blocked_world : World :=
  Sample.world_of [(MkPath "/" [], Dir); (MkPath "/" ["srv"], File [])] [].
Definition long_request : Request :=
  MkRequest [MkFile (Some (string_of_list_ascii (repeat "a"%char 251)
                           +:+ ".png")) ["R"%byte; x01]] ∅.

Example unanswered_requests :
  (Web.upload served_dir nul_request (MkRun served_world fresh)).1
    = Raise (Exc (MkExn "ValueError" "embedded null byte")) ∧
  (LegacyWeb.upload served_dir nul_request (MkRun served_world fresh)).1
    = Raise (Exc (MkExn "ValueError" "embedded null byte")) ∧
  (Web.upload served_dir mixed_request (MkRun blocked_world fresh)).1
    = Raise (Exc (MkExn "NotADirectoryError"
                    "[Errno 20] Not a directory: '/srv/out'")) ∧
  (∃ x, (Web.upload served_dir long_request (MkRun served_world fresh)).1
        = Raise (Exc x) ∧ exn_class x = "OSError") ∧
  (∃ x, (LegacyWeb.upload served_dir long_request
           (MkRun served_world fresh)).1
        = Raise (Exc x) ∧ exn_class x = "OSError").
Proof.
  split; [by vm_compute|]. split; [by vm_compute|]. split; [by vm_compute|].
  split; (eexists; split; [by vm_compute | reflexivity]).
Qed.

(** On the sample machine the request is answered with two items, and
    the two applications differ in the input total: the older one counts
    the two bytes of the part that failed. *)
Example mixed_request_answers :
  match (Web.upload served_dir mixed_request (MkRun served_world fresh)).1,
        (LegacyWeb.upload served_dir mixed_request
           (MkRun served_world fresh)).1
  with
  | Return web, Return legacy =>
      status <$> resp_results web = ["failed"; "converted"] ∧
      status <$> resp_results legacy = ["failed"; "converted"] ∧
      output_relpath <$> resp_results web
        = [None; Some "albums/2024/photo.webp"] ∧
      input_bytes <$> resp_results legacy = [0; 3] ∧
      sum_total_input (resp_summary web) = 3 ∧
      sum_total_input (resp_summary legacy) = 5
  | _, _ => False
  end.
Proof. by vm_compute. Qed.

End TallyProps.

(** ** The path of an output *)

Module WebpPathFacts.
Import PathLib.

Lemma rfind_append c a b :
  PyStr.rfind c (a +:+ b)
  = match PyStr.rfind c b with
    | Some j => Some (String.length a + j)%nat
    | None => PyStr.rfind c a
    end.
Proof.
  induction a as [|x a IH].
  - change ("" +:+ b) with b. by destruct (PyStr.rfind c b).
  - change (String x a +:+ b) with (String x (a +:+ b)).
    cbn [PyStr.rfind String.length]. rewrite IH.
    by destruct (PyStr.rfind c b).
Qed.

Lemma length_append a b :
  String.length (a +:+ b) = (String.length a + String.length b)%nat.
Proof.
  induction a as [|x a IH]; simpl; [done|].
  change (String.append a b) with (a +:+ b). by rewrite IH.
Qed.

Lemma length_take i s :
  (i ≤ String.length s)%nat → String.length (PyStr.take i s) = i.
Proof.
  revert i. induction s as [|x s IH]; intros [|i]; simpl; try done; try lia.
  intros Hi. rewrite IH; lia.
Qed.

Lemma take_append a b : PyStr.take (String.length a) (a +:+ b) = a.
Proof.
  induction a as [|x a IH]; simpl; [by destruct b|].
  change (String.append a b) with (a +:+ b). by rewrite IH.
Qed.

Lemma drop_append a b : PyStr.drop (String.length a) (a +:+ b) = b.
Proof. induction a as [|x a IH]; simpl; [by destruct b | done]. Qed.

(** Where the suffix of a name starts, when it has one. *)
Lemma suffix_start_bounds nm i :
  suffix_start nm = Some i → (0 < i < String.length nm - 1)%nat.
Proof.
  unfold suffix_start. destruct (PyStr.rfind _ _) as [j|]; [|done].
  destruct (0 <? j)%nat eqn:H0; simpl; [|done].
  destruct (j <? String.length nm - 1)%nat eqn:H1; [|done].
  intros [= <-]. apply Nat.ltb_lt in H0, H1. lia.
Qed.

(** The name [stem + ".webp"] has the stem [stem] and the suffix
    [".webp"], whatever dots the stem holds. *)
Lemma suffix_start_webp a :
  a ≠ "" → suffix_start (a +:+ ".webp") = Some (String.length a).
Proof.
  intros Ha. unfold suffix_start. rewrite rfind_append.
  assert (PyStr.rfind "."%char ".webp" = Some 0%nat) as -> by reflexivity.
  rewrite Nat.add_0_r, length_append.
  change (String.length ".webp") with 5%nat.
  assert (0 < String.length a)%nat as Hlen by (destruct a; simpl; [done|lia]).
  rewrite (proj2 (Nat.ltb_lt _ _) Hlen).
  rewrite (proj2 (Nat.ltb_lt (String.length a) (String.length a + 5 - 1)))
    by lia.
  reflexivity.
Qed.

Lemma name_snoc r l x : name (MkPath r (l ++ [x])) = x.
Proof. unfold name. simpl. apply last_last. Qed.

(** What [with_suffix] makes of a path with a supported extension. *)
Lemma webp_path_facts (p : PurePath) :
  LegacyCli.should_convert p = true →
  ∃ d, with_suffix p ".webp" = Some d ∧
       parent d = parent p ∧
       stem d = stem p ∧
       suffix d = ".webp" ∧
       d ≠ p ∧
       LegacyCli.should_convert d = false ∧
       bool_decide (PyStr.lower (suffix d) ∈ Core.SUPPORTED_EXTENSIONS)
       = false.
Proof.
  intros Hsup. unfold LegacyCli.should_convert in Hsup.
  apply bool_decide_eq_true_1 in Hsup.
  assert (suffix p ≠ "") as Hsfx.
  { intros Heq. rewrite Heq in Hsup. revert Hsup. by vm_compute. }
  unfold with_suffix.
  assert (∃ i, suffix_start (name p) = Some i) as [i Hi].
  { unfold suffix in Hsfx. destruct (suffix_start (name p)); [eauto|done]. }
  pose proof (suffix_start_bounds _ _ Hi) as Hb.
  assert (PyStr.nonempty (name p) = true) as ->.
  { destruct (name p); [simpl in Hb; lia | done]. }
  cbn [negb]. eexists. split; [reflexivity|].
  assert (stem p ≠ "") as Hstem.
  { unfold stem. rewrite Hi. intros Heq.
    pose proof (length_take i (name p) ltac:(lia)) as Hlen.
    rewrite Heq in Hlen. simpl in Hlen. lia. }
  assert (suffix (MkPath (root p) (removelast (segs p) ++ [stem p +:+ ".webp"]))
          = ".webp") as Hdsfx.
  { unfold suffix. rewrite name_snoc, suffix_start_webp by done.
    apply drop_append. }
  split; [|split; [|split; [done|split; [|split]]]].
  - unfold parent. simpl. by rewrite removelast_last.
  - unfold stem at 1. rewrite name_snoc, suffix_start_webp by done.
    apply take_append.
  - intros Heq. rewrite Heq in Hdsfx. rewrite Hdsfx in Hsup.
    revert Hsup. by vm_compute.
  - unfold LegacyCli.should_convert. rewrite Hdsfx. by vm_compute.
  - rewrite Hdsfx. by vm_compute.
Qed.

End WebpPathFacts.

Module WebpPathProps.
Import PathLib WebpPathFacts.

(** X13.  For a path with a supported extension, [with_suffix(".webp")] (the
    legacy [to_webp_path] and the [dst_path] of the package CLI) returns a
    path in the same directory, with the same stem and the suffix [.webp].
    It is another path than the source, so a conversion never writes over
    its input, and it has no supported extension itself, so a later run does
    not take an output for an image. *)
Theorem webp_path_of_an_image (p : PurePath) :
  LegacyCli.should_convert p = true →
  ∃ d, with_suffix p ".webp" = Some d ∧
       parent d = parent p ∧
       stem d = stem p ∧
       suffix d = ".webp" ∧
       d ≠ p ∧
       LegacyCli.should_convert d = false ∧
       bool_decide (PyStr.lower (suffix d) ∈ Core.SUPPORTED_EXTENSIONS)
       = false.
Proof. apply webp_path_facts. Qed.

Lemma webp_path_of_an_image_witness :
  let p := Path "/pics/trip/shot.final.JPG" in
  LegacyCli.should_convert p = true ∧
  ∃ d, with_suffix p ".webp" = Some d ∧
       parent d = parent p ∧
       stem d = stem p ∧
       suffix d = ".webp" ∧
       d ≠ p ∧
       LegacyCli.should_convert d = false ∧
       bool_decide (PyStr.lower (suffix d) ∈ Core.SUPPORTED_EXTENSIONS)
       = false.
Proof.
  intros p.
  assert (LegacyCli.should_convert p = true) as Hp by (by vm_compute).
  split; [exact Hp|].
  exact (webp_path_of_an_image p Hp).
Defined.

End WebpPathProps.

(** ** How a batch run ends *)

Module RunFacts.
Import PathLib Stats ConvertFacts.



Definition valid_quality (args : Args) : Prop :=
  0 ≤ arg_quality args ≤ 100.

(** *** Where the kernel refuses nothing *)












(** *** Steps that return where nothing is refused *)

Section Sealed.
Context {L : Type}.

Global Instance keeps_open_write_sealed p :
  Keeps (L:=L) same_sealed (Fs.open_write p).
Proof. apply keeps_world_op. intros w. simpl. by repeat case_match. Qed.
Global Instance keeps_write_bytes_sealed p d :
  Keeps (L:=L) same_sealed (Fs.write_bytes p d).
Proof. apply keeps_world_op. by intros w. Qed.
Global Instance keeps_unlink_sealed p : Keeps (L:=L) same_sealed (Fs.unlink p).
Proof. apply keeps_world_op. intros w. simpl. by repeat case_match. Qed.
Global Instance keeps_remove_quietly_sealed p :
  Keeps (L:=L) same_sealed (Fs.remove_quietly p).
Proof. unfold Fs.remove_quietly. apply _. Qed.
Global Instance keeps_print_stderr_sealed line :
  Keeps (L:=L) same_sealed (Cli.print_stderr line).
Proof. apply keeps_world_op. by intros w. Qed.

Section WithCodec.
Context `{Codec}.
Global Instance keeps_save_sealed img p q :
  Keeps (L:=L) same_sealed (Pil.save img p q).
Proof. unfold Pil.save. apply _. Qed.
Global Instance keeps_convert_attempt_sealed input out q :
  Keeps (L:=L) same_sealed (Core.convert_attempt input out q).
Proof.
  unfold Core.convert_attempt. apply keeps_bind; [apply _| |].
  - destruct input; apply _.
  - intros [sz img]. apply _.
Qed.
Global Instance keeps_convert_image_sealed input out q ow :
  Keeps (L:=L) same_sealed (Core.convert_image input out q ow).
Proof. unfold Core.convert_image. apply _. Qed.
End WithCodec.

Implicit Types s : Run L.







End Sealed.

Section WithCodec.
Context `{Codec}.

Global Instance keeps_convert_one_sealed src q ow rep :
  Keeps same_sealed (LegacyCli.convert_one src q ow rep).
Proof. unfold LegacyCli.convert_one, LegacyCli.to_webp_path. apply _. Qed.

Global Instance keeps_process_sealed args src :
  Keeps same_sealed (Cli.process args src).
Proof. unfold Cli.process, Cli.delete_original. apply _. Qed.






End WithCodec.
End RunFacts.

Module RunProps.
Import PathLib Stats RunFacts.


(** X12.  With a quality from 0 to 100 and a directory argument that
    resolves to a path the kernel does not refuse and at which there is
    no directory (nothing, or a regular file), the two batch programs part
    ways.  The legacy walker finds nothing to do: it ends with status 0
    and statistics that are all zero.  The package CLI fails while it
    counts the files: the process ends with status 1 and the
    [FileNotFoundError] (or [NotADirectoryError]) of the listing on
    standard error.  Neither changes a file: each has resolved the
    argument and made one call on the directory. *)
Theorem batch_run_without_directory `{Codec} `{PathEnv}
    (args : Args) (d : PurePath) (w : World) (st : ConversionStats) :
  valid_quality args →
  realpath (Path (arg_dir args)) = inr d →
  Fs.refused w d = None →
  nodes w !! d ≠ Some Dir →
  let w' := Fs.log (OpScandir d) (Fs.log (OpResolve (Path (arg_dir args))) w) in
  run_process (LegacyCli.main args) (MkRun w st) = (0, MkRun w' fresh) ∧
  ∃ e,
    exn_class e ∈ ["FileNotFoundError"; "NotADirectoryError"] ∧
    run_process (Cli.run_cli args) (MkRun w st)
    = (1, MkRun (print_err (exn_class e +:+ ": " +:+ exn_str e) w') fresh).
Proof.
  intros [Hlo Hhi] Hreal Hopen Hdir. cbv zeta. split.
  - unfold run_process, LegacyCli.main. unfold bind at 1, resolve, world_op.
    cbn [world locals]. rewrite Hreal.
    destruct (Z.ltb_spec (arg_quality args) 0); [lia|].
    destruct (Z.ltb_spec 100 (arg_quality args)); [lia|].
    cbn [orb].
    unfold LegacyCli.convert_to_webp, LegacyCli.iter_images.
    assert (FsDir.is_dir_in (nodes w) d = false) as Hnd.
    { unfold FsDir.is_dir_in. by destruct (nodes w !! d) as [[?|]|]. }
    destruct (negb (arg_no_recursive args));
      unfold FsDir.rglob_star, FsDir.glob_star, bind, modify, world_op,
        get_locals, ret; cbn [world locals];
      rewrite FsFacts.refused_log, Hopen; cbn [Fs.log nodes];
      rewrite Hnd; reflexivity.
  - unfold run_process, Cli.run_cli. unfold bind at 1, resolve, world_op.
    cbn [world locals]. rewrite Hreal.
    destruct (Z.leb_spec 0 (arg_quality args)); [|lia].
    destruct (Z.leb_spec (arg_quality args) 100); [|lia].
    cbn [andb negb].
    unfold FsDir.iterdir, bind, modify, world_op. cbn [world locals].
    rewrite FsFacts.refused_log, Hopen. cbn [Fs.log nodes].
    destruct (nodes w !! d) as [[data|]|] eqn:Hd; [| done |].
    + exists (Fs.ENOTDIR d).
      split; [|reflexivity]. apply list_elem_of_further, list_elem_of_here.
    + exists (Fs.ENOENT d).
      split; [|reflexivity]. apply list_elem_of_here.
Qed.

Definition photos : World :=
  Sample.world_of
    [(MkPath "/" [], Dir);
     (MkPath "/" ["photos"], Dir);
     (MkPath "/" ["photos"; "a.png"], File ["R"%byte; x01]);
     (MkPath "/" ["photos"; "notes.txt"], File [x02]);
     (MkPath "/" ["photos"; "more"], Dir);
     (MkPath "/" ["photos"; "more"; "b.jpg"], File ["R"%byte; x03]);
     (MkPath "/" ["photos"; "more"; "c.jpg"], File ["R"%byte; x04])] [].





Lemma batch_run_without_directory_witness :
  let args := MkArgs "/nowhere" 80 false false false in
  let d := MkPath "/" ["nowhere"] in
  let w' := Fs.log (OpScandir d) (Fs.log (OpResolve (Path "/nowhere")) photos) in
  (valid_quality args ∧
   realpath (Path (arg_dir args)) = inr d ∧
   Fs.refused photos d = None ∧
   Sample.at_path photos d ≠ Some Dir) ∧
  run_process (LegacyCli.main args) (MkRun photos fresh)
  = (0, MkRun w' fresh) ∧
  ∃ e,
    exn_class e ∈ ["FileNotFoundError"; "NotADirectoryError"] ∧
    run_process (Cli.run_cli args) (MkRun photos fresh)
    = (1, MkRun (print_err (exn_class e +:+ ": " +:+ exn_str e) w') fresh).
Proof.
  cbv zeta.
  assert (valid_quality (MkArgs "/nowhere" 80 false false false)) as Hq
    by (unfold valid_quality; simpl; lia).
  assert (realpath (Path "/nowhere") = inr (MkPath "/" ["nowhere"])) as Hreal
    by (by vm_compute).
  assert (Fs.refused photos (MkPath "/" ["nowhere"]) = None) as Hopen
    by (by vm_compute).
  assert (nodes photos !! MkPath "/" ["nowhere"] ≠ Some Dir) as Hdir
    by done.
  split.
  { split; [exact Hq|]. split; [exact Hreal|].
    split; [exact Hopen | exact Hdir]. }
  exact (batch_run_without_directory
           (MkArgs "/nowhere" 80 false false false) (MkPath "/" ["nowhere"])
           photos fresh Hq Hreal Hopen Hdir).
Defined.

(** Where a name is too long for its [.webp], or a directory may not be
    searched, both programs end with status 1 and the error on standard
    error. *)
Example refused_paths_end_the_run :
  let args := MkArgs "/pics" 80 false false false in
  let sealed_photos :=
    Sample.seal [MkPath "/" ["photos"; "more"]] photos in
  (run_process (Cli.run_cli args)
     (MkRun CounterClaims.long_name_world fresh)).1 = 1 ∧
  (run_process (LegacyCli.main args)
     (MkRun CounterClaims.long_name_world fresh)).1 = 1 ∧
  (run_process (Cli.run_cli (MkArgs "/photos" 80 false false false))
     (MkRun sealed_photos fresh)).1 = 1 ∧
  (run_process (LegacyCli.main (MkArgs "/photos" 80 false false false))
     (MkRun sealed_photos fresh)).1 = 1 ∧
  (let line :=
     last (stderr (world
             (run_process
                (LegacyCli.main (MkArgs "/photos" 80 false false false))
                (MkRun sealed_photos fresh)).2)) in
   line = Some ("PermissionError: [Errno 13] Permission denied: "
                +:+ "'/photos/more/b.jpg'") ∨
   line = Some ("PermissionError: [Errno 13] Permission denied: "
                +:+ "'/photos/more/c.jpg'")).
Proof. vm_compute. tauto. Qed.

(** In the sample directory two regular files lie at the top and two
    images below: a recursive run of the package CLI scans 2 and finds 3
    eligible, the legacy walker scans 4. *)
Example scanned_is_counted_at_the_top :
  let args := MkArgs "/photos" 80 false false false in
  let st := locals (Cli.run_cli args (MkRun photos fresh)).2 in
  let st' := locals (LegacyCli.main args (MkRun photos fresh)).2 in
  (scanned st, eligible st, converted st) = (2, 3, 3) ∧
  (scanned st', eligible st', converted st') = (4, 3, 3).
Proof. by vm_compute. Qed.

End RunProps.

(** ** What [replace] deletes *)

Module ReplaceFacts.
Import PathLib Stats KeepFacts WebpPathFacts.

(** Every entry of [w] is still in [w'], or is an image whose [.webp]
    is in [w']. *)
Definition replaced (w w' : World) : Prop :=
  ∀ p, is_Some (nodes w !! p) →
       is_Some (nodes w' !! p) ∨
       (LegacyCli.should_convert p = true ∧
        ∃ d, with_suffix p ".webp" = Some d ∧ is_Some (nodes w' !! d)).

Lemma grows_replaced w w' : grows w w' → replaced w w'.
Proof. intros Hg p Hp. left. by apply Hg. Qed.

Global Instance replaced_rel : FsRel replaced.
Proof.
  split.
  - intros w. apply grows_replaced, (fsrel_refl (R:=grows)).
  - intros a b c Hab Hbc p Hp.
    destruct (Hab p Hp) as [Hb | (Hsup & d & Hd & Hb)].
    + by apply Hbc.
    + destruct (Hbc d Hb) as [Hc | (Hsup' & _)].
      * right. eauto.
      * destruct (webp_path_facts p Hsup)
          as (d' & Hd' & _ & _ & _ & _ & Hno & _).
        congruence.
  - intros w o. apply grows_replaced, (fsrel_log (R:=grows)).
Qed.

Section Steps.
Context {L : Type}.
Implicit Types s : Run L.

(** A step that removes nothing, after steps that removed nothing. *)
Lemma post_grow {A} (m : M L A) `{!Keeps grows m} w0 s
    (Q : outcome A → Run L → Prop) :
  grows w0 (world s) →
  (∀ r s', grows w0 (world s') → grows (world s) (world s') → Q r s') →
  post m s Q.
Proof.
  intros Hg HQ. apply (post_keeps grows m). intros r s' Hstep.
  apply HQ; [|done]. by eapply (fsrel_trans (R:=grows)).
Qed.

(** [stat] returns only for a path that is there. *)
Lemma post_stat_there p w0 s (Q : outcome Z → Run L → Prop) :
  grows w0 (world s) →
  (∀ n s', grows w0 (world s') → is_Some (nodes (world s') !! p) →
     Q (Return n) s') →
  (∀ e s', grows w0 (world s') → Q (Raise e) s') →
  post (Fs.stat_size p) s Q.
Proof.
  intros Hg Hr He. unfold post. rewrite FsFacts.stat_size_run.
  assert (grows w0 (Fs.log (OpStat p) (world s))) as Hg'.
  { eapply (fsrel_trans (R:=grows)); [done | apply fsrel_log]. }
  destruct (Fs.refused (world s) p); [by apply He|].
  destruct (nodes (world s) !! p) as [[d|]|] eqn:Hp; simpl.
  - apply Hr; [done|]. simpl. rewrite Hp. by eexists.
  - apply Hr; [done|]. simpl. rewrite Hp. by eexists.
  - by apply He.
Qed.

(** Deleting an image whose [.webp] is there. *)
Lemma post_unlink_image src dst w0 s (Q : outcome unit → Run L → Prop) :
  LegacyCli.should_convert src = true →
  with_suffix src ".webp" = Some dst →
  grows w0 (world s) →
  is_Some (nodes (world s) !! dst) →
  (∀ r s', replaced w0 (world s') → Q r s') →
  post (Fs.unlink src) s Q.
Proof.
  intros Hsup Hdst Hg Hthere HQ.
  unfold post, Fs.unlink, world_op. cbn [world locals].
  assert (replaced w0 (Fs.log (OpUnlink src) (world s))) as Hsame.
  { apply grows_replaced.
    eapply (fsrel_trans (R:=grows)); [done | apply fsrel_log]. }
  destruct (Fs.refused (world s) src); [by apply HQ|].
  destruct (nodes (world s) !! src) as [[d|]|] eqn:Hsrc; simpl;
    [|by apply HQ..].
  destruct (bool_decide _); simpl; [by apply HQ|].
  apply HQ. intros p Hp. unfold Fs.set_nodes. cbn [world nodes].
  destruct (decide (p = src)) as [-> | Hne].
  - right. split; [done|]. exists dst. split; [done|].
    rewrite lookup_delete_ne; [done|].
    destruct (webp_path_facts src Hsup) as (d' & Hd' & _ & _ & _ & Hne & _).
    congruence.
  - left. rewrite lookup_delete_ne by done. by apply Hg.
Qed.

End Steps.

Ltac done_growing :=
  wp; cbn [world]; first [assumption | by apply grows_replaced].

Section WithCodec.
Context `{Codec}.

(** One step of the legacy walker. *)
Global Instance convert_one_replaced src q ow rep :
  Keeps replaced (LegacyCli.convert_one src q ow rep).
Proof.
  destruct rep.
  2: { intros s. apply grows_replaced.
       apply (keeps (R:=grows) (m:=LegacyCli.convert_one src q ow false)). }
  intros s.
  change (post (LegacyCli.convert_one src q ow true) s
            (λ _ s', replaced (world s) (world s'))).
  set (w0 := world s).
  assert (grows w0 (world s)) as Hg by apply (fsrel_refl (R:=grows)).
  clearbody w0. unfold LegacyCli.convert_one.
  wp_step. wp_step. cbn [world locals].
  destruct (LegacyCli.should_convert src) eqn:Hsup; cbn [negb];
    [|by done_growing].
  destruct (BatchFacts.supported_has_webp_path _ Hsup) as [dst Hdst].
  unfold LegacyCli.to_webp_path. rewrite Hdst. cbn [or_value_error].
  wp_step. wp_step. wp_step. wp_step.
  apply post_bind. apply (post_grow _ w0); [done|].
  intros [ex|e] s1 Hg1 _; [|by apply grows_replaced].
  destruct (ex && negb ow).
  - wp_step. wp_step. apply post_try_except. apply post_bind.
    apply (post_stat_there dst w0); [done| |].
    + intros n s2 Hg2 Hthere.
      destruct (0 <? n); [|by done_growing].
      apply post_bind. apply (post_grow _ w0); [done|].
      intros [sz|[c|x]] s3 Hg3 Hstep; cbv beta iota; [|by done_growing..].
      apply post_bind.
      apply (post_unlink_image src dst w0); [done..| by apply Hstep |].
      intros [[]|[c|x]] s4 Hrep; cbv beta iota; by done_growing.
    + intros [c|x] s2 Hg2; by done_growing.
  - apply post_try_except.
    apply post_bind. apply (post_grow _ w0); [done|].
    intros [src_size|[c|x]] s2 Hg2 _; cbv beta iota; [|by done_growing..].
    apply post_bind. apply (post_grow _ w0); [done|].
    intros [img|[c|x]] s3 Hg3 _; cbv beta iota; [|by done_growing..].
    apply post_bind. apply (post_grow _ w0); [done|].
    intros [img'|[c|x]] s4 Hg4 _; cbv beta iota; [|by done_growing..].
    apply post_bind. apply (post_grow _ w0); [done|].
    intros [[]|[c|x]] s5 Hg5 _; cbv beta iota; [|by done_growing..].
    apply post_bind. apply (post_stat_there dst w0); [done| |].
    + intros dst_size s6 Hg6 Hthere. cbv beta iota.
      do 6 wp_step. cbn [world locals].
      apply post_try_except. apply post_bind.
      apply (post_unlink_image src dst w0); [done..|].
      intros [[]|[c|x]] s7 Hrep; cbv beta iota; by done_growing.
    + intros [c|x] s6 Hg6; by done_growing.
Qed.

Global Instance legacy_walk_replaced dir q rec ow rep :
  Keeps replaced (LegacyCli.convert_to_webp dir q rec ow rep).
Proof.
  unfold LegacyCli.convert_to_webp, LegacyCli.iter_images. apply _.
Qed.

End WithCodec.
End ReplaceFacts.

Module ReplaceProps.
Import PathLib Stats ReplaceFacts.

(** X14.  What the legacy walker removes, whatever its options: an
    entry that exists before the run either still exists after it, or is
    a file with a supported extension at whose [.webp] path an entry
    exists after the run.  ([replace] deletes an original only after an
    entry was seen at its [.webp] path, and no later step removes what
    is there.)  That entry need not come from the file deleted: of two
    images with the same stem, the second is deleted beside the [.webp]
    made from the first and is never converted
    ([second_image_of_a_stem_is_lost]). *)
Theorem legacy_walker_deletes_only_beside_a_webp `{Codec}
    directory quality recursive overwrite replace
    (s : Run ConversionStats) (p : PurePath) :
  is_Some (nodes (world s) !! p) →
  let after :=
    world (LegacyCli.convert_to_webp directory quality recursive overwrite
             replace s).2 in
  is_Some (nodes after !! p) ∨
  (LegacyCli.should_convert p = true ∧
   ∃ d, with_suffix p ".webp" = Some d ∧ is_Some (nodes after !! d)).
Proof.
  intros Hp after.
  apply (keeps (R:=replaced)
           (m:=LegacyCli.convert_to_webp directory quality recursive
                 overwrite replace) s p Hp).
Qed.

Definition album : World :=
  Sample.world_of
    [(MkPath "/" [], Dir);
     (MkPath "/" ["album"], Dir);
     (MkPath "/" ["album"; "a.png"], File ["R"%byte; x01]);
     (MkPath "/" ["album"; "broken.jpg"], File [x00]);
     (MkPath "/" ["album"; "notes.txt"], File [x02])] [].

Lemma legacy_walker_deletes_witness :
  let p := MkPath "/" ["album"; "a.png"] in
  let after :=
    world (LegacyCli.convert_to_webp (MkPath "/" ["album"]) 80 true false
             true (MkRun album fresh)).2 in
  is_Some (Sample.at_path album p) ∧
  (is_Some (nodes after !! p) ∨
   (LegacyCli.should_convert p = true ∧
    ∃ d, with_suffix p ".webp" = Some d ∧ is_Some (nodes after !! d))).
Proof.
  cbv zeta.
  assert (is_Some (nodes album !! MkPath "/" ["album"; "a.png"])) as Hp
    by (by eexists).
  split; [exact Hp|].
  exact (legacy_walker_deletes_only_beside_a_webp (MkPath "/" ["album"]) 80
           true false true (MkRun album fresh) _ Hp).
Defined.

(** On the sample album, a run with [replace] deletes [a.png] and leaves
    [a.webp]; the image that cannot be read stays. *)
Example replace_on_the_album :
  let after :=
    world (LegacyCli.convert_to_webp (MkPath "/" ["album"]) 80 true false
             true (MkRun album fresh)).2 in
  Sample.at_path after (MkPath "/" ["album"; "a.png"]) = None ∧
  Sample.at_path after (MkPath "/" ["album"; "a.webp"])
    = Some (File ["W"%byte; x01]) ∧
  Sample.at_path after (MkPath "/" ["album"; "broken.jpg"])
    = Some (File [x00]) ∧
  Sample.at_path after (MkPath "/" ["album"; "broken.webp"]) = None.
Proof.
  intros after. split; [by vm_compute|]. split; [by vm_compute|].
  split; by vm_compute.
Qed.

(** Two images with the same stem. *)
Definition twins : World :=
  Sample.world_of
    [(MkPath "/" [], Dir);
     (MkPath "/" ["twins"], Dir);
     (MkPath "/" ["twins"; "a.jpg"], File ["R"%byte; x01]);
     (MkPath "/" ["twins"; "a.png"], File ["R"%byte; x02])] [].

(** A run with [replace] on the twins deletes both images and leaves
    one [a.webp], made from the one the walk came to first: the other was
    skipped because [a.webp] was there by then, deleted, and its content
    is gone. *)
Example second_image_of_a_stem_is_lost :
  let end_ :=
    LegacyCli.convert_to_webp (MkPath "/" ["twins"]) 80 true false true
      (MkRun twins fresh) in
  let after := world end_.2 in
  Sample.at_path after (MkPath "/" ["twins"; "a.jpg"]) = None ∧
  Sample.at_path after (MkPath "/" ["twins"; "a.png"]) = None ∧
  (Sample.at_path after (MkPath "/" ["twins"; "a.webp"])
     = Some (File ["W"%byte; x01]) ∨
   Sample.at_path after (MkPath "/" ["twins"; "a.webp"])
     = Some (File ["W"%byte; x02])) ∧
  length (Sample.listing after) = 3%nat ∧
  (converted (locals end_.2), skipped_existing (locals end_.2),
   deleted_originals (locals end_.2)) = (1, 1, 2).
Proof. vm_compute. tauto. Qed.

End ReplaceProps.

(** ** What an upload reports as converted *)

Module ReportFacts.
Import PathLib PathFacts OutPathFacts Upload KeepFacts ResultProps
  UploadFrameFacts.

(** A converted item names, relative to the output directory, a path
    that exists in the world. *)
Definition reported (output_dir : PurePath) (w : World)
    (item : UploadItemResult) : Prop :=
  status item = "converted" →
  ∃ out rel, relative_to out output_dir = Some rel ∧
             output_relpath item = Some (as_posix rel) ∧
             is_Some (nodes w !! out).

Lemma reported_grows output_dir w w' item :
  grows w w' → reported output_dir w item → reported output_dir w' item.
Proof.
  intros Hg Hrep Hst. destruct (Hrep Hst) as (out & rel & ? & ? & Hout).
  exists out, rel. repeat split; try done. by apply Hg.
Qed.

(** What one pass of the loop does to the list of results. *)
Definition reports_one (output_dir : PurePath) (s s' : Run Locals) : Prop :=
  results (locals s') = results (locals s) ∨
  ∃ item, results (locals s') = results (locals s) ++ [item] ∧
          reported output_dir (world s') item.

Lemma not_reported_converted output_dir w name st msg rel n m :
  st ≠ "converted" → reported output_dir w (MkItem name st msg rel n m).
Proof. intros Hne Hst. by destruct Hne. Qed.

Section Steps.
Context `{Codec} {L : Type}.

(** [stat] returns only for a path that is there, and changes
    nothing. *)
Lemma post_stat_exists p (s : Run L) (Q : outcome Z → Run L → Prop) :
  (∀ n w, nodes w = nodes (world s) → is_Some (nodes w !! p) →
     Q (Return n) (MkRun w (locals s))) →
  (∀ x w, Q (Raise (Exc x)) (MkRun w (locals s))) →
  post (Fs.stat_size p) s Q.
Proof.
  intros Hr He. unfold post. rewrite FsFacts.stat_size_run.
  destruct (Fs.refused (world s) p); [apply He|].
  destruct (nodes (world s) !! p) as [[d|]|] eqn:Hp; simpl.
  - apply Hr; [done|]. simpl. rewrite Hp. by eexists.
  - apply Hr; [done|]. simpl. rewrite Hp. by eexists.
  - apply He.
Qed.

(** After a conversion that succeeded the output is there. *)
Lemma post_convert_image_there input out q ow (s : Run L)
    (Q : outcome Core.ConversionResult → Run L → Prop) :
  (∀ res w, (Core.success res = true → is_Some (nodes w !! out)) →
     Q (Return res) (MkRun w (locals s))) →
  (∀ x w, Q (Raise (Exc x)) (MkRun w (locals s))) →
  post (Core.convert_image input out q ow) s Q.
Proof.
  intros HQ He. unfold post.
  pose proof (tame (m:=Core.convert_image input out q ow) s) as Ht.
  pose proof (convert_image_sizes input out q ow s) as Hsz.
  destruct (Core.convert_image input out q ow s) as [r s'].
  inversion Ht as [res w Hres | x w Hx]; subst; cbn [fst snd]; [|apply He].
  apply HQ. intros Hok. destruct Hsz as [_ Hsz]. rewrite Hok in Hsz.
  destruct Hsz as ((img & data & _ & Hout & _) & _).
  cbn [world] in Hout. rewrite Hout. by eexists.
Qed.

End Steps.

Ltac report_step :=
  lazymatch goal with
  | |- post (Fs.stat_size _) _ _ =>
      apply post_stat_exists; [intros ? ? ? ? | intros ? ?]
  | |- post (Core.convert_image _ _ _ _) _ _ =>
      apply post_convert_image_there; [intros ? ? ? | intros ? ?]
  | |- _ => wp_step
  end; cbv beta iota.

Ltac same_results := left; reflexivity.

Ltac one_more := right; eexists; split; [reflexivity|].

Section Handlers.
Context `{Codec} `{PathEnv} `{Werkzeug}.

Global Instance web_handle_file_grows output_dir target quality ow f :
  Keeps grows (Web.handle_file output_dir target quality ow f).
Proof. unfold Web.handle_file. apply _. Qed.

Global Instance legacy_handle_file_grows output_dir target quality ow f :
  Keeps grows (LegacyWeb.handle_file output_dir target quality ow f).
Proof. unfold LegacyWeb.handle_file. apply _. Qed.

(** What a pass of the loop that returns has reported. *)
Definition pass_reports (output_dir : PurePath) (s : Run Locals)
    (r : outcome unit) (s' : Run Locals) : Prop :=
  match r with
  | Return _ => reports_one output_dir s s'
  | Raise _ => True
  end.

Lemma web_handle_file_reports output_dir target quality ow f s :
  within output_dir target →
  post (Web.handle_file output_dir target quality ow f) s
    (pass_reports output_dir s).
Proof.
  intros Hw. unfold Web.handle_file, pass_reports.
  destruct (unnamed f) eqn:Hf; [by same_results|].
  cbv zeta.
  destruct (bool_decide (_ ∈ Core.SUPPORTED_EXTENSIONS)) eqn:Hsup;
    cbn [negb].
  2: { repeat report_step. one_more. by apply not_reported_converted. }
  apply bool_decide_eq_true_1, supported_suffix in Hsup.
  rewrite (out_path_below _ target Hsup).
  set (out := MkPath _ _).
  destruct (relative_to_within output_dir out) as [rel Hrel].
  { by apply within_snoc. }
  unfold relpath_str. rewrite Hrel. cbn [or_value_error].
  repeat report_step;
    first [ exact I
          | one_more; first [ by apply not_reported_converted | idtac ] ].
  intros _. exists out, rel. cbn [output_relpath world]. auto.
Qed.

Lemma legacy_handle_file_reports output_dir target quality ow f s :
  within output_dir target →
  post (LegacyWeb.handle_file output_dir target quality ow f) s
    (pass_reports output_dir s).
Proof.
  intros Hw. unfold LegacyWeb.handle_file, pass_reports.
  destruct (unnamed f) eqn:Hf; [by same_results|].
  cbv zeta.
  destruct (bool_decide (_ ∈ LegacyWeb.SUPPORTED_EXTENSIONS)) eqn:Hsup;
    cbn [negb].
  2: { repeat report_step. one_more. by apply not_reported_converted. }
  apply bool_decide_eq_true_1, legacy_supported_suffix in Hsup.
  rewrite (out_path_below _ target Hsup).
  set (out := MkPath _ _).
  destruct (relative_to_within output_dir out) as [rel Hrel].
  { by apply within_snoc. }
  unfold relpath_str. rewrite Hrel. cbn [or_value_error].
  repeat report_step;
    first [ exact I
          | one_more; first [ by apply not_reported_converted | idtac ] ].
  intros _. exists out, rel. cbn [output_relpath world]. auto.
Qed.

(** The items reported so far name paths that exist. *)
Definition all_reported (output_dir : PurePath) (s : Run Locals) : Prop :=
  Forall (reported output_dir (world s)) (results (locals s)).

Lemma all_reported_step {A} output_dir (body : A → M Locals unit) x s :
  Keeps grows (body x) →
  post (body x) s (pass_reports output_dir s) →
  all_reported output_dir s →
  post (body x) s (λ r s', match r with
                           | Return _ => all_reported output_dir s'
                           | Raise _ => True
                           end).
Proof.
  intros Hkeep Hone Hall. specialize (Hkeep s).
  unfold post, pass_reports in *.
  destruct (body x s) as [[[]|e] s']; [|done]. cbn [fst snd] in *.
  assert (Forall (reported output_dir (world s')) (results (locals s)))
    as Hold.
  { eapply Forall_impl; [exact Hall|]. intros item.
    by apply reported_grows. }
  unfold all_reported. destruct Hone as [-> | (item & -> & Hitem)]; [done|].
  apply Forall_app. split; [done|]. by constructor.
Qed.

(** What follows the guard in both handlers, for a loop body that
    reports what is there. *)
Lemma after_guard_reports output_dir target req w'
    (body : FileStorage → M Locals unit) dir sub ow q :
  (∀ f, Keeps grows (body f)) →
  (∀ f s', post (body f) s' (pass_reports output_dir s')) →
  match (FsDir.mkdir_parents target ;;
         for_each (files req) body ;;
         l ← get_locals;
         ret (MkResponse (results l)
                (MkSummary (Z.of_nat (length (files req))) (converted l)
                   (skipped l) (failed l) (total_in l) (total_out l)
                   (total_in l - total_out l) dir sub ow q)))
          (MkRun w' fresh)
  with
  | (Return resp, s') =>
      Forall (reported output_dir (world s')) (resp_results resp)
  | (Raise _, _) => True
  end.
Proof.
  intros Hkeep Hbody. unfold bind at 1.
  pose proof (TallySteps.tame_mkdir_parents (L:=Locals) target
                (MkRun w' fresh)) as Hmk.
  destruct (FsDir.mkdir_parents target (MkRun w' fresh)) as [r1 s1].
  inversion Hmk as [a w1 Hr | x w1 Hr]; subst; [|done].
  cbn [locals]. unfold bind at 1.
  pose proof (post_for_each_exit (all_reported output_dir) (λ _, True)
                (files req) body (MkRun w1 fresh)) as Hloop.
  unfold post in Hloop.
  destruct (for_each (files req) body (MkRun w1 fresh)) as [[[]|e] s2];
    [|done].
  cbn [fst snd] in Hloop. unfold bind, get_locals, ret. cbv beta iota.
  cbn [resp_results]. apply Hloop; [|constructor].
  intros f s' Hs'. by apply all_reported_step.
Qed.

Lemma web_upload_reports output_dir req s :
  realpath output_dir = inr output_dir →
  match Web.upload output_dir req s with
  | (Return resp, s') =>
      Forall (reported output_dir (world s')) (resp_results resp)
  | (Raise _, _) => True
  end.
Proof.
  intros Hres. unfold Web.upload. cbv zeta.
  unfold bind at 1. unfold modify at 1. cbv beta iota.
  unfold bind at 1.
  destruct (SubdirClaims.target_dir_of_run output_dir
              (Web.safe_subdir (default "" (form req !! "subdir")))
              (MkRun (world s) fresh)) as (w' & Hsame & ->).
  fold (requested_target output_dir req).
  destruct (requested_target output_dir req) as [x|target] eqn:Ht;
    cbn [SubdirClaims.outcome_of]; [done|].
  pose proof (TallyProps.resolved_root_within output_dir req target Hres Ht)
    as Hw.
  cbn [locals].
  apply after_guard_reports; [apply _|].
  intros f s'. by apply web_handle_file_reports.
Qed.

Lemma legacy_upload_reports output_dir req s :
  realpath output_dir = inr output_dir →
  match LegacyWeb.upload output_dir req s with
  | (Return resp, s') =>
      Forall (reported output_dir (world s')) (resp_results resp)
  | (Raise _, _) => True
  end.
Proof.
  intros Hres. unfold LegacyWeb.upload. cbv zeta.
  unfold bind at 1. unfold modify at 1. cbv beta iota.
  unfold bind at 1. rewrite SubdirClaims.target_dir_legacy.
  change (LegacyWeb.safe_subdir (default "" (form req !! "subdir")))
    with (Web.safe_subdir (default "" (form req !! "subdir"))).
  destruct (SubdirClaims.target_dir_of_run output_dir
              (Web.safe_subdir (default "" (form req !! "subdir")))
              (MkRun (world s) fresh)) as (w' & Hsame & ->).
  fold (requested_target output_dir req).
  destruct (requested_target output_dir req) as [x|target] eqn:Ht;
    cbn [SubdirClaims.outcome_of]; [done|].
  pose proof (TallyProps.resolved_root_within output_dir req target Hres Ht)
    as Hw.
  cbn [locals].
  apply after_guard_reports; [apply _|].
  intros f s'. by apply legacy_handle_file_reports.
Qed.

End Handlers.
End ReportFacts.

Module ReportProps.
Import PathLib Upload ReportFacts.

(** X15.  What either application reports as converted is on disk: when the
    output directory is a resolved path and the request is answered, every
    item with the status [converted] carries the path, relative to the
    output directory, of an entry that exists when the request ends,
    whatever the later parts of the same request did. *)
Theorem upload_converted_items_exist `{Codec} `{PathEnv} `{Werkzeug}
    (output_dir : PurePath) (req : Request) (s : Run Locals) :
  realpath output_dir = inr output_dir →
  match Web.upload output_dir req s with
  | (Return resp, s') =>
      Forall (reported output_dir (world s')) (resp_results resp)
  | (Raise _, _) => True
  end ∧
  match LegacyWeb.upload output_dir req s with
  | (Return resp, s') =>
      Forall (reported output_dir (world s')) (resp_results resp)
  | (Raise _, _) => True
  end.
Proof.
  intros Hres. split.
  - by apply web_upload_reports.
  - by apply legacy_upload_reports.
Qed.

Definition shared_dir : PurePath := MkPath "/" ["srv"; "out"].
Definition shared_world : World :=
  Sample.world_of
    [(MkPath "/" [], Dir); (MkPath "/" ["srv"], Dir); (shared_dir, Dir)] [].

(** Two parts with the same stem: the second is written over the
    first. *)
Definition same_stem_request : Request :=
  MkRequest [MkFile (Some "cat.png") ["R"%byte; x01];
             MkFile (Some "cat.jpg") ["R"%byte; x02; x03]]
    {[ "overwrite" := "on" ]}.

Lemma upload_converted_items_exist_witness :
  realpath shared_dir = inr shared_dir ∧
  match Web.upload shared_dir same_stem_request (MkRun shared_world fresh)
  with
  | (Return resp, s') =>
      Forall (reported shared_dir (world s')) (resp_results resp)
  | (Raise _, _) => True
  end ∧
  match LegacyWeb.upload shared_dir same_stem_request
          (MkRun shared_world fresh)
  with
  | (Return resp, s') =>
      Forall (reported shared_dir (world s')) (resp_results resp)
  | (Raise _, _) => True
  end.
Proof.
  split; [reflexivity|].
  apply (upload_converted_items_exist shared_dir same_stem_request
           (MkRun shared_world fresh)).
  reflexivity.
Defined.

(** Both parts are reported as converted under the same path, which
    holds the second. *)
Example same_stem_is_reported_twice :
  match Web.upload shared_dir same_stem_request (MkRun shared_world fresh)
  with
  | (Return resp, s') =>
      output_relpath <$> resp_results resp
        = [Some "cat.webp"; Some "cat.webp"] ∧
      status <$> resp_results resp = ["converted"; "converted"] ∧
      Sample.at_path (world s') (MkPath "/" ["srv"; "out"; "cat.webp"])
        = Some (File ["W"%byte; x02; x03])
  | (Raise _, _) => False
  end.
Proof. by vm_compute. Qed.

End ReportProps.

(** ** What a failed conversion leaves behind *)

Module FailureFacts.
Import Core ConvertFacts ResultProps.

(** The files and directories are the same. *)
Definition same_nodes (w w' : World) : Prop := nodes w' = nodes w.

Global Instance same_nodes_rel : FsRel same_nodes.
Proof.
  split.
  - by intros w.
  - intros a b c Hab Hbc. unfold same_nodes in *. congruence.
  - by intros w o.
Qed.

Section WithCodec.
Context `{Codec} {L : Type}.

(** A save that raises where no file was leaves no file: the library
    removes what it created. *)
Lemma save_raises_clean img p q (s s' : Run L) e :
  nodes (world s) !! p = None →
  Pil.save img p q s = (Raise e, s') →
  nodes (world s') !! p = None.
Proof.
  intros Hp. unfold Pil.save.
  intros [Hraise | (img' & s0 & Hload & Hrest)]%bind_raises.
  { destruct (img_load img); unfold lift_exn, raise_exn, raise, ret in Hraise;
      by simplify_eq/=. }
  apply lift_exn_returns in Hload as [_ ->].
  revert Hrest. unfold bind, Fs.open_write, world_op. cbn [world locals].
  destruct (Fs.refused (world s) p) eqn:Href;
    [intros Heq; by simplify_eq/=|].
  rewrite Hp.
  destruct (nodes (world s) !! PathLib.parent p) as [[d|]|]; simpl;
    try (intros Heq; by simplify_eq/=).
  destruct (bool_decide (PathLib.parent p ∈ readonly (world s))) eqn:Hro;
    simpl; [intros Heq; by simplify_eq/=|].
  destruct (webp_encode img' q) as [x|data]; simpl.
  - unfold Fs.remove_quietly, try_except, Fs.unlink, world_op.
    cbn [world locals].
    erewrite FsFacts.refused_same_dirs, Href; [| |done].
    2: { intros r. cbn [Fs.set_nodes Fs.log nodes].
         destruct (decide (r = p)) as [-> | Hne].
         - rewrite lookup_insert_eq, Hp. split; discriminate.
         - by rewrite lookup_insert_ne. }
    cbn [Fs.set_nodes Fs.log nodes readonly].
    rewrite lookup_insert_eq, Hro. cbn [world locals].
    unfold raise_exn, raise. intros Heq. simplify_eq/=.
    apply lookup_delete_eq.
  - unfold Fs.write_bytes, world_op. simpl. discriminate.
Qed.

(** The steps before the save only read. *)
Lemma opening_same_nodes (input : input_data) :
  Keeps (L:=L) same_nodes
    (match input with
     | InPath p =>
         sz ← Fs.stat_size p; img ← Pil.open_path p; ret (sz, img)
     | InBytes data =>
         img ← Pil.open_bytes data; ret (Z.of_nat (length data), img)
     end).
Proof. destruct input; apply _. Qed.

Lemma convert_attempt_raises_clean input out q (s s' : Run L) e :
  nodes (world s) !! out = None →
  convert_attempt input out q s = (Raise e, s') →
  nodes (world s') !! out = None.
Proof.
  intros Hout. unfold convert_attempt.
  pose proof (opening_same_nodes input s) as Hopen. unfold same_nodes in Hopen.
  intros [Hraise | ([sz img] & s1 & Hrun & Hrest)]%bind_raises.
  { rewrite Hraise in Hopen. simpl in Hopen. by rewrite Hopen. }
  rewrite Hrun in Hopen. simpl in Hopen.
  apply bind_raises in Hrest as [Hraise | (img' & s2 & Hlift & Hrest)].
  { destruct (ensure_webp_compatible_mode img);
      unfold lift_exn, raise_exn, raise, ret in Hraise; simplify_eq/=.
    by rewrite Hopen. }
  apply lift_exn_returns in Hlift as [_ ->].
  apply bind_raises in Hrest as [Hraise | ([] & s3 & Hsave & Hrest)].
  { eapply save_raises_clean; [|exact Hraise]. by rewrite Hopen. }
  apply bind_raises in Hrest as [Hraise | (n & s4 & _ & Hret)];
    [|discriminate].
  pose proof (save_returns_open _ _ _ _ _ Hsave) as Hopen3.
  apply save_returns in Hsave as (img'' & data & _ & _ & Hthere).
  revert Hraise. rewrite FsFacts.stat_size_run, Hopen3, Hthere. discriminate.
Qed.

(** A conversion that fails where no output was leaves the files and
    directories as they were. *)
Lemma convert_image_fails_clean input out q ow (s s' : Run L) res :
  nodes (world s) !! out = None →
  convert_image input out q ow s = (Return res, s') →
  success res = false →
  nodes (world s') = nodes (world s).
Proof.
  intros Hout Hrun Hfail.
  pose proof (keeps (R:=only_at out) (m:=convert_image input out q ow) s)
    as (Hframe & _).
  rewrite Hrun in Hframe. simpl in Hframe.
  apply map_eq. intros p. destruct (decide (p = out)) as [-> | Hne];
    [|by apply Hframe].
  rewrite Hout. revert Hrun.
  rewrite CoreClaims.convert_image_run. cbv zeta.
  destruct (Fs.refused (world s) out); [discriminate|].
  destruct (Fs.exists_at (world s) out && negb ow);
    [intros Heq; by simplify_eq/=|].
  destruct (convert_attempt input out q _) as [[r|[c|x]] s2] eqn:Hatt;
    simpl; intros Heq; simplify_eq/=.
  - apply convert_attempt_returns in Hatt as (Hok & _). congruence.
  - by apply convert_attempt_raises_clean in Hatt.
Qed.

End WithCodec.
End FailureFacts.

Module FailureProps.
Import Core FailureFacts.

(** X16.  A conversion that fails leaves no half-written output: when no
    entry exists at [output_path] before the call and [convert_image]
    reports a failure, the files and directories after the call are exactly
    those before it. *)
Theorem failed_conversion_leaves_no_file `{Codec} {L : Type}
    (input : input_data) (output_path : PurePath) (quality : Z)
    (overwrite : bool) (s s' : Run L) (res : ConversionResult) :
  nodes (world s) !! output_path = None →
  convert_image input output_path quality overwrite s = (Return res, s') →
  success res = false →
  nodes (world s') = nodes (world s).
Proof.
  intros Hout Hrun Hfail.
  by eapply convert_image_fails_clean.
Qed.

Definition scratch : World :=
  Sample.world_of
    [(MkPath "/" [], Dir); (MkPath "/" ["tmp"], Dir);
     (MkPath "/" ["tmp"; "keep.txt"], File [x01])] [].

Definition no_image : ConversionResult :=
  MkResult false
    ("Error during conversion: cannot identify image file "
     +:+ "<_io.BytesIO object>") 0 0 0.

Lemma failed_conversion_witness :
  let s := MkRun scratch tt in
  let out := MkPath "/" ["tmp"; "x.webp"] in
  let run := convert_image (InBytes [x00; x01]) out 80 false s in
  (nodes (world s) !! out = None ∧
   run = (Return no_image, run.2) ∧
   success no_image = false) ∧
  nodes (world run.2) = nodes (world s).
Proof.
  cbv zeta.
  assert ((convert_image (InBytes [x00; x01]) (MkPath "/" ["tmp"; "x.webp"])
             80 false (MkRun scratch tt)).1 = Return no_image) as Hres
    by (by vm_compute).
  assert (nodes scratch !! MkPath "/" ["tmp"; "x.webp"] = None) as Hout
    by reflexivity.
  destruct (convert_image (InBytes [x00; x01]) (MkPath "/" ["tmp"; "x.webp"])
              80 false (MkRun scratch tt)) as [r s'] eqn:Hrun.
  simpl in Hres. subst r.
  split; [by repeat split|].
  exact (failed_conversion_leaves_no_file (InBytes [x00; x01])
           (MkPath "/" ["tmp"; "x.webp"]) 80 false (MkRun scratch tt) s'
           no_image Hout Hrun eq_refl).
Defined.

End FailureProps.

(** ** What a batch run may delete *)

Module DeleteFacts.
Import PathLib Stats KeepFacts ReplaceFacts.

(** Every entry of [w] is still in [w'], unless it has a supported
    extension. *)
Definition only_images_go (w w' : World) : Prop :=
  ∀ p, is_Some (nodes w !! p) →
       is_Some (nodes w' !! p) ∨ LegacyCli.should_convert p = true.

Lemma grows_only_images_go w w' : grows w w' → only_images_go w w'.
Proof. intros Hg p Hp. left. by apply Hg. Qed.

Lemma replaced_only_images_go w w' : replaced w w' → only_images_go w w'.
Proof. intros Hr p Hp. destruct (Hr p Hp) as [? | [? _]]; [by left | by right]. Qed.

Global Instance only_images_go_rel : FsRel only_images_go.
Proof.
  split.
  - intros w. apply grows_only_images_go, (fsrel_refl (R:=grows)).
  - intros a b c Hab Hbc p Hp.
    destruct (Hab p Hp) as [Hb | ?]; [by apply Hbc | by right].
  - intros w o. apply grows_only_images_go, (fsrel_log (R:=grows)).
Qed.

Lemma keeps_grows_images {L A} (m : M L A) :
  Keeps grows m → Keeps only_images_go m.
Proof. intros Hm s. apply grows_only_images_go, Hm. Qed.

Section WithCodec.
Context `{Codec}.

Global Instance keeps_convert_image_images {L} input out q ow :
  Keeps (L:=L) only_images_go (Core.convert_image input out q ow).
Proof. apply keeps_grows_images, _. Qed.

Global Instance keeps_print_stderr_images {L} line :
  Keeps (L:=L) only_images_go (Cli.print_stderr line).
Proof. apply keeps_grows_images, _. Qed.

(** Deleting a file with a supported extension. *)
Lemma keeps_unlink_image {L} src :
  LegacyCli.should_convert src = true →
  Keeps (L:=L) only_images_go (Fs.unlink src).
Proof.
  intros Hsup. apply keeps_world_op. intros w. cbn beta.
  destruct (Fs.refused w src); [apply (fsrel_log (R:=only_images_go))|].
  destruct (nodes w !! src) as [[d|]|];
    try apply (fsrel_log (R:=only_images_go)).
  destruct (bool_decide _); simpl;
    [apply (fsrel_log (R:=only_images_go))|].
  intros p Hp. unfold Fs.set_nodes. cbn [nodes].
  destruct (decide (p = src)) as [-> | Hne]; [by right|].
  left. by rewrite lookup_delete_ne.
Qed.

Lemma process_only_images_go args src :
  LegacyCli.should_convert src = true →
  Keeps only_images_go (Cli.process args src).
Proof.
  intros Hsup. pose proof (keeps_unlink_image (L:=ConversionStats) src Hsup).
  unfold Cli.process, Cli.delete_original. apply _.
Qed.

Lemma run_cli_only_images_go `{PathEnv} args :
  Keeps only_images_go (Cli.run_cli args).
Proof.
  assert (∀ path (f : bool),
            Keeps only_images_go
              (if f && bool_decide (PyStr.lower (PathLib.suffix path)
                                      ∈ Core.SUPPORTED_EXTENSIONS)
               then Cli.process args path else ret ())) as Hbody.
  { intros path f.
    destruct (bool_decide (PyStr.lower (suffix path)
                             ∈ Core.SUPPORTED_EXTENSIONS)) eqn:Hsup.
    - destruct f; cbn [andb]; [|apply _].
      by apply process_only_images_go.
    - rewrite andb_false_r. apply _. }
  unfold Cli.run_cli, Cli.iter_images. apply _.
Qed.

End WithCodec.
End DeleteFacts.

Module DeleteProps.
Import PathLib Stats DeleteFacts.

(** X17.  Whatever the options, neither batch program removes anything but
    files with a supported extension: a directory, a [.webp] file or any
    other entry that exists before the run exists after it. *)
Theorem batch_run_removes_only_images `{Codec} `{PathEnv}
    (args : Args) directory quality recursive overwrite replace
    (s : Run ConversionStats) (p : PurePath) :
  is_Some (nodes (world s) !! p) →
  LegacyCli.should_convert p = false →
  is_Some (nodes (world (Cli.run_cli args s).2) !! p) ∧
  is_Some (nodes (world (LegacyCli.convert_to_webp directory quality
                           recursive overwrite replace s).2) !! p).
Proof.
  intros Hp Hno. split.
  - destruct (run_cli_only_images_go args s p Hp); [done | congruence].
  - destruct (replaced_only_images_go _ _
                (keeps (R:=ReplaceFacts.replaced)
                   (m:=LegacyCli.convert_to_webp directory quality recursive
                         overwrite replace) s) p Hp); [done | congruence].
Qed.

Definition shelf : World :=
  Sample.world_of
    [(MkPath "/" [], Dir);
     (MkPath "/" ["shelf"], Dir);
     (MkPath "/" ["shelf"; "a.png"], File ["R"%byte; x01]);
     (MkPath "/" ["shelf"; "a.webp"], File []);
     (MkPath "/" ["shelf"; "readme.md"], File [x02])] [].

Lemma batch_run_removes_only_images_witness :
  let args := MkArgs "/shelf" 80 false true true in
  let s := MkRun shelf fresh in
  let p := MkPath "/" ["shelf"; "readme.md"] in
  (is_Some (Sample.at_path shelf p) ∧ LegacyCli.should_convert p = false) ∧
  is_Some (nodes (world (Cli.run_cli args s).2) !! p) ∧
  is_Some (nodes (world (LegacyCli.convert_to_webp (MkPath "/" ["shelf"]) 80
                           true true true s).2) !! p).
Proof.
  cbv zeta.
  assert (is_Some (nodes shelf !! MkPath "/" ["shelf"; "readme.md"])) as Hp
    by (by eexists).
  assert (LegacyCli.should_convert (MkPath "/" ["shelf"; "readme.md"]) = false)
    as Hno by (by vm_compute).
  split; [by split|].
  exact (batch_run_removes_only_images (MkArgs "/shelf" 80 false true true)
           (MkPath "/" ["shelf"]) 80 true true true (MkRun shelf fresh)
           _ Hp Hno).
Defined.

(** A directory with one file that is no image. *)
Definition one_file (name : string) : World :=
  Sample.world_of
    [(MkPath "/" [], Dir); (MkPath "/" ["pics"], Dir);
     (MkPath "/" ["pics"; name], File [x00])] [].

Definition after_replace (name : string) : Run ConversionStats :=
  (Cli.run_cli (MkArgs "/pics" 80 false false true)
     (MkRun (one_file name) fresh)).2.

(** The package CLI tells a skipped file by the word [exists] in the
    message of the failure, and the decoder's message quotes the path: a
    file named [exists.jpg] that is no image is counted as skipped and,
    with [replace], deleted, though no [.webp] of it was ever there; under
    another name it is counted as failed and kept. *)
Example unreadable_file_named_exists :
  Sample.at_path (world (after_replace "exists.jpg"))
    (MkPath "/" ["pics"; "exists.jpg"]) = None ∧
  Sample.at_path (world (after_replace "exists.jpg"))
    (MkPath "/" ["pics"; "exists.webp"]) = None ∧
  (skipped_existing (locals (after_replace "exists.jpg")),
   deleted_originals (locals (after_replace "exists.jpg")),
   failed (locals (after_replace "exists.jpg"))) = (1, 1, 0) ∧
  Sample.at_path (world (after_replace "broken.jpg"))
    (MkPath "/" ["pics"; "broken.jpg"]) = Some (File [x00]) ∧
  (skipped_existing (locals (after_replace "broken.jpg")),
   deleted_originals (locals (after_replace "broken.jpg")),
   failed (locals (after_replace "broken.jpg"))) = (0, 0, 1).
Proof. repeat split; by vm_compute. Qed.

End DeleteProps.
